(** * hyqw_adapter: state synchronisation and command throttling

    A shallow embedding of the synchronisation core of the adapter:

    - [state_manager]        (state_manager.py)        the differential state cache;
    - [polling_bus]          (polling_bus.py)          the long/short polling scheduler;
    - [throttled_action_bus] (throttled_action_bus.py) the FIFO command queue;
    - [mqtt_gateway]         (mqtt_gateway.py)         inbound push-message handling;
    - [state_sync_router]    (state_sync_router.py)    the mode-gated batch handlers.

    Conventions.  Python objects become records and every method becomes a
    function from the object (and its arguments) to the updated object.
    [time.time()] and [datetime.now()] are inputs: a method that reads the
    clock takes the reading as its argument [now], an integer number of
    milliseconds.  A Python value that is "an int or None" is an [option Z].
    Unordered containers ([set], and [dict]s whose order is never observed)
    are [gset]/[gmap]; a [dict] whose insertion order is observed is an
    association list with distinct keys.  Calls into external collaborators
    (listeners, callbacks) are recorded in a trace kept next to the state. *)

From stdpp Require Import gmap strings pretty list fin_maps.
From Stdlib Require Import ZArith Ascii.

(** ** Insertion-ordered dictionaries

    [d[k] = v] on a Python [dict] overwrites in place when [k] is present
    and appends at the end otherwise; iteration follows insertion order. *)

Section odict.
Context {K V : Type} {K_eq_dec : EqDecision K}.

Fixpoint od_get (k : K) (d : list (K * V)) : option V :=
  match d with
  | [] => None
  | (k', v) :: d' => if decide (k = k') then Some v else od_get k d'
  end.

Fixpoint od_set (k : K) (v : V) (d : list (K * V)) : list (K * V) :=
  match d with
  | [] => [(k, v)]
  | (k', v') :: d' =>
      if decide (k = k') then (k, v) :: d' else (k', v') :: od_set k v d'
  end.

Definition od_keys (d : list (K * V)) : list K := d.*1.

End odict.

(** ** state_manager.py *)

Module state_manager.

(** A field of a state entry as [dict.get] returns it: an int, or [None]. *)
Abbreviation Value := (option Z).

(** One element of [new_states_data]: a dict read with
    [state.get("st")], ..., [state.get("fv")]. *)
Record RawState := {
  raw_st : Value;
  raw_si : Value;
  raw_fn : Value;
  raw_fv : Value
}.

(** The cached state of one function: [{"fv": .., "st": .., "timestamp": ..}]. *)
Record FnState := {
  fv : Value;
  st : Value;
  timestamp : Z
}.

#[global] Instance FnState_eq_dec : EqDecision FnState.
Proof. solve_decision. Defined.

(** The [changes] dict built by [_compare_states]. [new_functions] keeps,
    per device, the function codes in the order they were met. *)
Record Changes := {
  has_changes : bool;
  changed_devices : gset Z;
  changed_functions : gmap Z (gmap Z (Value * Value));
  new_devices : gset Z;
  new_functions : gmap Z (list Z)
}.

(** An entry of [_devices_cache], as far as it names a device: only the
    keys that decide who is notified are kept, [deviceId] and [si]. The
    source keeps more in these dicts: [_update_device_properties] and
    [force_update_device] write [current_states] and the display
    attributes derived per device type into the cached dict itself. These
    never flow back into the state cache or the change-set and are not
    modelled; what is said here about [_devices_cache] is said about the
    names of the devices, not about those attributes. *)
Record DeviceInfo := {
  deviceId : Z;
  device_si : Value
}.

(** The [notification_data] dict handed to every listener. *)
Record Notification := {
  n_changes : Changes;
  n_updated_devices : list DeviceInfo;
  n_timestamp : Z
}.

Record Stats := {
  total_updates : nat;
  devices_changed : nat;
  functions_changed : nat;
  last_update_time : option Z;
  cached_devices : nat
}.

(** The manager. Listeners are opaque callbacks, named by a number;
    [delivered] is the trace of listener calls, oldest first. *)
Record StateManager := {
  _device_states_cache : gmap Z (gmap Z FnState);
  _devices_cache : list (Z * DeviceInfo);
  _state_listeners : list nat;
  _stats : Stats;
  delivered : list (nat * Notification)
}.

Definition init : StateManager := {|
  _device_states_cache := ∅;
  _devices_cache := [];
  _state_listeners := [];
  _stats := {| total_updates := 0; devices_changed := 0; functions_changed := 0;
               last_update_time := None; cached_devices := 0 |};
  delivered := []
|}.

Definition add_state_listener (listener : nat) (sm : StateManager) : StateManager :=
  {| _device_states_cache := _device_states_cache sm;
     _devices_cache := _devices_cache sm;
     _state_listeners := _state_listeners sm ++ [listener];
     _stats := _stats sm;
     delivered := delivered sm |}.

(** [update_devices_info]: devices without a truthy [deviceId] are skipped. *)
Definition update_devices_info (devices : list (option Z * Value)) (sm : StateManager)
  : StateManager :=
  let cache :=
    foldl (λ acc d,
             match d.1 with
             | Some id => if decide (id = 0%Z) then acc
                          else od_set id {| deviceId := id; device_si := d.2 |} acc
             | None => acc
             end) (_devices_cache sm) devices in
  {| _device_states_cache := _device_states_cache sm;
     _devices_cache := cache;
     _state_listeners := _state_listeners sm;
     _stats := {| total_updates := total_updates (_stats sm);
                  devices_changed := devices_changed (_stats sm);
                  functions_changed := functions_changed (_stats sm);
                  last_update_time := last_update_time (_stats sm);
                  cached_devices := length cache |};
     delivered := delivered sm |}.

(** [_organize_states_data]: group by [si]; a later entry for the same
    [(si, fn)] replaces the earlier one in place. *)
Definition organize_state (now : Z) (organized : list (Z * list (Z * FnState)))
    (state : RawState) : list (Z * list (Z * FnState)) :=
  match raw_si state, raw_fn state with
  | Some si, Some fn =>
      let functions := default [] (od_get si organized) in
      od_set si
        (od_set fn {| fv := raw_fv state; st := raw_st state; timestamp := now |}
                functions)
        organized
  | _, _ => organized
  end.

Definition _organize_states_data (now : Z) (states_data : list RawState)
  : list (Z * list (Z * FnState)) :=
  foldl (organize_state now) [] states_data.

(** [self._device_states_cache.get(si, {}).get(fn, {})], as an option. *)
Definition cached (cache : gmap Z (gmap Z FnState)) (si fn : Z) : option FnState :=
  cache !! si ≫= λ functions, functions !! fn.

(** The body of the inner loop of [_compare_states]; the accumulator is
    [(device_changed, device_function_changes, device_new_functions)]. *)
Definition compare_function (cache : gmap Z (gmap Z FnState)) (si : Z)
    (acc : bool * gmap Z (Value * Value) * list Z) (item : Z * FnState)
  : bool * gmap Z (Value * Value) * list Z :=
  let '(device_changed, device_function_changes, device_new_functions) := acc in
  let new_fv := fv item.2 in
  match cached cache si item.1 with
  | None => (true, device_function_changes, device_new_functions ++ [item.1])
  | Some old_state =>
      let old_fv := fv old_state in
      if decide (old_fv ≠ new_fv)
      then (true, <[item.1 := (old_fv, new_fv)]> device_function_changes,
            device_new_functions)
      else acc
  end.

(** The body of the outer loop of [_compare_states]. *)
Definition compare_device (cache : gmap Z (gmap Z FnState))
    (changes : Changes) (dev : Z * list (Z * FnState)) : Changes :=
  let si := dev.1 in
  let is_new := bool_decide (cache !! si = None) in
  let new_devices' :=
    if is_new then {[si]} ∪ new_devices changes else new_devices changes in
  let '(device_changed, device_function_changes, device_new_functions) :=
    foldl (compare_function cache si) (is_new, ∅, []) dev.2 in
  if device_changed then
    {| has_changes := true;
       changed_devices := {[si]} ∪ changed_devices changes;
       changed_functions :=
         if decide (device_function_changes = ∅) then changed_functions changes
         else <[si := device_function_changes]> (changed_functions changes);
       new_devices := new_devices';
       new_functions :=
         if decide (device_new_functions = []) then new_functions changes
         else <[si := device_new_functions]> (new_functions changes) |}
  else
    {| has_changes := has_changes changes;
       changed_devices := changed_devices changes;
       changed_functions := changed_functions changes;
       new_devices := new_devices';
       new_functions := new_functions changes |}.

Definition no_changes : Changes := {|
  has_changes := false;
  changed_devices := ∅;
  changed_functions := ∅;
  new_devices := ∅;
  new_functions := ∅
|}.

Definition _compare_states (cache : gmap Z (gmap Z FnState))
    (new_states : list (Z * list (Z * FnState))) : Changes :=
  foldl (compare_device cache) no_changes new_states.

(** One round of the loop of [_update_states_cache]: every function of
    [new_states[si]] is written, whether or not its value changed. *)
Definition update_device_states (new_states : list (Z * list (Z * FnState)))
    (si : Z) (cache : gmap Z (gmap Z FnState)) : gmap Z (gmap Z FnState) :=
  match od_get si new_states with
  | Some functions =>
      <[si := foldl (λ row item, <[item.1 := item.2]> row)
                    (default ∅ (cache !! si)) functions]> cache
  | None => cache
  end.

Definition _update_states_cache (cache : gmap Z (gmap Z FnState))
    (new_states : list (Z * list (Z * FnState))) (changes : Changes)
  : gmap Z (gmap Z FnState) :=
  set_fold (update_device_states new_states) cache (changed_devices changes).

(** The first device of [_devices_cache] with [device.get("si") == si]. *)
Definition find_device (devices : list (Z * DeviceInfo)) (si : Z) : option DeviceInfo :=
  (list_find (λ d, device_si d.2 = Some si) devices) ≫= λ r, Some r.2.2.

(** [_update_device_properties]: the devices to report, one per changed
    [si] that has a device record. *)
Definition _update_device_properties (sm : StateManager) (changes : Changes)
  : list DeviceInfo :=
  omap (find_device (_devices_cache sm)) (elements (changed_devices changes)).

(** [_notify_state_listeners]: nothing without listeners, otherwise one
    call per listener, in registration order. *)
Definition _notify_state_listeners (now : Z) (changes : Changes)
    (updated_devices : list DeviceInfo) (sm : StateManager) : StateManager :=
  let data := {| n_changes := changes; n_updated_devices := updated_devices;
                 n_timestamp := now |} in
  {| _device_states_cache := _device_states_cache sm;
     _devices_cache := _devices_cache sm;
     _state_listeners := _state_listeners sm;
     _stats := _stats sm;
     delivered := delivered sm ++ ((λ l, (l, data)) <$> _state_listeners sm) |}.

Definition count_changed_functions (changes : Changes) : nat :=
  map_fold (λ _ funcs n, size funcs + n) 0 (changed_functions changes).

(** [process_state_update]. The second component of the result is the
    returned dict: [None] stands for the empty dict [{}] of the
    empty-batch return, [Some c] for a [changes] dict with all five keys. *)
Definition process_state_update (now : Z) (new_states_data : list RawState)
    (sm : StateManager) : (bool * option Changes) * StateManager :=
  match new_states_data with
  | [] => ((false, None), sm)
  | _ =>
      let stats1 := {| total_updates := S (total_updates (_stats sm));
                       devices_changed := devices_changed (_stats sm);
                       functions_changed := functions_changed (_stats sm);
                       last_update_time := Some now;
                       cached_devices := cached_devices (_stats sm) |} in
      let new_device_states := _organize_states_data now new_states_data in
      let changes := _compare_states (_device_states_cache sm) new_device_states in
      if negb (has_changes changes) then
        ((false, Some changes),
         {| _device_states_cache := _device_states_cache sm;
            _devices_cache := _devices_cache sm;
            _state_listeners := _state_listeners sm;
            _stats := stats1;
            delivered := delivered sm |})
      else
        let sm1 := {| _device_states_cache :=
                        _update_states_cache (_device_states_cache sm)
                                             new_device_states changes;
                      _devices_cache := _devices_cache sm;
                      _state_listeners := _state_listeners sm;
                      _stats := stats1;
                      delivered := delivered sm |} in
        let updated_devices := _update_device_properties sm1 changes in
        let sm2 := _notify_state_listeners now changes updated_devices sm1 in
        ((true, Some changes),
         {| _device_states_cache := _device_states_cache sm2;
            _devices_cache := _devices_cache sm2;
            _state_listeners := _state_listeners sm2;
            _stats := {| total_updates := total_updates stats1;
                         devices_changed :=
                           devices_changed stats1 + size (changed_devices changes);
                         functions_changed :=
                           functions_changed stats1 + count_changed_functions changes;
                         last_update_time := last_update_time stats1;
                         cached_devices := cached_devices stats1 |};
            delivered := delivered sm2 |})
  end.

(** [get_device_state(si, fn)] with [fn] given: [None] for an unknown
    device, otherwise [cache[si].get(fn, {})] (here [Some None] for [{}]). *)
Definition get_device_state (sm : StateManager) (si fn : Z) : option (option FnState) :=
  match _device_states_cache sm !! si with
  | None => None
  | Some functions => Some (functions !! fn)
  end.

(** [force_update_device]. *)
Definition force_update_device (now : Z) (si fn : Z) (new_fv : Value)
    (sm : StateManager) : StateManager :=
  let row := default ∅ (_device_states_cache sm !! si) in
  let old_fv := row !! fn ≫= fv in
  let entry := {| fv := new_fv; st := Some 10101%Z; timestamp := now |} in
  let sm1 := {| _device_states_cache := <[si := <[fn := entry]> row]> (_device_states_cache sm);
                _devices_cache := _devices_cache sm;
                _state_listeners := _state_listeners sm;
                _stats := _stats sm;
                delivered := delivered sm |} in
  match find_device (_devices_cache sm) si with
  | Some device =>
      let changes := {| has_changes := true;
                        changed_devices := {[si]};
                        changed_functions := {[si := {[fn := (old_fv, new_fv)]}]};
                        new_devices := ∅;
                        new_functions := ∅ |} in
      _notify_state_listeners now changes [device] sm1
  | None => sm1
  end.

(** *** Predicates used to state the properties *)

(** An organised batch, as [_organize_states_data] builds it: distinct
    device keys, and per device a non-empty list of distinct function keys. *)
Definition well_formed (organized : list (Z * list (Z * FnState))) : Prop :=
  NoDup (od_keys organized) ∧
  Forall (λ dev, NoDup (od_keys dev.2) ∧ dev.2 ≠ []) organized.

(** The cache already holds [item]'s function for device [si], with the same [fv]. *)
Definition fn_same (cache : gmap Z (gmap Z FnState)) (si : Z) (item : Z * FnState) : Prop :=
  match cached cache si item.1 with
  | Some old_state => fv old_state = fv item.2
  | None => False
  end.

(** The cache knows the device and agrees with all its incoming functions. *)
Definition dev_same (cache : gmap Z (gmap Z FnState)) (dev : Z * list (Z * FnState)) : Prop :=
  is_Some (cache !! dev.1) ∧ Forall (fn_same cache dev.1) dev.2.

#[global] Instance fn_same_dec cache si item : Decision (fn_same cache si item).
Proof. unfold fn_same. destruct (cached cache si item.1); apply _. Defined.

#[global] Instance dev_same_dec cache dev : Decision (dev_same cache dev).
Proof. unfold dev_same. apply _. Defined.

(** The same organised batch, stamped with another clock reading. *)
Definition restamp_state (now : Z) (s : FnState) : FnState :=
  {| fv := fv s; st := st s; timestamp := now |}.

Definition restamp_row (now : Z) (functions : list (Z * FnState)) : list (Z * FnState) :=
  prod_map id (restamp_state now) <$> functions.

Definition restamp (now : Z) (organized : list (Z * list (Z * FnState)))
  : list (Z * list (Z * FnState)) :=
  prod_map id (restamp_row now) <$> organized.

(** The incoming state of [(si, fn)] in a batch, if the batch has one. *)
Definition incoming (now : Z) (batch : list RawState) (si fn : Z) : option FnState :=
  od_get si (_organize_states_data now batch) ≫= od_get fn.

(** [remove_state_listener]: [list.remove] drops the first occurrence. *)
Fixpoint remove_first (listener : nat) (listeners : list nat) : list nat :=
  match listeners with
  | [] => []
  | l :: rest => if decide (listener = l) then rest else l :: remove_first listener rest
  end.

Definition remove_state_listener (listener : nat) (sm : StateManager) : StateManager :=
  {| _device_states_cache := _device_states_cache sm;
     _devices_cache := _devices_cache sm;
     _state_listeners := remove_first listener (_state_listeners sm);
     _stats := _stats sm;
     delivered := delivered sm |}.

(** [clear_cache]: both caches are emptied and four counters are reset;
    [last_update_time] and the listeners stay. *)
Definition clear_cache (sm : StateManager) : StateManager :=
  {| _device_states_cache := ∅;
     _devices_cache := [];
     _state_listeners := _state_listeners sm;
     _stats := {| total_updates := 0; devices_changed := 0; functions_changed := 0;
                  last_update_time := last_update_time (_stats sm);
                  cached_devices := 0 |};
     delivered := delivered sm |}.

(** An entry that [_organize_states_data] keeps: [si] and [fn] are not [None]. *)
Definition usable (state : RawState) : bool :=
  bool_decide (is_Some (raw_si state) ∧ is_Some (raw_fn state)).

(** The state an entry brings. *)
Definition state_of (now : Z) (state : RawState) : FnState :=
  {| fv := raw_fv state; st := raw_st state; timestamp := now |}.

(** A device dict that [update_devices_info] stores: its [deviceId] is truthy. *)
Definition registrable (device : option Z * Value) : bool :=
  match device.1 with
  | Some id => bool_decide (id ≠ 0%Z)
  | None => false
  end.

(** What the inner loop of [_compare_states] collects for one device:
    [device_function_changes] and [device_new_functions]. *)
Definition function_changes (cache : gmap Z (gmap Z FnState))
    (dev : Z * list (Z * FnState)) : gmap Z (Value * Value) :=
  (foldl (compare_function cache dev.1)
         (bool_decide (cache !! dev.1 = None), ∅, []) dev.2).1.2.

Definition added_functions (cache : gmap Z (gmap Z FnState))
    (dev : Z * list (Z * FnState)) : list Z :=
  (foldl (compare_function cache dev.1)
         (bool_decide (cache !! dev.1 = None), ∅, []) dev.2).2.

(** The entry of the spec's scenario, [{st:10101, si:5, fn:1, fv:1}]. *)
Definition scenario_entry : RawState :=
  {| raw_st := Some 10101%Z; raw_si := Some 5%Z; raw_fn := Some 1%Z; raw_fv := Some 1%Z |}.

(** The change-set [force_update_device] hands to the listeners. *)
Definition forced_changes (si fn : Z) (old_fv new_fv : Value) : Changes :=
  {| has_changes := true;
     changed_devices := {[si]};
     changed_functions := {[si := {[fn := (old_fv, new_fv)]}]};
     new_devices := ∅;
     new_functions := ∅ |}.

End state_manager.

(** ** polling_bus.py *)

Module polling_bus.

Inductive Mode := long | short.

#[global] Instance Mode_eq_dec : EqDecision Mode.
Proof. solve_decision. Defined.

(** [self.config], with the intervals in clock units. *)
Record Config := {
  long_polling_interval : Z;
  short_polling_interval : Z;
  short_polling_duration : Z
}.

Record Stats := {
  long_polling_count : nat;
  short_polling_count : nat;
  mode_switches : nat;
  last_poll_time : option Z;
  stats_current_mode : Mode
}.

(** Where the coroutine [_polling_loop] stands. It gives up control at two
    places only: in [asyncio.sleep(sleep_time)] and while it awaits the
    query callback. A sleep ends when its time has come or when the task
    is cancelled; nothing else in this class wakes it. *)
Inductive Task :=
| NoTask                   (* [polling_task] is [None] *)
| Ready                    (* created by [start], not yet run *)
| Sleeping (wake_at : Z)   (* in [asyncio.sleep], until [wake_at] *)
| Querying                 (* in [_execute_poll], awaiting the callback *)
| Finished.                (* returned or cancelled *)

(** The bus. [polls] is the trace of callback invocations: the clock
    reading and the mode of each executed poll, oldest first. *)
Record PollingBus := {
  config : Config;
  is_running : bool;
  current_mode : Mode;
  polling_task : Task;
  last_operation_time : Z;
  short_polling_end_time : Z;
  next_poll_time : Z;
  stats : Stats;
  polls : list (Z * Mode)
}.

Definition new (cfg : Config) : PollingBus := {|
  config := cfg;
  is_running := false;
  current_mode := long;
  polling_task := NoTask;
  last_operation_time := 0;
  short_polling_end_time := 0;
  next_poll_time := 0;
  stats := {| long_polling_count := 0; short_polling_count := 0; mode_switches := 0;
              last_poll_time := None; stats_current_mode := long |};
  polls := []
|}.

Definition start (now : Z) (bus : PollingBus) : PollingBus :=
  if is_running bus then bus
  else
    {| config := config bus;
       is_running := true;
       current_mode := long;
       polling_task := Ready;
       last_operation_time := last_operation_time bus;
       short_polling_end_time := short_polling_end_time bus;
       next_poll_time := (now + long_polling_interval (config bus))%Z;
       stats := stats bus;
       polls := polls bus |}.

(** [stop]: the task, if there is one that has not finished, is cancelled. *)
Definition stop (bus : PollingBus) : PollingBus :=
  {| config := config bus;
     is_running := false;
     current_mode := current_mode bus;
     polling_task := match polling_task bus with
                     | NoTask => NoTask
                     | _ => Finished
                     end;
     last_operation_time := last_operation_time bus;
     short_polling_end_time := short_polling_end_time bus;
     next_poll_time := next_poll_time bus;
     stats := stats bus;
     polls := polls bus |}.

Definition count_switch (st : Stats) : Stats :=
  {| long_polling_count := long_polling_count st;
     short_polling_count := short_polling_count st;
     mode_switches := S (mode_switches st);
     last_poll_time := last_poll_time st;
     stats_current_mode := stats_current_mode st |}.

(** [trigger_short_polling]: only fields of the bus are written; the task
    is neither cancelled nor signalled. *)
Definition trigger_short_polling (now : Z) (bus : PollingBus) : PollingBus :=
  let a := short_polling_interval (config bus) in
  let b := short_polling_duration (config bus) in
  {| config := config bus;
     is_running := is_running bus;
     current_mode := short;
     polling_task := polling_task bus;
     last_operation_time := now;
     short_polling_end_time := (now + b)%Z;
     next_poll_time := (now + a)%Z;
     stats := if decide (current_mode bus ≠ short) then count_switch (stats bus)
              else stats bus;
     polls := polls bus |}.

Definition extend_short_polling (now : Z) (bus : PollingBus) : PollingBus :=
  if decide (current_mode bus ≠ short) then trigger_short_polling now bus
  else
    {| config := config bus;
       is_running := is_running bus;
       current_mode := current_mode bus;
       polling_task := polling_task bus;
       last_operation_time := now;
       short_polling_end_time := (now + short_polling_duration (config bus))%Z;
       next_poll_time := next_poll_time bus;
       stats := stats bus;
       polls := polls bus |}.

Definition set_short_polling_mode (now : Z) (bus : PollingBus) : PollingBus :=
  if decide (current_mode bus = short) then extend_short_polling now bus
  else trigger_short_polling now bus.

Definition _calculate_next_poll_time (now : Z) (bus : PollingBus) : PollingBus :=
  match current_mode bus with
  | short =>
      let remaining_time := (short_polling_end_time bus - now)%Z in
      if decide (remaining_time ≤ 0)%Z then
        {| config := config bus;
           is_running := is_running bus;
           current_mode := long;
           polling_task := polling_task bus;
           last_operation_time := last_operation_time bus;
           short_polling_end_time := short_polling_end_time bus;
           next_poll_time := (now + long_polling_interval (config bus))%Z;
           stats := count_switch (stats bus);
           polls := polls bus |}
      else
        {| config := config bus;
           is_running := is_running bus;
           current_mode := current_mode bus;
           polling_task := polling_task bus;
           last_operation_time := last_operation_time bus;
           short_polling_end_time := short_polling_end_time bus;
           next_poll_time := (now + short_polling_interval (config bus))%Z;
           stats := stats bus;
           polls := polls bus |}
  | long =>
      {| config := config bus;
         is_running := is_running bus;
         current_mode := current_mode bus;
         polling_task := polling_task bus;
         last_operation_time := last_operation_time bus;
         short_polling_end_time := short_polling_end_time bus;
         next_poll_time := (now + long_polling_interval (config bus))%Z;
         stats := stats bus;
         polls := polls bus |}
  end.

Definition set_task (task : Task) (bus : PollingBus) : PollingBus :=
  {| config := config bus;
     is_running := is_running bus;
     current_mode := current_mode bus;
     polling_task := task;
     last_operation_time := last_operation_time bus;
     short_polling_end_time := short_polling_end_time bus;
     next_poll_time := next_poll_time bus;
     stats := stats bus;
     polls := polls bus |}.

(** [_execute_poll] up to its [await]: the counters are updated and the
    query callback is invoked. *)
Definition _execute_poll (now : Z) (bus : PollingBus) : PollingBus :=
  {| config := config bus;
     is_running := is_running bus;
     current_mode := current_mode bus;
     polling_task := Querying;
     last_operation_time := last_operation_time bus;
     short_polling_end_time := short_polling_end_time bus;
     next_poll_time := next_poll_time bus;
     stats := {| long_polling_count :=
                   match current_mode bus with
                   | long => S (long_polling_count (stats bus))
                   | short => long_polling_count (stats bus)
                   end;
                 short_polling_count :=
                   match current_mode bus with
                   | long => short_polling_count (stats bus)
                   | short => S (short_polling_count (stats bus))
                   end;
                 mode_switches := mode_switches (stats bus);
                 last_poll_time := Some now;
                 stats_current_mode := current_mode bus |};
     polls := polls bus ++ [(now, current_mode bus)] |}.

(** The part of [_polling_loop] after the sleep: leave if the bus was
    stopped, poll otherwise. *)
Definition after_sleep (now : Z) (bus : PollingBus) : PollingBus :=
  if is_running bus then _execute_poll now bus else set_task Finished bus.

(** [_polling_loop] from the head of its [while]: the sleep is computed
    once, from the [next_poll_time] read at this moment. *)
Definition loop_head (now : Z) (bus : PollingBus) : PollingBus :=
  if is_running bus then
    let sleep_time := (next_poll_time bus - now)%Z in
    if decide (sleep_time > 0)%Z then set_task (Sleeping (now + sleep_time)) bus
    else after_sleep now bus
  else set_task Finished bus.

(** The event loop runs the task at clock reading [now], up to its next
    suspension. [None]: the task cannot run at [now] (there is none, it has
    finished, or it is asleep and its time has not come). *)
Definition resume (now : Z) (bus : PollingBus) : option PollingBus :=
  match polling_task bus with
  | Ready => Some (loop_head now bus)
  | Sleeping wake_at =>
      if decide (wake_at ≤ now)%Z then Some (after_sleep now bus) else None
  | Querying => Some (loop_head now (_calculate_next_poll_time now bus))
  | NoTask | Finished => None
  end.

(** The configuration of the spec's scenario, in milliseconds. *)
Definition scenario_config : Config :=
  {| long_polling_interval := 15000; short_polling_interval := 1000;
     short_polling_duration := 5000 |}.

(** A run of recomputations, one per tick, with no trigger in between. *)
Definition ticks (times : list Z) (bus : PollingBus) : PollingBus :=
  foldl (λ b t, _calculate_next_poll_time t b) bus times.

(** [reset_stats]: the three counters and [last_poll_time] are cleared;
    the ["current_mode"] entry of the stats is not in the update. *)
Definition reset_stats (bus : PollingBus) : PollingBus :=
  {| config := config bus;
     is_running := is_running bus;
     current_mode := current_mode bus;
     polling_task := polling_task bus;
     last_operation_time := last_operation_time bus;
     short_polling_end_time := short_polling_end_time bus;
     next_poll_time := next_poll_time bus;
     stats := {| long_polling_count := 0; short_polling_count := 0;
                 mode_switches := 0; last_poll_time := None;
                 stats_current_mode := stats_current_mode (stats bus) |};
     polls := polls bus |}.

(** What can happen to a bus: the calls of its users, each at a clock
    reading, and the event loop giving the task a turn. A turn the task
    cannot take leaves the bus as it is. *)
Inductive Op :=
| OpStart (now : Z)
| OpStop
| OpTrigger (now : Z)
| OpExtend (now : Z)
| OpSetShort (now : Z)
| OpResume (now : Z).

Definition apply_op (bus : PollingBus) (op : Op) : PollingBus :=
  match op with
  | OpStart now => start now bus
  | OpStop => stop bus
  | OpTrigger now => trigger_short_polling now bus
  | OpExtend now => extend_short_polling now bus
  | OpSetShort now => set_short_polling_mode now bus
  | OpResume now => default bus (resume now bus)
  end.

Definition is_start (op : Op) : Prop :=
  match op with OpStart _ => True | _ => False end.

(** The polls of one mode in a trace. *)
Definition polls_in (mode : Mode) (trace : list (Z * Mode)) : list (Z * Mode) :=
  filter (λ poll, poll.2 = mode) trace.

(** The counters of [stats] tell what the trace of polls tells. *)
Definition accounted (bus : PollingBus) : Prop :=
  long_polling_count (stats bus) = length (polls_in long (polls bus)) ∧
  short_polling_count (stats bus) = length (polls_in short (polls bus)) ∧
  last_poll_time (stats bus) = fst <$> last (polls bus).

(** A bus whose loop is gone: stopped, with no task or a finished one. *)
Definition halted (bus : PollingBus) : Prop :=
  is_running bus = false ∧ (polling_task bus = NoTask ∨ polling_task bus = Finished).

End polling_bus.
(** ** throttled_action_bus.py *)

Module throttled_action_bus.

Inductive ActionStatus := PENDING | EXECUTING | COMPLETED | FAILED | CANCELLED.

Record DeviceAction := {
  device_id : Z;
  st : Z;
  si : Z;
  fn : Z;
  fv : Z;
  action_id : string;
  entity_id : string;
  timestamp : Z;
  status : ActionStatus;
  result : option bool;
  error_message : option string
}.

(** [self._stats] without [average_wait_time], a running mean of floats
    that nothing else reads. *)
Record Stats := {
  total_actions : nat;
  successful_actions : nat;
  failed_actions : nat;
  cancelled_actions : nat;
  queue_max_length : nat;
  last_execution_time : option Z
}.

(** The tasks running [_process_queue]. They all take
    [self._processing_lock] first, so at most one of them is past it:
    [Idle] when the lock is free, [AtLoop] when its holder is about to test
    the [while] condition, [InFlow a] while the holder awaits inside
    [_execute_action_flow(a)]. *)
Inductive Processor :=
| Idle
| AtLoop
| InFlow (action : DeviceAction).

(** The bus. [waiting_tasks] counts the [_process_queue] tasks created and
    not yet past the lock; [burst_requests] counts the calls to
    [polling_bus.set_short_polling_mode()]; [finished] keeps the actions
    that left the bus, with their final status. [_processor_task] is
    [None] from construction on (nothing assigns it) and is left out. *)
Record Bus := {
  _action_queue : list DeviceAction;
  _executing_action : option DeviceAction;
  _occupied_devices : gmap string string;
  _is_running : bool;
  _stats : Stats;
  waiting_tasks : nat;
  processor : Processor;
  burst_requests : nat;
  finished : list DeviceAction
}.

Definition new : Bus := {|
  _action_queue := [];
  _executing_action := None;
  _occupied_devices := ∅;
  _is_running := false;
  _stats := {| total_actions := 0; successful_actions := 0; failed_actions := 0;
               cancelled_actions := 0; queue_max_length := 0;
               last_execution_time := None |};
  waiting_tasks := 0;
  processor := Idle;
  burst_requests := 0;
  finished := []
|}.

Definition start (bus : Bus) : Bus :=
  {| _action_queue := _action_queue bus;
     _executing_action := _executing_action bus;
     _occupied_devices := _occupied_devices bus;
     _is_running := true;
     _stats := _stats bus;
     waiting_tasks := waiting_tasks bus;
     processor := processor bus;
     burst_requests := burst_requests bus;
     finished := finished bus |}.

Definition cancel (action : DeviceAction) : DeviceAction :=
  {| device_id := device_id action; st := st action; si := si action;
     fn := fn action; fv := fv action; action_id := action_id action;
     entity_id := entity_id action; timestamp := timestamp action;
     status := CANCELLED; result := result action;
     error_message := Some "节流总线已停止" |}.

(** [stop]: the test on [_processor_task] never succeeds, so no task is
    cancelled; the queue is drained into cancelled actions and the
    occupancy map is emptied. *)
Definition stop (bus : Bus) : Bus :=
  {| _action_queue := [];
     _executing_action := _executing_action bus;
     _occupied_devices := ∅;
     _is_running := false;
     _stats := {| total_actions := total_actions (_stats bus);
                  successful_actions := successful_actions (_stats bus);
                  failed_actions := failed_actions (_stats bus);
                  cancelled_actions :=
                    cancelled_actions (_stats bus) + length (_action_queue bus);
                  queue_max_length := queue_max_length (_stats bus);
                  last_execution_time := last_execution_time (_stats bus) |};
     waiting_tasks := waiting_tasks bus;
     processor := processor bus;
     burst_requests := burst_requests bus;
     finished := finished bus ++ (cancel <$> _action_queue bus) |}.

(** What [submit_action] raises. *)
Inductive SubmitError :=
| BusNotRunning                                (* RuntimeError *)
| DeviceOccupied (existing_action_id : string). (* ValueError *)

(** [f"action_{int(time.time() * 1000)}"], the clock being in milliseconds. *)
Definition make_action_id (now : Z) : string := "action_" +:+ pretty now.

Definition pending_action (now device_id st si fn fv : Z) (entity_id : string)
  : DeviceAction :=
  {| device_id := device_id; st := st; si := si; fn := fn; fv := fv;
     action_id := make_action_id now; entity_id := entity_id; timestamp := now;
     status := PENDING; result := None; error_message := None |}.

(** [submit_action]: the exception or the returned id, and the bus after
    the call (untouched when the call raises). *)
Definition submit_action (now device_id st si fn fv : Z) (entity_id : string)
    (bus : Bus) : (SubmitError + string) * Bus :=
  if negb (_is_running bus) then (inl BusNotRunning, bus)
  else
    match _occupied_devices bus !! entity_id with
    | Some existing_action_id => (inl (DeviceOccupied existing_action_id), bus)
    | None =>
        let action := pending_action now device_id st si fn fv entity_id in
        let queue := _action_queue bus ++ [action] in
        let queue_length := length queue in
        (inr (action_id action),
         {| _action_queue := queue;
            _executing_action := _executing_action bus;
            _occupied_devices := <[entity_id := action_id action]> (_occupied_devices bus);
            _is_running := _is_running bus;
            _stats := {| total_actions := S (total_actions (_stats bus));
                         successful_actions := successful_actions (_stats bus);
                         failed_actions := failed_actions (_stats bus);
                         cancelled_actions := cancelled_actions (_stats bus);
                         queue_max_length :=
                           if decide (queue_max_length (_stats bus) < queue_length)
                           then queue_length else queue_max_length (_stats bus);
                         last_execution_time := last_execution_time (_stats bus) |};
            waiting_tasks := if decide (queue_length = 1) then S (waiting_tasks bus)
                             else waiting_tasks bus;
            processor := processor bus;
            burst_requests := burst_requests bus;
            finished := finished bus |})
    end.

Definition is_device_occupied (bus : Bus) (entity_id : string) : bool :=
  bool_decide (is_Some (_occupied_devices bus !! entity_id)).

Definition set_status (new_status : ActionStatus) (action : DeviceAction) : DeviceAction :=
  {| device_id := device_id action; st := st action; si := si action;
     fn := fn action; fv := fv action; action_id := action_id action;
     entity_id := entity_id action; timestamp := timestamp action;
     status := new_status; result := result action;
     error_message := error_message action |}.

(** A waiting [_process_queue] task takes the free lock. *)
Definition acquire (bus : Bus) : option Bus :=
  match processor bus, waiting_tasks bus with
  | Idle, S n =>
      Some {| _action_queue := _action_queue bus;
              _executing_action := _executing_action bus;
              _occupied_devices := _occupied_devices bus;
              _is_running := _is_running bus;
              _stats := _stats bus;
              waiting_tasks := n;
              processor := AtLoop;
              burst_requests := burst_requests bus;
              finished := finished bus |}
  | _, _ => None
  end.

(** The lock holder at [while self._action_queue and self._is_running]:
    it pops the head, marks it executing and enters its flow, up to the
    first [await]; or it leaves the loop and frees the lock.
    [should_trigger_polling] is what step 1 of the flow finds out from the
    router. *)
Definition process_next (should_trigger_polling : bool) (bus : Bus) : Bus :=
  match _action_queue bus with
  | action :: rest =>
      if _is_running bus then
        {| _action_queue := rest;
           _executing_action := Some (set_status EXECUTING action);
           _occupied_devices := _occupied_devices bus;
           _is_running := _is_running bus;
           _stats := _stats bus;
           waiting_tasks := waiting_tasks bus;
           processor := InFlow (set_status EXECUTING action);
           burst_requests := if should_trigger_polling then S (burst_requests bus)
                             else burst_requests bus;
           finished := finished bus |}
      else
        {| _action_queue := _action_queue bus;
           _executing_action := _executing_action bus;
           _occupied_devices := _occupied_devices bus;
           _is_running := _is_running bus;
           _stats := _stats bus;
           waiting_tasks := waiting_tasks bus;
           processor := Idle;
           burst_requests := burst_requests bus;
           finished := finished bus |}
  | [] =>
      {| _action_queue := _action_queue bus;
         _executing_action := _executing_action bus;
         _occupied_devices := _occupied_devices bus;
         _is_running := _is_running bus;
         _stats := _stats bus;
         waiting_tasks := waiting_tasks bus;
         processor := Idle;
         burst_requests := burst_requests bus;
         finished := finished bus |}
  end.

(** How the awaited part of a flow ends: the control callback returned a
    boolean, or something raised. *)
Inductive Outcome :=
| Returned (success : bool)
| Raised (message : string).

Definition settle (outcome : Outcome) (action : DeviceAction) : DeviceAction :=
  {| device_id := device_id action; st := st action; si := si action;
     fn := fn action; fv := fv action; action_id := action_id action;
     entity_id := entity_id action; timestamp := timestamp action;
     status := match outcome with Returned true => COMPLETED | _ => FAILED end;
     result := match outcome with Returned success => Some success
                                | Raised _ => Some false end;
     error_message := match outcome with
                      | Returned true => error_message action
                      | Returned false => Some "执行回调返回False"
                      | Raised message => Some message
                      end |}.

(** The rest of [_execute_action_flow(action)] and of the loop body after
    it: the outcome is recorded, [_executing_action] is reset and the
    occupancy of the action's target is deleted. *)
Definition finish_flow (now : Z) (outcome : Outcome) (action : DeviceAction)
    (bus : Bus) : Bus :=
  {| _action_queue := _action_queue bus;
     _executing_action := None;
     _occupied_devices := delete (entity_id action) (_occupied_devices bus);
     _is_running := _is_running bus;
     _stats := {| total_actions := total_actions (_stats bus);
                  successful_actions :=
                    match outcome with
                    | Returned true => S (successful_actions (_stats bus))
                    | _ => successful_actions (_stats bus)
                    end;
                  failed_actions :=
                    match outcome with
                    | Returned true => failed_actions (_stats bus)
                    | _ => S (failed_actions (_stats bus))
                    end;
                  cancelled_actions := cancelled_actions (_stats bus);
                  queue_max_length := queue_max_length (_stats bus);
                  last_execution_time := Some now |};
     waiting_tasks := waiting_tasks bus;
     processor := AtLoop;
     burst_requests := burst_requests bus;
     finished := finished bus ++ [settle outcome action] |}.

(** The end of a flow as the rest of the program sees it. From the last
    [await] of a flow to the first [await] of the next the task is not
    suspended: the loop test and, on a running bus with a queued action,
    the start of the next flow belong to the same step. *)
Definition complete_flow (now : Z) (outcome : Outcome) (should_trigger_polling : bool)
    (action : DeviceAction) (bus : Bus) : Bus :=
  process_next should_trigger_polling (finish_flow now outcome action bus).

(** [clear_stats]: every counter goes back to its initial value. *)
Definition clear_stats (bus : Bus) : Bus :=
  {| _action_queue := _action_queue bus;
     _executing_action := _executing_action bus;
     _occupied_devices := _occupied_devices bus;
     _is_running := _is_running bus;
     _stats := {| total_actions := 0; successful_actions := 0; failed_actions := 0;
                  cancelled_actions := 0; queue_max_length := 0;
                  last_execution_time := None |};
     waiting_tasks := waiting_tasks bus;
     processor := processor bus;
     burst_requests := burst_requests bus;
     finished := finished bus |}.

(** What can happen to a bus: calls from outside and steps of its tasks.
    The steps of the tasks are cut finer than the event loop cuts them: a
    task that takes the free lock goes on to the loop test at once, and
    so does the holder at the end of a flow ([complete_flow]), so that a
    call from outside never finds the processor [AtLoop]. The runs below
    therefore include every run of the source and more; what is proved
    of all of them holds of the source. *)
Inductive Event :=
| Start
| Stop
| Submit (now device_id st si fn fv : Z) (entity_id : string)
| Acquire
| Loop (should_trigger_polling : bool)
| Finish (now : Z) (outcome : Outcome)
| ClearStats.

#[global] Instance Outcome_eq_dec : EqDecision Outcome.
Proof. solve_decision. Defined.

#[global] Instance Event_eq_dec : EqDecision Event.
Proof. solve_decision. Defined.

(** [None] when the event cannot happen in this state. *)
Definition apply_event (event : Event) (bus : Bus) : option Bus :=
  match event with
  | Start => Some (start bus)
  | Stop => Some (stop bus)
  | Submit now device_id st si fn fv entity_id =>
      Some (submit_action now device_id st si fn fv entity_id bus).2
  | Acquire => acquire bus
  | Loop should_trigger_polling =>
      match processor bus with
      | AtLoop => Some (process_next should_trigger_polling bus)
      | _ => None
      end
  | Finish now outcome =>
      match processor bus with
      | InFlow action => Some (finish_flow now outcome action bus)
      | _ => None
      end
  | ClearStats => Some (clear_stats bus)
  end.

Fixpoint run (events : list Event) (bus : Bus) : option Bus :=
  match events with
  | [] => Some bus
  | event :: rest => apply_event event bus ≫= run rest
  end.

(** The targets with a live action: queued or executing. *)
Definition live_targets (bus : Bus) : list string :=
  (entity_id <$> _action_queue bus) ++
  match _executing_action bus with
  | Some action => [entity_id action]
  | None => []
  end.

(** Facts that hold of every bus reached from [new]. *)
Definition consistent (bus : Bus) : Prop :=
  (_is_running bus = false → _occupied_devices bus = ∅ ∧ _action_queue bus = []) ∧
  Forall (λ action, action_id action = make_action_id (timestamp action))
         (_action_queue bus) ∧
  match processor bus with
  | InFlow action =>
      _executing_action bus = Some action ∧
      action_id action = make_action_id (timestamp action)
  | _ => True
  end.

(** Facts that hold as long as the bus has not been stopped. *)
Definition exclusive (bus : Bus) : Prop :=
  NoDup (live_targets bus) ∧
  (∀ target, target ∈ live_targets bus ↔ is_Some (_occupied_devices bus !! target)) ∧
  match processor bus with
  | InFlow action => _executing_action bus = Some action
  | _ => _executing_action bus = None
  end.

(** A bus in the middle of a flow: started, one action submitted for
    ["light.hall"] at 1000 ms, picked up by the processing task. *)
Definition scenario_events : list Event :=
  [Start; Submit 1000 7 10101 5 1 1 "light.hall"; Acquire; Loop true].

Definition scenario_bus : Bus := default new (run scenario_events new).

Definition scenario_action : DeviceAction :=
  set_status EXECUTING (pending_action 1000 7 10101 5 1 1 "light.hall").

(** [get_device_action_status]: [None], or one of ["executing"],
    ["pending"], ["unknown"]. The action is looked up by the id the
    occupancy map holds for the target. *)
Definition is_executing (bus : Bus) (id : string) : bool :=
  match _executing_action bus with
  | Some action => bool_decide (action_id action = id)
  | None => false
  end.

Definition get_device_action_status (bus : Bus) (target : string) : option string :=
  match _occupied_devices bus !! target with
  | None => None
  | Some id =>
      if is_executing bus id then Some "executing"
      else if existsb (λ action, bool_decide (action_id action = id)) (_action_queue bus)
           then Some "pending"
           else Some "unknown"
  end.

#[global] Instance ActionStatus_eq_dec : EqDecision ActionStatus.
Proof. solve_decision. Defined.

(** The actions of a list that ended with a given status. *)
Definition with_status (s : ActionStatus) (actions : list DeviceAction)
  : list DeviceAction :=
  filter (λ action, status action = s) actions.

(** 1 while an action is in its flow, 0 otherwise. *)
Definition in_flow (bus : Bus) : nat :=
  match processor bus with
  | InFlow _ => 1
  | _ => 0
  end.

(** The counters of [_stats] against the actions themselves. *)
Definition accounted (bus : Bus) : Prop :=
  total_actions (_stats bus) =
    successful_actions (_stats bus) + failed_actions (_stats bus) +
    cancelled_actions (_stats bus) + length (_action_queue bus) + in_flow bus ∧
  successful_actions (_stats bus) = length (with_status COMPLETED (finished bus)) ∧
  failed_actions (_stats bus) = length (with_status FAILED (finished bus)) ∧
  cancelled_actions (_stats bus) = length (with_status CANCELLED (finished bus)) ∧
  length (finished bus) =
    successful_actions (_stats bus) + failed_actions (_stats bus) +
    cancelled_actions (_stats bus) ∧
  length (_action_queue bus) ≤ queue_max_length (_stats bus) ∧
  queue_max_length (_stats bus) ≤ total_actions (_stats bus).

(** What holds of the counters whether or not they were cleared: they
    never count more than there is. *)
Definition not_overcounted (bus : Bus) : Prop :=
  total_actions (_stats bus) ≤
    successful_actions (_stats bus) + failed_actions (_stats bus) +
    cancelled_actions (_stats bus) + length (_action_queue bus) + in_flow bus ∧
  successful_actions (_stats bus) ≤ length (with_status COMPLETED (finished bus)) ∧
  failed_actions (_stats bus) ≤ length (with_status FAILED (finished bus)) ∧
  cancelled_actions (_stats bus) ≤ length (with_status CANCELLED (finished bus)).

(** A queue that is not empty has a [_process_queue] task: one that holds
    the lock, or one that waits for it. *)
Definition attended (bus : Bus) : Prop :=
  _action_queue bus ≠ [] → processor bus ≠ Idle ∨ 0 < waiting_tasks bus.

(** The map tells, for every queued or executing action, the id of that
    action. *)
Definition tracked (bus : Bus) : Prop :=
  (∀ action, action ∈ _action_queue bus →
     _occupied_devices bus !! entity_id action = Some (action_id action)) ∧
  (∀ action, _executing_action bus = Some action →
     _occupied_devices bus !! entity_id action = Some (action_id action)).

(** The lock holder going round its loop: for each step, what the router
    says in step 1 of the flow, the time the flow ends and how it ends. *)
Definition flow_events (steps : list (bool * Z * Outcome)) : list Event :=
  steps ≫= λ step, [Loop step.1.1; Finish step.1.2 step.2].

End throttled_action_bus.
(** ** mqtt_gateway.py: inbound messages *)

Module mqtt_gateway.

(** What [json.loads] returns. Objects are Python dicts: one value per
    key. Numbers are kept as integers; the handler never looks into them. *)
#[local] Unset Elimination Schemes.
Inductive Json :=
| JNull
| JBool (b : bool)
| JNumber (n : Z)
| JString (s : string)
| JArray (items : list Json)
| JObject (members : list (string * Json)).
#[local] Set Elimination Schemes.

(** The text of a message, after [json.loads]: a [JSONDecodeError], or a value. *)
Inductive Payload :=
| Malformed
| Parsed (data : Json).

(** The dict built by [_normalize_state_data]. *)
Record StateData := {
  st : Json;
  si : Json;
  fn : Json;
  fv : Json
}.

(** The counters of [self.stats] that message handling writes. *)
Record Stats := {
  messages_received : nat;
  messages_parsed : nat;
  parse_errors : nat;
  last_message_time : option Z
}.

(** The gateway, as far as inbound messages go. [state_callback] tells
    whether a callback is configured; [forwarded] is the trace of the
    batches handed to it, oldest first. *)
Record MqttGateway := {
  state_callback : bool;
  stats : Stats;
  forwarded : list (list StateData)
}.

Definition new (callback : bool) : MqttGateway := {|
  state_callback := callback;
  stats := {| messages_received := 0; messages_parsed := 0; parse_errors := 0;
              last_message_time := None |};
  forwarded := []
|}.

(** [d.get(key)]: Python's [None] for an absent key and for a JSON [null]. *)
Definition get (key : string) (d : list (string * Json)) : option Json :=
  match od_get key d with
  | Some JNull => None
  | found => found
  end.

Definition _normalize_state_data (payload_data : list (string * Json))
  : option StateData :=
  match get "st" payload_data, get "si" payload_data,
        get "fn" payload_data, get "fv" payload_data with
  | Some st, Some si, Some fn, Some fv =>
      Some {| st := st; si := si; fn := fn; fv := fv |}
  | _, _, _, _ => None
  end.

Definition count_parse_error (gw : MqttGateway) : MqttGateway :=
  {| state_callback := state_callback gw;
     stats := {| messages_received := messages_received (stats gw);
                 messages_parsed := messages_parsed (stats gw);
                 parse_errors := S (parse_errors (stats gw));
                 last_message_time := last_message_time (stats gw) |};
     forwarded := forwarded gw |}.

(** A normalised entry: counted as parsed and handed, alone in a list, to
    the callback if there is one. *)
Definition forward (state_data : StateData) (gw : MqttGateway) : MqttGateway :=
  {| state_callback := state_callback gw;
     stats := {| messages_received := messages_received (stats gw);
                 messages_parsed := S (messages_parsed (stats gw));
                 parse_errors := parse_errors (stats gw);
                 last_message_time := last_message_time (stats gw) |};
     forwarded := if state_callback gw then forwarded gw ++ [[state_data]]
                  else forwarded gw |}.

(** ["payload" in data]: [None] when Python raises [TypeError]. *)
Definition contains_payload (data : Json) : option bool :=
  match data with
  | JObject members => Some (bool_decide (is_Some (od_get "payload" members)))
  | JArray items =>
      Some (existsb (λ item, match item with
                             | JString s => bool_decide (s = "payload")
                             | _ => false
                             end) items)
  | JString s => Some (bool_decide (is_Some (String.index 0 "payload" s)))
  | JNull | JBool _ | JNumber _ => None
  end.

(** The body of the [try] in [_handle_message]. *)
Definition handle_parsed (data : Json) (gw : MqttGateway) : MqttGateway :=
  match contains_payload data with
  | None => count_parse_error gw
  | Some false => gw
  | Some true =>
      match data with
      | JObject members =>
          match od_get "payload" members with
          | Some (JObject payload_data) =>
              match _normalize_state_data payload_data with
              | Some state_data => forward state_data gw
              | None => gw
              end
          | _ => gw
          end
      | _ => count_parse_error gw   (* [data["payload"]] raises *)
      end
  end.

Definition _handle_message (now : Z) (payload : Payload) (gw : MqttGateway)
  : MqttGateway :=
  let gw1 := {| state_callback := state_callback gw;
                stats := {| messages_received := S (messages_received (stats gw));
                            messages_parsed := messages_parsed (stats gw);
                            parse_errors := parse_errors (stats gw);
                            last_message_time := Some now |};
                forwarded := forwarded gw |} in
  match payload with
  | Malformed => count_parse_error gw1
  | Parsed data => handle_parsed data gw1
  end.

(** A push message: a JSON object whose ["payload"] member is the object
    [payload_data]. *)
Definition push_of (payload_data : list (string * Json)) (payload : Payload) : Prop :=
  ∃ members, payload = Parsed (JObject members) ∧
             od_get "payload" members = Some (JObject payload_data).

(** The plainest such message, [{"payload": payload_data}]. *)
Definition push (payload_data : list (string * Json)) : Payload :=
  Parsed (JObject [("payload", JObject payload_data)]).

(** The required fields. *)
Definition required : list string := ["st"; "si"; "fn"; "fv"].

(** The messages that reach the handler, in order of arrival, each with
    the clock reading at its arrival. [_on_message] schedules one
    [_handle_message] per message; each runs without a break up to its
    call of the state callback, so the messages are handled in order. *)
Definition handle_messages (stream : list (Z * Payload)) (gw : MqttGateway)
  : MqttGateway :=
  foldl (λ gw message, _handle_message message.1 message.2 gw) gw stream.

(** *** [configure] *)

(** The connection parameters [configure] writes. *)
Record Connection := {
  host : string;
  port : Z;
  username : option string;
  password : option string;
  client_id : string
}.

(** [MQTT_CONFIG["default_port"]]. *)
Definition default_port : Z := 1883.

(** [c in s], for a one-character [c]. *)
Fixpoint occurs (c : Ascii.ascii) (s : string) : bool :=
  match s with
  | EmptyString => false
  | String c' rest => bool_decide (c' = c) || occurs c rest
  end.

(** [s.split(c)]. *)
Fixpoint split (c : Ascii.ascii) (s : string) : list string :=
  match s with
  | EmptyString => [EmptyString]
  | String c' rest =>
      if decide (c' = c) then EmptyString :: split c rest
      else match split c rest with
           | part :: parts => String c' part :: parts
           | [] => [String c' EmptyString]
           end
  end.

(** [s.startswith(c)]. *)
Definition startswith (c : Ascii.ascii) (s : string) : bool :=
  match s with
  | String c' _ => bool_decide (c' = c)
  | EmptyString => false
  end.

(** [port or MQTT_CONFIG["default_port"]]: [None] and 0 give the default. *)
Definition port_or_default (given : option Z) : Z :=
  match given with
  | Some p => if decide (p = 0%Z) then default_port else p
  | None => default_port
  end.

Section configure.
(** Python's [int] on a string: [None] when it raises [ValueError]. *)
Variable int : string → option Z.

(** [configure]; [now] is the clock in seconds, [device_sn] the field
    of the gateway the generated client id is made from. *)
Definition configure (now : Z) (device_sn : string) (host : string)
    (port : option Z) (username password client_id : option string)
  : Connection :=
  let generated := "hyqw_adapter_" +:+ device_sn +:+ "_" +:+ pretty now in
  let address :=
    if occurs ":"%char host && negb (startswith "["%char host) then
      match split ":"%char host with
      | [name; port_text] =>
          (name,
           match port with
           | None => default default_port (int port_text)
           | Some given => given
           end)
      | _ => (host, port_or_default port)
      end
    else (host, port_or_default port) in
  {| host := address.1;
     port := address.2;
     username := username;
     password := password;
     client_id := match client_id with
                  | Some given => if decide (given = "") then generated else given
                  | None => generated
                  end |}.
End configure.

End mqtt_gateway.
(** ** state_sync_router.py *)

Module state_sync_router.

Inductive Mode := polling | mqtt.

#[global] Instance Mode_eq_dec : EqDecision Mode.
Proof. solve_decision. Defined.

Record Stats := {
  mode_switches : nat;
  mqtt_state_updates : nat;
  polling_state_updates : nat;
  fallback_checks : nat;
  last_mode_switch : option Z;
  last_state_update : option Z;
  last_fallback_check : option Z
}.

(** [self.fallback_task]: [None], a task that runs, or a task that is done. *)
Inductive FallbackTask := NoTask | TaskRunning | TaskDone.

(** The router, with the two objects it drives. [update_callback] and
    [fallback_callback] tell whether the callback is set; [updates] is the
    trace of the change-sets handed to [update_callback], oldest first;
    [restarts_scheduled] counts the tasks created by [configure_fallback]
    to run [_restart_fallback_task] that have not run yet. *)
Record StateSyncRouter := {
  state_manager : state_manager.StateManager;
  polling_bus : polling_bus.PollingBus;
  update_callback : bool;
  current_mode : Mode;
  mqtt_active : bool;
  polling_active : bool;
  fallback_interval : Z;
  fallback_task : FallbackTask;
  fallback_callback : bool;
  optimistic_echo_enabled : bool;
  restarts_scheduled : nat;
  stats : Stats;
  updates : list (option state_manager.Changes)
}.

Definition zero_stats : Stats := {|
  mode_switches := 0; mqtt_state_updates := 0; polling_state_updates := 0;
  fallback_checks := 0; last_mode_switch := None; last_state_update := None;
  last_fallback_check := None
|}.

(** [__init__], with the defaults of [MQTT_CONFIG]: a fallback interval of
    600 s and optimistic echo off. *)
Definition new (sm : state_manager.StateManager) (bus : polling_bus.PollingBus)
    (callback : bool) : StateSyncRouter := {|
  state_manager := sm;
  polling_bus := bus;
  update_callback := callback;
  current_mode := polling;
  mqtt_active := false;
  polling_active := false;
  fallback_interval := 600000;
  fallback_task := NoTask;
  fallback_callback := false;
  optimistic_echo_enabled := false;
  restarts_scheduled := 0;
  stats := zero_stats;
  updates := []
|}.

Definition using_mqtt (r : StateSyncRouter) : bool :=
  bool_decide (current_mode r = mqtt) && mqtt_active r.

Definition using_polling (r : StateSyncRouter) : bool :=
  bool_decide (current_mode r = polling) && polling_active r.

Definition get_current_mode (r : StateSyncRouter) : Mode := current_mode r.

(** The flag that goes with the mode [get_current_mode] names. *)
Definition mode_active (r : StateSyncRouter) : bool :=
  match get_current_mode r with
  | polling => polling_active r
  | mqtt => mqtt_active r
  end.

(** The three message sources. *)
Inductive Source := FromMqtt | FromPolling | FromFallback.

Definition count_update (source : Source) (now : Z) (st : Stats) : Stats :=
  match source with
  | FromMqtt =>
      {| mode_switches := mode_switches st;
         mqtt_state_updates := S (mqtt_state_updates st);
         polling_state_updates := polling_state_updates st;
         fallback_checks := fallback_checks st;
         last_mode_switch := last_mode_switch st;
         last_state_update := Some now;
         last_fallback_check := last_fallback_check st |}
  | FromPolling =>
      {| mode_switches := mode_switches st;
         mqtt_state_updates := mqtt_state_updates st;
         polling_state_updates := S (polling_state_updates st);
         fallback_checks := fallback_checks st;
         last_mode_switch := last_mode_switch st;
         last_state_update := Some now;
         last_fallback_check := last_fallback_check st |}
  | FromFallback =>
      {| mode_switches := mode_switches st;
         mqtt_state_updates := mqtt_state_updates st;
         polling_state_updates := polling_state_updates st;
         fallback_checks := S (fallback_checks st);
         last_mode_switch := last_mode_switch st;
         last_state_update := last_state_update st;
         last_fallback_check := Some now |}
  end.

(** The common body of the three handlers, after their mode test: the
    batch goes through the state manager; on a change the counter of the
    source moves and the change-set goes to [update_callback]. *)
Definition accept_states (source : Source) (now : Z)
    (states : list state_manager.RawState) (r : StateSyncRouter) : StateSyncRouter :=
  let processed := state_manager.process_state_update now states (state_manager r) in
  {| state_manager := processed.2;
     polling_bus := polling_bus r;
     update_callback := update_callback r;
     current_mode := current_mode r;
     mqtt_active := mqtt_active r;
     polling_active := polling_active r;
     fallback_interval := fallback_interval r;
     fallback_task := fallback_task r;
     fallback_callback := fallback_callback r;
     optimistic_echo_enabled := optimistic_echo_enabled r;
     restarts_scheduled := restarts_scheduled r;
     stats := if processed.1.1 then count_update source now (stats r) else stats r;
     updates := if processed.1.1 && update_callback r
                then updates r ++ [processed.1.2] else updates r |}.

Definition handle_mqtt_states (now : Z) (states : list state_manager.RawState)
    (r : StateSyncRouter) : StateSyncRouter :=
  if negb (using_mqtt r) then r else accept_states FromMqtt now states r.

Definition handle_polling_states (now : Z) (states : list state_manager.RawState)
    (r : StateSyncRouter) : StateSyncRouter :=
  if negb (using_polling r) then r else accept_states FromPolling now states r.

Definition handle_fallback_states (now : Z) (states : list state_manager.RawState)
    (r : StateSyncRouter) : StateSyncRouter :=
  if negb (using_mqtt r) then r else accept_states FromFallback now states r.

Definition set_fallback_task (task : FallbackTask) (r : StateSyncRouter)
  : StateSyncRouter :=
  {| state_manager := state_manager r;
     polling_bus := polling_bus r;
     update_callback := update_callback r;
     current_mode := current_mode r;
     mqtt_active := mqtt_active r;
     polling_active := polling_active r;
     fallback_interval := fallback_interval r;
     fallback_task := task;
     fallback_callback := fallback_callback r;
     optimistic_echo_enabled := optimistic_echo_enabled r;
     restarts_scheduled := restarts_scheduled r;
     stats := stats r;
     updates := updates r |}.

Definition _start_fallback_task (r : StateSyncRouter) : StateSyncRouter :=
  if decide (fallback_interval r ≤ 0)%Z then r
  else match fallback_task r with
       | TaskRunning => r
       | _ => set_fallback_task TaskRunning r
       end.

Definition _stop_fallback_task (r : StateSyncRouter) : StateSyncRouter :=
  set_fallback_task NoTask r.

Definition _restart_fallback_task (r : StateSyncRouter) : StateSyncRouter :=
  _start_fallback_task (_stop_fallback_task r).

Definition set_fallback_callback (r : StateSyncRouter) : StateSyncRouter :=
  {| state_manager := state_manager r;
     polling_bus := polling_bus r;
     update_callback := update_callback r;
     current_mode := current_mode r;
     mqtt_active := mqtt_active r;
     polling_active := polling_active r;
     fallback_interval := fallback_interval r;
     fallback_task := fallback_task r;
     fallback_callback := true;
     optimistic_echo_enabled := optimistic_echo_enabled r;
     restarts_scheduled := restarts_scheduled r;
     stats := stats r;
     updates := updates r |}.

(** [configure_fallback]: the interval is written at once. The restart of
    the fallback task is not run by the call: it is scheduled with
    [asyncio.create_task] and gets its turn later, as
    [run_scheduled_restart]. *)
Definition configure_fallback (interval : Z) (r : StateSyncRouter) : StateSyncRouter :=
  {| state_manager := state_manager r;
     polling_bus := polling_bus r;
     update_callback := update_callback r;
     current_mode := current_mode r;
     mqtt_active := mqtt_active r;
     polling_active := polling_active r;
     fallback_interval := interval;
     fallback_task := fallback_task r;
     fallback_callback := fallback_callback r;
     optimistic_echo_enabled := optimistic_echo_enabled r;
     restarts_scheduled :=
       if decide (fallback_interval r ≠ interval) then
         match current_mode r, fallback_task r with
         | mqtt, (TaskRunning | TaskDone) => S (restarts_scheduled r)
         | _, _ => restarts_scheduled r
         end
       else restarts_scheduled r;
     stats := stats r;
     updates := updates r |}.

(** A task scheduled by [configure_fallback] gets its turn and runs
    [_restart_fallback_task], with the mode and the interval the router
    has by then. Without a scheduled task nothing happens. *)
Definition run_scheduled_restart (r : StateSyncRouter) : StateSyncRouter :=
  match restarts_scheduled r with
  | S n =>
      _restart_fallback_task
        {| state_manager := state_manager r;
           polling_bus := polling_bus r;
           update_callback := update_callback r;
           current_mode := current_mode r;
           mqtt_active := mqtt_active r;
           polling_active := polling_active r;
           fallback_interval := fallback_interval r;
           fallback_task := fallback_task r;
           fallback_callback := fallback_callback r;
           optimistic_echo_enabled := optimistic_echo_enabled r;
           restarts_scheduled := n;
           stats := stats r;
           updates := updates r |}
  | 0 => r
  end.

Definition set_optimistic_echo (enabled : bool) (r : StateSyncRouter) : StateSyncRouter :=
  {| state_manager := state_manager r;
     polling_bus := polling_bus r;
     update_callback := update_callback r;
     current_mode := current_mode r;
     mqtt_active := mqtt_active r;
     polling_active := polling_active r;
     fallback_interval := fallback_interval r;
     fallback_task := fallback_task r;
     fallback_callback := fallback_callback r;
     optimistic_echo_enabled := enabled;
     restarts_scheduled := restarts_scheduled r;
     stats := stats r;
     updates := updates r |}.

(** The polling bus is stopped when [polling_active] is set. *)
Definition stop_polling (r : StateSyncRouter) : StateSyncRouter :=
  {| state_manager := state_manager r;
     polling_bus := if polling_active r then polling_bus.stop (polling_bus r)
                    else polling_bus r;
     update_callback := update_callback r;
     current_mode := current_mode r;
     mqtt_active := mqtt_active r;
     polling_active := false;
     fallback_interval := fallback_interval r;
     fallback_task := fallback_task r;
     fallback_callback := fallback_callback r;
     optimistic_echo_enabled := optimistic_echo_enabled r;
     restarts_scheduled := restarts_scheduled r;
     stats := stats r;
     updates := updates r |}.

Definition count_mode_switch (now : Z) (r : StateSyncRouter) : StateSyncRouter :=
  {| state_manager := state_manager r;
     polling_bus := polling_bus r;
     update_callback := update_callback r;
     current_mode := current_mode r;
     mqtt_active := mqtt_active r;
     polling_active := polling_active r;
     fallback_interval := fallback_interval r;
     fallback_task := fallback_task r;
     fallback_callback := fallback_callback r;
     optimistic_echo_enabled := optimistic_echo_enabled r;
     restarts_scheduled := restarts_scheduled r;
     stats := {| mode_switches := S (mode_switches (stats r));
                 mqtt_state_updates := mqtt_state_updates (stats r);
                 polling_state_updates := polling_state_updates (stats r);
                 fallback_checks := fallback_checks (stats r);
                 last_mode_switch := Some now;
                 last_state_update := last_state_update (stats r);
                 last_fallback_check := last_fallback_check (stats r) |};
     updates := updates r |}.

(** [_perform_immediate_sync]; [fetched] is what the fallback callback
    does: [None] when it raises, otherwise the list it returns (the empty
    list standing for any falsy result). *)
Definition _perform_immediate_sync (now : Z)
    (fetched : option (list state_manager.RawState)) (r : StateSyncRouter)
  : StateSyncRouter :=
  if fallback_callback r then
    match fetched with
    | Some (state :: rest) => handle_fallback_states now (state :: rest) r
    | _ => r
    end
  else r.

Definition use_mqtt_mode (now : Z) (fetched : option (list state_manager.RawState))
    (r : StateSyncRouter) : StateSyncRouter :=
  if decide (current_mode r = mqtt) then r
  else
    let r1 := {| state_manager := state_manager r;
                 polling_bus := polling_bus r;
                 update_callback := update_callback r;
                 current_mode := mqtt;
                 mqtt_active := true;
                 polling_active := polling_active r;
                 fallback_interval := fallback_interval r;
                 fallback_task := fallback_task r;
                 fallback_callback := fallback_callback r;
                 optimistic_echo_enabled := optimistic_echo_enabled r;
                 restarts_scheduled := restarts_scheduled r;
                 stats := stats r;
                 updates := updates r |} in
    count_mode_switch now
      (_perform_immediate_sync now fetched (_start_fallback_task (stop_polling r1))).

Definition use_polling_mode (now : Z) (r : StateSyncRouter) : StateSyncRouter :=
  if decide (current_mode r = polling) then r
  else
    let r1 := _stop_fallback_task r in
    count_mode_switch now
      {| state_manager := state_manager r1;
         polling_bus := if polling_active r1 then polling_bus r1
                        else polling_bus.start now (polling_bus r1);
         update_callback := update_callback r1;
         current_mode := polling;
         mqtt_active := false;
         polling_active := true;
         fallback_interval := fallback_interval r1;
         fallback_task := fallback_task r1;
         fallback_callback := fallback_callback r1;
         optimistic_echo_enabled := optimistic_echo_enabled r1;
         restarts_scheduled := restarts_scheduled r1;
         stats := stats r1;
         updates := updates r1 |}.

Definition stop (r : StateSyncRouter) : StateSyncRouter :=
  let r1 := stop_polling (_stop_fallback_task r) in
  {| state_manager := state_manager r1;
     polling_bus := polling_bus r1;
     update_callback := update_callback r1;
     current_mode := current_mode r1;
     mqtt_active := false;
     polling_active := polling_active r1;
     fallback_interval := fallback_interval r1;
     fallback_task := fallback_task r1;
     fallback_callback := fallback_callback r1;
     optimistic_echo_enabled := optimistic_echo_enabled r1;
     restarts_scheduled := restarts_scheduled r1;
     stats := stats r1;
     updates := updates r1 |}.

Definition reset_stats (r : StateSyncRouter) : StateSyncRouter :=
  {| state_manager := state_manager r;
     polling_bus := polling_bus r;
     update_callback := update_callback r;
     current_mode := current_mode r;
     mqtt_active := mqtt_active r;
     polling_active := polling_active r;
     fallback_interval := fallback_interval r;
     fallback_task := fallback_task r;
     fallback_callback := fallback_callback r;
     optimistic_echo_enabled := optimistic_echo_enabled r;
     restarts_scheduled := restarts_scheduled r;
     stats := zero_stats;
     updates := updates r |}.

(** One round of [_fallback_loop], after its sleep; [fetched] as above. *)
Definition fallback_round (now : Z) (fetched : option (list state_manager.RawState))
    (r : StateSyncRouter) : StateSyncRouter :=
  match fallback_task r with
  | TaskRunning =>
      if using_mqtt r && fallback_callback r then
        let r1 := match fetched with
                  | Some (state :: rest) => handle_fallback_states now (state :: rest) r
                  | _ => r
                  end in
        match fetched with
        | Some _ =>
            {| state_manager := state_manager r1;
               polling_bus := polling_bus r1;
               update_callback := update_callback r1;
               current_mode := current_mode r1;
               mqtt_active := mqtt_active r1;
               polling_active := polling_active r1;
               fallback_interval := fallback_interval r1;
               fallback_task := fallback_task r1;
               fallback_callback := fallback_callback r1;
               optimistic_echo_enabled := optimistic_echo_enabled r1;
               restarts_scheduled := restarts_scheduled r1;
               stats := {| mode_switches := mode_switches (stats r1);
                           mqtt_state_updates := mqtt_state_updates (stats r1);
                           polling_state_updates := polling_state_updates (stats r1);
                           fallback_checks := fallback_checks (stats r1);
                           last_mode_switch := last_mode_switch (stats r1);
                           last_state_update := last_state_update (stats r1);
                           last_fallback_check := Some now |};
               updates := updates r1 |}
        | None => r1
        end
      else set_fallback_task TaskDone r
  | _ => r
  end.

(** The calls a router receives, the turns of the restarts it scheduled
    and the rounds of its fallback loop. *)
Inductive Call :=
| SetFallbackCallback
| ConfigureFallback (interval : Z)
| RunScheduledRestart
| SetOptimisticEcho (enabled : bool)
| UseMqttMode (now : Z) (fetched : option (list state_manager.RawState))
| UsePollingMode (now : Z)
| HandleMqttStates (now : Z) (states : list state_manager.RawState)
| HandlePollingStates (now : Z) (states : list state_manager.RawState)
| HandleFallbackStates (now : Z) (states : list state_manager.RawState)
| FallbackRound (now : Z) (fetched : option (list state_manager.RawState))
| StopRouter
| ResetStats.

Definition apply_call (r : StateSyncRouter) (call : Call) : StateSyncRouter :=
  match call with
  | SetFallbackCallback => set_fallback_callback r
  | ConfigureFallback interval => configure_fallback interval r
  | RunScheduledRestart => run_scheduled_restart r
  | SetOptimisticEcho enabled => set_optimistic_echo enabled r
  | UseMqttMode now fetched => use_mqtt_mode now fetched r
  | UsePollingMode now => use_polling_mode now r
  | HandleMqttStates now states => handle_mqtt_states now states r
  | HandlePollingStates now states => handle_polling_states now states r
  | HandleFallbackStates now states => handle_fallback_states now states r
  | FallbackRound now fetched => fallback_round now fetched r
  | StopRouter => stop r
  | ResetStats => reset_stats r
  end.

(** The two calls that choose a mode. *)
Definition chooses_mode (call : Call) : Prop :=
  match call with
  | UseMqttMode _ _ | UsePollingMode _ => True
  | _ => False
  end.

(** A call that chooses the mode the router already reports, or chooses
    none. *)
Definition keeps_mode (mode : Mode) (call : Call) : Prop :=
  match call with
  | UseMqttMode _ _ => mode = mqtt
  | UsePollingMode _ => mode = polling
  | _ => True
  end.

Definition is_reset (call : Call) : Prop :=
  match call with
  | ResetStats => True
  | _ => False
  end.

(** How the flags and the bus of a router go together. *)
Definition coherent (r : StateSyncRouter) : Prop :=
  (mqtt_active r = true → current_mode r = mqtt) ∧
  (polling_active r = true → current_mode r = polling) ∧
  polling_bus.is_running (polling_bus r) = polling_active r.

(** Every change-set handed to [update_callback] reports a change. *)
Definition reports_change (update : option state_manager.Changes) : Prop :=
  ∃ changes, update = Some changes ∧
             state_manager.has_changes changes = true ∧
             state_manager.changed_devices changes ≠ ∅.

(** The three counters of updates, added up. *)
Definition counted_updates (st : Stats) : nat :=
  mqtt_state_updates st + polling_state_updates st + fallback_checks st.

(** [r'] is [r] after calls that handed the change-sets [extra] to
    [update_callback]: each of them reports a change, and with a callback
    set the three counters of updates moved by their number. *)
Definition hands_over (r r' : StateSyncRouter)
    (extra : list (option state_manager.Changes)) : Prop :=
  update_callback r' = update_callback r ∧
  updates r' = updates r ++ extra ∧
  Forall reports_change extra ∧
  (update_callback r = true →
   counted_updates (stats r') = counted_updates (stats r) + length extra).

(** [r'] is [r] after a batch was processed at [now] without any effect
    but on the bookkeeping of the state manager: nothing was handed to
    [update_callback], no counter of the router moved, no listener was
    called, the caches and the change counters of the state manager are
    as they were; [total_updates] and [last_update_time] moved if the
    batch was not empty. *)
Definition processed_silently (now : Z) (states : list state_manager.RawState)
    (r r' : StateSyncRouter) : Prop :=
  updates r' = updates r ∧
  stats r' = stats r ∧
  state_manager.delivered (state_manager r') =
    state_manager.delivered (state_manager r) ∧
  state_manager._device_states_cache (state_manager r') =
    state_manager._device_states_cache (state_manager r) ∧
  state_manager._devices_cache (state_manager r') =
    state_manager._devices_cache (state_manager r) ∧
  state_manager._state_listeners (state_manager r') =
    state_manager._state_listeners (state_manager r) ∧
  state_manager.devices_changed (state_manager._stats (state_manager r')) =
    state_manager.devices_changed (state_manager._stats (state_manager r)) ∧
  state_manager.functions_changed (state_manager._stats (state_manager r')) =
    state_manager.functions_changed (state_manager._stats (state_manager r)) ∧
  state_manager.total_updates (state_manager._stats (state_manager r')) =
    match states with
    | [] => state_manager.total_updates (state_manager._stats (state_manager r))
    | _ :: _ =>
        S (state_manager.total_updates (state_manager._stats (state_manager r)))
    end ∧
  state_manager.last_update_time (state_manager._stats (state_manager r')) =
    match states with
    | [] => state_manager.last_update_time (state_manager._stats (state_manager r))
    | _ :: _ => Some now
    end.

End state_sync_router.
(** * Properties *)

(** ** Insertion-ordered dictionaries *)

Section odict_facts.
Context {K V : Type} {K_eq_dec : EqDecision K}.
Implicit Types (k : K) (v : V) (d : list (K * V)).

Lemma od_get_set_eq k v d : od_get k (od_set k v d) = Some v.
Proof.
  induction d as [|[k' v'] d IH]; simpl.
  - by rewrite decide_True.
  - destruct (decide (k = k')) as [->|Hne]; simpl.
    + by rewrite decide_True.
    + by rewrite decide_False.
Qed.

Lemma od_get_set_ne k k' v d : k ≠ k' → od_get k' (od_set k v d) = od_get k' d.
Proof.
  intros Hne. induction d as [|[k0 v0] d IH]; simpl.
  - by rewrite decide_False.
  - destruct (decide (k = k0)) as [->|Hk]; simpl.
    + by rewrite !decide_False.
    + by rewrite IH.
Qed.

Lemma elem_of_od_keys_set x k v d :
  x ∈ od_keys (od_set k v d) ↔ x = k ∨ x ∈ od_keys d.
Proof.
  unfold od_keys. induction d as [|[k' v'] d IH]; simpl.
  - rewrite list_elem_of_singleton, elem_of_nil. tauto.
  - destruct (decide (k = k')) as [->|Hne]; simpl.
    + rewrite !elem_of_cons. tauto.
    + rewrite !elem_of_cons, IH. tauto.
Qed.

Lemma od_set_NoDup k v d : NoDup (od_keys d) → NoDup (od_keys (od_set k v d)).
Proof.
  unfold od_keys. induction d as [|[k' v'] d IH]; simpl.
  - intros _. apply NoDup_singleton.
  - intros [Hk Hd]%NoDup_cons.
    destruct (decide (k = k')) as [->|Hne]; simpl.
    + by apply NoDup_cons.
    + apply NoDup_cons. split; [| by apply IH].
      intros [?|?]%elem_of_od_keys_set; [congruence | done].
Qed.

Lemma od_get_Some_elem k v d : od_get k d = Some v → (k, v) ∈ d.
Proof.
  induction d as [|[k' v'] d IH]; simpl; [done |].
  case_decide; [intros [= ->]; subst; left | intros ?; right; auto].
Qed.

Lemma od_get_elem k v d : NoDup (od_keys d) → (k, v) ∈ d → od_get k d = Some v.
Proof.
  unfold od_keys. induction d as [|[k' v'] d IH]; simpl.
  - intros _ ?%elem_of_nil. done.
  - intros [Hk Hd]%NoDup_cons [[= -> ->]|Hin]%elem_of_cons.
    + by rewrite decide_True.
    + rewrite decide_False; [by apply IH |].
      intros ->. apply Hk. apply list_elem_of_fmap. by exists (k', v).
Qed.

Lemma od_get_None k d : od_get k d = None ↔ k ∉ od_keys d.
Proof.
  unfold od_keys. induction d as [|[k' v'] d IH]; simpl.
  - split; [intros _; apply not_elem_of_nil | done].
  - case_decide as Hk; subst.
    + split; [done | intros []; left].
    + rewrite IH, not_elem_of_cons. tauto.
Qed.
End odict_facts.

(** ** state_manager.py *)

Module state_manager_facts.
Import state_manager.

Section od_more.
Context {K V : Type} {K_eq_dec : EqDecision K}.

Lemma od_set_not_nil (k : K) (v : V) d : od_set k v d ≠ [].
Proof. destruct d as [|[??] ?]; simpl; [done | by case_decide]. Qed.

Lemma Forall_od_set (P : K * V → Prop) k v d :
  P (k, v) → Forall P d → Forall P (od_set k v d).
Proof.
  intros Hkv. induction 1 as [|[k' v'] d Hx Hd IH]; simpl.
  - by constructor.
  - case_decide; constructor; auto.
Qed.

Lemma od_get_fmap {W} (f : V → W) k (d : list (K * V)) :
  od_get k (prod_map id f <$> d) = f <$> od_get k d.
Proof.
  induction d as [|[k' v'] d IH]; simpl; [done |].
  by case_decide.
Qed.

Lemma od_set_fmap {W} (f : V → W) k v (d : list (K * V)) :
  od_set k (f v) (prod_map id f <$> d) = prod_map id f <$> od_set k v d.
Proof.
  induction d as [|[k' v'] d IH]; [done |].
  rewrite fmap_cons. cbn [od_set prod_map id fst snd].
  case_decide; rewrite fmap_cons; [done |].
  by rewrite IH.
Qed.
End od_more.

(** *** [_organize_states_data] *)

Lemma organize_state_well_formed now organized state :
  well_formed organized → well_formed (organize_state now organized state).
Proof.
  intros [Hkeys Hrows]. unfold organize_state.
  destruct (raw_si state) as [si|]; [| done].
  destruct (raw_fn state) as [fn|]; [| done].
  split; [by apply od_set_NoDup |].
  apply Forall_od_set; [| done]. simpl. split; [| apply od_set_not_nil].
  apply od_set_NoDup. destruct (od_get si organized) as [functions|] eqn:Hget; simpl.
  - apply od_get_Some_elem in Hget.
    rewrite Forall_forall in Hrows. by destruct (Hrows _ Hget).
  - apply NoDup_nil_2.
Qed.

Lemma foldl_organize_well_formed now states_data organized :
  well_formed organized →
  well_formed (foldl (organize_state now) organized states_data).
Proof.
  revert organized.
  induction states_data as [|state rest IH]; intros organized Hwf; simpl; [done |].
  apply IH. by apply organize_state_well_formed.
Qed.

Lemma organize_well_formed now states_data :
  well_formed (_organize_states_data now states_data).
Proof.
  apply foldl_organize_well_formed. split; [apply NoDup_nil_2 | constructor].
Qed.

Lemma organize_state_restamp now now' organized state :
  organize_state now' (restamp now' organized) state =
  restamp now' (organize_state now organized state).
Proof.
  unfold organize_state, restamp.
  destruct (raw_si state) as [si|]; [| done].
  destruct (raw_fn state) as [fn|]; [| done].
  rewrite od_get_fmap.
  rewrite <- od_set_fmap. f_equal.
  change {| fv := raw_fv state; st := raw_st state; timestamp := now' |}
    with (restamp_state now' {| fv := raw_fv state; st := raw_st state; timestamp := now |}).
  unfold restamp_row at 2. rewrite <- od_set_fmap. f_equal.
  by destruct (od_get si organized).
Qed.

Lemma organize_restamp now now' states_data :
  _organize_states_data now' states_data =
  restamp now' (_organize_states_data now states_data).
Proof.
  unfold _organize_states_data.
  change (@nil (Z * list (Z * FnState))) with (restamp now' []) at 1.
  generalize (@nil (Z * list (Z * FnState))).
  induction states_data as [|state rest IH]; intros organized; simpl; [done |].
  by rewrite (organize_state_restamp now), IH.
Qed.

(** *** [_compare_states] *)

Lemma compare_function_unchanged cache si functions acc :
  (foldl (compare_function cache si) acc functions).1.1 = false ↔
  acc.1.1 = false ∧ Forall (fn_same cache si) functions.
Proof.
  revert acc. induction functions as [|item rest IH]; intros [[dc dfc] dnf].
  - simpl. split; [intros ->; split; [done | constructor] | by intros [-> _]].
  - cbn [foldl]. rewrite IH, Forall_cons. unfold compare_function, fn_same at 2.
    destruct (cached cache si item.1) as [old|]; simpl.
    + case_decide; simpl; [split; [by intros [? _] | by intros [_ [? _]]] | tauto].
    + split; [by intros [? _] | by intros [_ [[] _]]].
Qed.

Lemma dev_same_iff cache dev :
  dev_same cache dev ↔
  (foldl (compare_function cache dev.1)
         (bool_decide (cache !! dev.1 = None), ∅, []) dev.2).1.1 = false.
Proof.
  rewrite compare_function_unchanged. unfold dev_same. simpl.
  rewrite bool_decide_eq_false, <- not_eq_None_Some. tauto.
Qed.

Lemma compare_device_spec cache changes dev :
  (dev_same cache dev ∧
   has_changes (compare_device cache changes dev) = has_changes changes ∧
   changed_devices (compare_device cache changes dev) = changed_devices changes) ∨
  (¬ dev_same cache dev ∧
   has_changes (compare_device cache changes dev) = true ∧
   changed_devices (compare_device cache changes dev) =
     {[dev.1]} ∪ changed_devices changes).
Proof.
  rewrite (dev_same_iff cache dev). unfold compare_device.
  destruct (foldl _ _ _) as [[device_changed dfc] dnf]. simpl.
  destruct device_changed; simpl; [right | left]; done.
Qed.

Lemma compare_foldl_has_changes cache devs changes :
  has_changes (foldl (compare_device cache) changes devs) = false ↔
  has_changes changes = false ∧ Forall (dev_same cache) devs.
Proof.
  revert changes. induction devs as [|dev rest IH]; intros changes; cbn [foldl].
  - split; [intros ->; split; [done | constructor] | by intros [-> _]].
  - rewrite IH, Forall_cons.
    destruct (compare_device_spec cache changes dev) as [(? & -> & _)|(? & -> & _)];
      [tauto |].
    split; [by intros [? _] | tauto].
Qed.

Lemma compare_foldl_changed_devices cache devs changes si :
  si ∈ changed_devices (foldl (compare_device cache) changes devs) ↔
  si ∈ changed_devices changes ∨
  ∃ dev, dev ∈ devs ∧ dev.1 = si ∧ ¬ dev_same cache dev.
Proof.
  revert changes. induction devs as [|dev rest IH]; intros changes; cbn [foldl].
  - split; [by left | intros [? | (? & ?%elem_of_nil & _)]; done].
  - rewrite IH.
    destruct (compare_device_spec cache changes dev) as [(Hs & _ & ->)|(Hd & _ & ->)].
    + split; [intros [?|(d & ? & ? & ?)]; [by left | right; exists d; split; [by right | done]] |].
      intros [?|(d & [->|?]%elem_of_cons & ? & ?)]; [by left | done | right; by exists d].
    + rewrite elem_of_union, elem_of_singleton.
      split.
      * intros [[->|?]|(d & ? & ? & ?)];
          [right; exists dev; split; [left | done] | by left |
           right; exists d; split; [by right | done]].
      * intros [?|(d & [->|?]%elem_of_cons & ? & ?)];
          [left; by right | left; by left | right; by exists d].
Qed.

(** The flag and the set of changed devices move together. *)
Lemma compare_foldl_invariant cache devs changes :
  (has_changes changes = true ↔ changed_devices changes ≠ ∅) →
  (has_changes (foldl (compare_device cache) changes devs) = true ↔
   changed_devices (foldl (compare_device cache) changes devs) ≠ ∅).
Proof.
  revert changes. induction devs as [|dev rest IH]; intros changes Hinv; cbn [foldl];
    [done |].
  apply IH.
  destruct (compare_device_spec cache changes dev) as [(_ & -> & ->)|(_ & -> & ->)];
    [done |].
  split; [intros _ | done].
  apply (non_empty_inhabited_L dev.1), elem_of_union_l, elem_of_singleton. done.
Qed.

Lemma compare_states_invariant cache new_states :
  has_changes (_compare_states cache new_states) =
  bool_decide (changed_devices (_compare_states cache new_states) ≠ ∅).
Proof.
  assert (has_changes (_compare_states cache new_states) = true ↔
          changed_devices (_compare_states cache new_states) ≠ ∅) as Hinv.
  { apply compare_foldl_invariant. simpl. split; [done | intros []; done]. }
  destruct (has_changes _) eqn:Hc; symmetry.
  - apply bool_decide_eq_true, Hinv. done.
  - apply bool_decide_eq_false. intros Hne%Hinv. congruence.
Qed.

(** *** [_update_states_cache] *)

Lemma foldl_insert_lookup (row : gmap Z FnState) (functions : list (Z * FnState)) fn :
  NoDup (od_keys functions) →
  foldl (λ row item, <[item.1 := item.2]> row) row functions !! fn =
  match od_get fn functions with
  | Some s => Some s
  | None => row !! fn
  end.
Proof.
  unfold od_keys. revert row.
  induction functions as [|[k s] rest IH]; intros row Hnd; [done |].
  rewrite fmap_cons in Hnd. apply NoDup_cons in Hnd as [Hk Hrest].
  cbn [foldl od_get fst snd]. rewrite IH by done.
  destruct (decide (fn = k)) as [->|Hne].
  - assert (od_get k rest = None) as -> by (by apply od_get_None).
    apply lookup_insert_eq.
  - destruct (od_get fn rest); [done |]. by rewrite lookup_insert_ne.
Qed.

Lemma update_states_cache_lookup cache new_states changes si :
  _update_states_cache cache new_states changes !! si =
  if decide (si ∈ changed_devices changes) then
    match od_get si new_states with
    | Some functions =>
        Some (foldl (λ row item, <[item.1 := item.2]> row)
                    (default ∅ (cache !! si)) functions)
    | None => cache !! si
    end
  else cache !! si.
Proof.
  unfold _update_states_cache.
  generalize (changed_devices changes). intros devices.
  pose (P := λ (r : gmap Z (gmap Z FnState)) (X : gset Z),
          ∀ si, r !! si =
            if decide (si ∈ X) then
              match od_get si new_states with
              | Some functions =>
                  Some (foldl (λ row item, <[item.1 := item.2]> row)
                              (default ∅ (cache !! si)) functions)
              | None => cache !! si
              end
            else cache !! si).
  assert (P (set_fold (update_device_states new_states) cache devices) devices) as HP;
    [| exact (HP si)].
  apply (set_fold_ind_L P); unfold P; clear P si.
  - intros si. rewrite decide_False; [done | apply not_elem_of_empty].
  - intros x X r Hx IH si. unfold update_device_states.
    assert (r !! x = cache !! x) as Hrx.
    { rewrite IH. by rewrite decide_False. }
    destruct (decide (si = x)) as [->|Hne].
    + rewrite decide_True by (apply elem_of_union_l, elem_of_singleton; done).
      destruct (od_get x new_states); [| done].
      by rewrite lookup_insert_eq, Hrx.
    + assert (update_device_states new_states x r !! si = r !! si) as Hsi.
      { unfold update_device_states. destruct (od_get x new_states); [| done].
        by rewrite lookup_insert_ne. }
      unfold update_device_states in Hsi. rewrite Hsi, IH.
      destruct (decide (si ∈ X)) as [Hin|Hnin].
      * rewrite decide_True; [done | by apply elem_of_union_r].
      * rewrite decide_False; [done |].
        intros [?%elem_of_singleton|?]%elem_of_union; done.
Qed.

(** What a read of [(si, fn)] returns after the cache update: the incoming
    state when the device changed and the batch carries [fn] for it,
    the old entry otherwise. *)
Lemma update_states_cache_cached cache new_states changes si fn :
  well_formed new_states →
  cached (_update_states_cache cache new_states changes) si fn =
  if decide (si ∈ changed_devices changes) then
    match od_get si new_states ≫= od_get fn with
    | Some s => Some s
    | None => cached cache si fn
    end
  else cached cache si fn.
Proof.
  intros [Hkeys Hrows]. unfold cached. rewrite update_states_cache_lookup.
  case_decide; [| done].
  destruct (od_get si new_states) as [functions|] eqn:Hget; simpl; [| done].
  rewrite foldl_insert_lookup.
  - destruct (od_get fn functions); [done |]. by destruct (cache !! si).
  - apply od_get_Some_elem in Hget. rewrite Forall_forall in Hrows.
    by destruct (Hrows _ Hget).
Qed.

(** *** [process_state_update] *)

Lemma process_state_update_nonempty now batch sm :
  batch ≠ [] →
  (process_state_update now batch sm).1 =
    (has_changes (_compare_states (_device_states_cache sm)
                                  (_organize_states_data now batch)),
     Some (_compare_states (_device_states_cache sm)
                           (_organize_states_data now batch))) ∧
  _device_states_cache (process_state_update now batch sm).2 =
    if has_changes (_compare_states (_device_states_cache sm)
                                    (_organize_states_data now batch))
    then _update_states_cache (_device_states_cache sm)
           (_organize_states_data now batch)
           (_compare_states (_device_states_cache sm)
                            (_organize_states_data now batch))
    else _device_states_cache sm.
Proof.
  intros Hne. unfold process_state_update.
  destruct batch as [|e rest]; [done |].
  by destruct (has_changes _).
Qed.

Lemma dev_same_ext cache cache' dev :
  cache' !! dev.1 = cache !! dev.1 → dev_same cache dev → dev_same cache' dev.
Proof.
  intros Heq [Hsome Hall]. split; [by rewrite Heq |].
  eapply Forall_impl; [exact Hall |].
  intros item. unfold fn_same, cached. by rewrite Heq.
Qed.

Lemma dev_same_restamp now cache dev :
  dev_same cache dev → dev_same cache (prod_map id (restamp_row now) dev).
Proof.
  destruct dev as [si functions]. intros [Hsome Hall]. split; [done |].
  simpl in *. unfold restamp_row. apply Forall_fmap.
  eapply Forall_impl; [exact Hall |]. by intros [fn s].
Qed.

(** Once a batch has been processed, the cache agrees with all of it. *)
Lemma cache_agrees_after_update cache new_states :
  well_formed new_states →
  Forall (dev_same
            (if has_changes (_compare_states cache new_states)
             then _update_states_cache cache new_states
                    (_compare_states cache new_states)
             else cache))
         new_states.
Proof.
  intros Hwf. destruct (has_changes _) eqn:Hchanged.
  - pose proof Hwf as [Hkeys Hrows].
    apply Forall_forall. intros [si functions] Hin.
    rewrite Forall_forall in Hrows. destruct (Hrows _ Hin) as [Hfns _].
    pose proof (od_get_elem _ _ _ Hkeys Hin) as Hget.
    destruct (decide (si ∈ changed_devices (_compare_states cache new_states)))
      as [Hsi|Hsi].
    + split; simpl.
      * rewrite update_states_cache_lookup, decide_True, Hget by done. eauto.
      * apply Forall_forall. intros [fn s] Hfn. unfold fn_same. simpl.
        rewrite update_states_cache_cached, decide_True, Hget by done. simpl.
        by rewrite (od_get_elem _ _ _ Hfns Hfn).
    + apply (dev_same_ext cache).
      { simpl. by rewrite update_states_cache_lookup, decide_False. }
      destruct (decide (dev_same cache (si, functions))) as [|Hdiff]; [done |].
      exfalso. apply Hsi. apply compare_foldl_changed_devices.
      right. by exists (si, functions).
  - by apply compare_foldl_has_changes in Hchanged as [_ ?].
Qed.

Lemma incoming_elem now batch si functions fn s :
  (si, functions) ∈ _organize_states_data now batch → (fn, s) ∈ functions →
  incoming now batch si fn = Some s.
Proof.
  intros Hdev Hfn. destruct (organize_well_formed now batch) as [Hkeys Hrows].
  unfold incoming. rewrite (od_get_elem _ _ _ Hkeys Hdev). simpl.
  rewrite Forall_forall in Hrows. destruct (Hrows _ Hdev) as [Hfns _].
  by apply od_get_elem.
Qed.

Lemma incoming_organize_state now organized state si fn :
  is_Some (od_get si organized ≫= od_get fn) ∨
    (raw_si state = Some si ∧ raw_fn state = Some fn) →
  is_Some (od_get si (organize_state now organized state) ≫= od_get fn).
Proof.
  unfold organize_state.
  destruct (raw_si state) as [si'|]; [| by intros [?|[[=] _]]].
  destruct (raw_fn state) as [fn'|]; [| by intros [?|[_ [=]]]].
  intros Hcase. destruct (decide (si' = si)) as [->|Hsi].
  - rewrite od_get_set_eq. simpl. destruct (decide (fn' = fn)) as [->|Hfn].
    + rewrite od_get_set_eq. eauto.
    + rewrite od_get_set_ne by done.
      destruct Hcase as [Hold|[_ [=]]]; [| done].
      by destruct (od_get si organized).
  - rewrite od_get_set_ne by done. destruct Hcase as [?|[[=] _]]; done.
Qed.

Lemma incoming_present now batch e si fn :
  e ∈ batch → raw_si e = Some si → raw_fn e = Some fn →
  is_Some (incoming now batch si fn).
Proof.
  intros Hin Hsi Hfn. unfold incoming, _organize_states_data.
  assert (∀ organized,
    is_Some (od_get si organized ≫= od_get fn) ∨ e ∈ batch →
    is_Some (od_get si (foldl (organize_state now) organized batch) ≫= od_get fn))
    as Hgen; [| apply Hgen; by right].
  clear Hin. induction batch as [|e' rest IH]; intros organized Hcase; simpl.
  - destruct Hcase as [?|?%elem_of_nil]; done.
  - apply IH. destruct Hcase as [?|[->|?]%elem_of_cons]; [left | left | by right];
      apply incoming_organize_state; auto.
Qed.

(** The first of two calls reports a change exactly when the batch brings
    a pair that the cache lacks or holds with another [fv]. *)
Lemma process_state_update_flag now batch sm :
  (process_state_update now batch sm).1.1 = true ↔
  ∃ si fn s, incoming now batch si fn = Some s ∧
             fv <$> cached (_device_states_cache sm) si fn ≠ Some (fv s).
Proof.
  destruct (decide (batch = [])) as [->|Hne].
  { simpl. split; [done | by intros (si & fn & s & [=] & _)]. }
  destruct (process_state_update_nonempty now batch sm Hne) as [-> _]. simpl.
  pose proof (organize_well_formed now batch) as [Hkeys Hrows].
  rewrite Forall_forall in Hrows.
  split.
  - intros Hchanged.
    assert (¬ Forall (dev_same (_device_states_cache sm))
                     (_organize_states_data now batch)) as Hex.
    { intros Hall. assert (has_changes (_compare_states (_device_states_cache sm)
                             (_organize_states_data now batch)) = false) as Hf.
      { by apply compare_foldl_has_changes. }
      congruence. }
    apply not_Forall_Exists in Hex; [| apply _].
    apply Exists_exists in Hex as ([si functions] & Hdev & Hdiff).
    destruct (Hrows _ Hdev) as [Hfns Hnil]. simpl in *.
    destruct (decide (Forall (fn_same (_device_states_cache sm) si) functions))
      as [Hall|Hsome].
    + destruct functions as [|[fn s] rest]; [done |].
      exists si, fn, s. split; [eapply incoming_elem; [done | left] |].
      unfold cached.
      destruct (_device_states_cache sm !! si) eqn:Hcache; [| done].
      exfalso. apply Hdiff. split; [simpl; rewrite Hcache; eauto | done].
    + apply not_Forall_Exists in Hsome; [| apply _].
      apply Exists_exists in Hsome as ([fn s] & Hfn & Hne').
      exists si, fn, s. split; [by eapply incoming_elem |].
      unfold fn_same in Hne'. simpl in Hne'.
      destruct (cached _ si fn); simpl; [congruence | done].
  - intros (si & fn & s & Hinc & Hdiff).
    apply not_false_iff_true. intros [_ Hall]%compare_foldl_has_changes.
    unfold incoming in Hinc.
    destruct (od_get si _) as [functions|] eqn:Hdev; [| done]. simpl in Hinc.
    apply od_get_Some_elem in Hdev, Hinc.
    rewrite Forall_forall in Hall. destruct (Hall _ Hdev) as [_ Hfns].
    rewrite Forall_forall in Hfns. specialize (Hfns _ Hinc).
    unfold fn_same in Hfns. simpl in *.
    destruct (cached _ si fn); simpl in *; [congruence | done].
Qed.

(** The second of two identical calls never reports a change. *)
Lemma process_state_update_again now1 now2 batch sm :
  (process_state_update now2 batch (process_state_update now1 batch sm).2).1.1 = false.
Proof.
  destruct (decide (batch = [])) as [->|Hne]; [done |].
  destruct (process_state_update_nonempty now2 batch
              (process_state_update now1 batch sm).2 Hne) as [-> _].
  destruct (process_state_update_nonempty now1 batch sm Hne) as [_ ->]. simpl.
  apply compare_foldl_has_changes. split; [done |].
  rewrite (organize_restamp now1 now2). unfold restamp. apply Forall_fmap.
  eapply Forall_impl;
    [apply cache_agrees_after_update, organize_well_formed |].
  intros dev Hsame. by apply dev_same_restamp.
Qed.

(** *** The claims about the state cache *)

(** C2 (as amended). Of two consecutive calls with the same batch the
    second never reports a change; the first reports one exactly when the
    batch brings a pair [(si, fn)] that the cache lacks or holds with
    another [fv] -- hence for every batch with a usable entry against an
    empty cache. The scenario batch against the fresh manager gives
    [has_changes = true], [new_devices = {5}], [changed_functions = {}],
    and nothing on the second call. *)
Theorem process_state_update_twice now1 now2 batch sm :
  (process_state_update now2 batch (process_state_update now1 batch sm).2).1.1 = false ∧
  ((process_state_update now1 batch sm).1.1 = true ↔
     ∃ si fn s, incoming now1 batch si fn = Some s ∧
                fv <$> cached (_device_states_cache sm) si fn ≠ Some (fv s)) ∧
  (_device_states_cache sm = ∅ →
   (∃ e, e ∈ batch ∧ is_Some (raw_si e) ∧ is_Some (raw_fn e)) →
   (process_state_update now1 batch sm).1.1 = true) ∧
  ((process_state_update now1 [scenario_entry] init).1.1 = true ∧
   new_devices <$> (process_state_update now1 [scenario_entry] init).1.2 = Some {[5%Z]} ∧
   changed_functions <$> (process_state_update now1 [scenario_entry] init).1.2 = Some ∅ ∧
   (process_state_update now2 [scenario_entry]
      (process_state_update now1 [scenario_entry] init).2).1.1 = false).
Proof.
  split_and!.
  - apply process_state_update_again.
  - apply process_state_update_flag.
  - intros Hempty (e & Hin & [si Hsi] & [fn Hfn]).
    apply process_state_update_flag.
    destruct (incoming_present now1 batch e si fn Hin Hsi Hfn) as [s Hs].
    exists si, fn, s. split; [done |].
    unfold cached. by rewrite Hempty, lookup_empty.
  - reflexivity.
  - reflexivity.
  - reflexivity.
  - apply process_state_update_again.
Qed.

Lemma process_state_update_twice_witness :
  (process_state_update 2 [scenario_entry]
     (process_state_update 1 [scenario_entry] init).2).1.1 = false ∧
  (process_state_update 1 [scenario_entry] init).1.1 = true.
Proof.
  destruct (process_state_update_twice 1 2 [scenario_entry] init)
    as (Hsecond & _ & Hfirst & _).
  split; [exact Hsecond |].
  apply Hfirst; [reflexivity |].
  exists scenario_entry. split_and!; [left | by eexists | by eexists].
Defined.

(** C2, as stated, fails: right after the scenario batch has been fed
    once, feeding it twice in a row gives no change on the first of the
    two calls either. *)
Lemma process_state_update_twice_counterexample :
  [scenario_entry] ≠ [] ∧
  (process_state_update 2 [scenario_entry]
     (process_state_update 1 [scenario_entry] init).2).1.1 = false ∧
  (process_state_update 3 [scenario_entry]
     (process_state_update 2 [scenario_entry]
        (process_state_update 1 [scenario_entry] init).2).2).1.1 = false.
Proof. split_and!; [done | reflexivity | reflexivity]. Qed.

(** C9 (as amended). For a non-empty batch the returned change-set has
    [has_changes] equal to "[changed_devices] is non-empty" and the
    returned boolean equals that flag; for an empty batch the call returns
    [False] with the empty dict, which carries no flag at all. *)
Theorem process_state_update_result now batch sm :
  match (process_state_update now batch sm).1 with
  | (flag, Some changes) =>
      batch ≠ [] ∧
      has_changes changes = bool_decide (changed_devices changes ≠ ∅) ∧
      flag = has_changes changes
  | (flag, None) => batch = [] ∧ flag = false
  end.
Proof.
  destruct (decide (batch = [])) as [->|Hne]; [done |].
  destruct (process_state_update_nonempty now batch sm Hne) as [-> _].
  split_and!; [done | apply compare_states_invariant | done].
Qed.

(** C9, as stated, fails on the empty batch: the change-set returned
    there is the empty dict, so there is no [has_changes] flag for the
    boolean to equal. *)
Lemma process_state_update_result_counterexample :
  (process_state_update 0 [] init).1.1 = false ∧
  has_changes <$> (process_state_update 0 [] init).1.2 = None ∧
  changed_devices <$> (process_state_update 0 [] init).1.2 = None.
Proof. done. Qed.

(** *** [force_update_device] *)

Lemma force_update_device_cache now si fn new_fv sm :
  _device_states_cache (force_update_device now si fn new_fv sm) =
  <[si := <[fn := {| fv := new_fv; st := Some 10101%Z; timestamp := now |}]>
            (default ∅ (_device_states_cache sm !! si))]> (_device_states_cache sm).
Proof. unfold force_update_device. by destruct (find_device _ _). Qed.

Lemma force_update_device_delivered now si fn new_fv sm :
  delivered (force_update_device now si fn new_fv sm) =
  match find_device (_devices_cache sm) si with
  | Some device =>
      delivered sm ++
      ((λ listener,
         (listener,
          {| n_changes :=
               forced_changes si fn (cached (_device_states_cache sm) si fn ≫= fv) new_fv;
             n_updated_devices := [device];
             n_timestamp := now |})) <$> _state_listeners sm)
  | None => delivered sm
  end.
Proof.
  unfold force_update_device. destruct (find_device _ _); [| done].
  simpl. unfold forced_changes, cached. by destruct (_device_states_cache sm !! si).
Qed.

(** C5 (as amended). [force_update_device] always overwrites the entry of
    [(si, fn)] with the given [fv], the default [st] 10101 and the clock
    reading, and leaves every other entry alone. When [_devices_cache]
    holds a device with that [si], every registered listener is told, with
    [has_changes = true] and [changed_functions = {si: {fn: (old_fv, fv)}}],
    whether or not the cached [fv] already equalled [fv]; when it holds no
    such device, no listener is called. *)
Theorem force_update_device_spec now si fn new_fv sm :
  cached (_device_states_cache (force_update_device now si fn new_fv sm)) si fn =
    Some {| fv := new_fv; st := Some 10101%Z; timestamp := now |} ∧
  (∀ si' fn', (si', fn') ≠ (si, fn) →
     cached (_device_states_cache (force_update_device now si fn new_fv sm)) si' fn' =
     cached (_device_states_cache sm) si' fn') ∧
  match find_device (_devices_cache sm) si with
  | Some device =>
      delivered (force_update_device now si fn new_fv sm) =
      delivered sm ++
      ((λ listener,
         (listener,
          {| n_changes :=
               {| has_changes := true;
                  changed_devices := {[si]};
                  changed_functions :=
                    {[si := {[fn := (cached (_device_states_cache sm) si fn ≫= fv,
                                     new_fv)]}]};
                  new_devices := ∅;
                  new_functions := ∅ |};
             n_updated_devices := [device];
             n_timestamp := now |})) <$> _state_listeners sm)
  | None =>
      delivered (force_update_device now si fn new_fv sm) = delivered sm
  end.
Proof.
  split_and!.
  - rewrite force_update_device_cache. unfold cached.
    rewrite lookup_insert_eq. simpl. apply lookup_insert_eq.
  - intros si' fn' Hne. rewrite force_update_device_cache. unfold cached.
    destruct (decide (si' = si)) as [->|Hsi].
    + rewrite lookup_insert_eq. simpl.
      rewrite lookup_insert_ne by congruence.
      by destruct (_device_states_cache sm !! si).
    + by rewrite lookup_insert_ne.
  - rewrite force_update_device_delivered. by destruct (find_device _ _).
Qed.

Lemma force_update_device_spec_witness :
  cached (_device_states_cache
            (force_update_device 9 5 1 (Some 0%Z)
               (process_state_update 1 [scenario_entry] init).2)) 5 2 =
  None.
Proof.
  destruct (force_update_device_spec 9 5 1 (Some 0%Z)
              (process_state_update 1 [scenario_entry] init).2) as (_ & Hframe & _).
  rewrite (Hframe 5%Z 2%Z); [reflexivity | discriminate].
Defined.

(** C5, as stated, fails: with a listener registered but no device record
    for [si = 5], the forced update is written to the cache and no
    listener hears of it. *)
Lemma force_update_device_counterexample :
  _state_listeners (add_state_listener 0 init) = [0] ∧
  cached (_device_states_cache
            (force_update_device 9 5 1 (Some 0%Z) (add_state_listener 0 init))) 5 1 =
    Some {| fv := Some 0%Z; st := Some 10101%Z; timestamp := 9 |} ∧
  delivered (force_update_device 9 5 1 (Some 0%Z) (add_state_listener 0 init)) = [].
Proof. split_and!; reflexivity. Qed.

(** The scenario of the spec: after the scenario batch, with the device
    registered and one listener, [force_update_device 5 1 0] stores
    [fv = 0] and reports [(1, 0)]; a second identical call reports [(0, 0)]. *)
Lemma force_update_device_scenario :
  ∃ sm, sm = add_state_listener 0
               (update_devices_info [(Some 3%Z, Some 5%Z)]
                  (process_state_update 1 [scenario_entry] init).2) ∧
  (cached (_device_states_cache (force_update_device 9 5 1 (Some 0%Z) sm)) 5 1
     ≫= fv) = Some 0%Z ∧
  (λ d, n_changes d.2) <$> delivered (force_update_device 9 5 1 (Some 0%Z) sm) =
    [forced_changes 5 1 (Some 1%Z) (Some 0%Z)] ∧
  (λ d, n_changes d.2) <$>
    delivered (force_update_device 10 5 1 (Some 0%Z)
                 (force_update_device 9 5 1 (Some 0%Z) sm)) =
    [forced_changes 5 1 (Some 1%Z) (Some 0%Z);
     forced_changes 5 1 (Some 0%Z) (Some 0%Z)].
Proof. eexists. split; [reflexivity |]. split_and!; reflexivity. Qed.

(** *** [_update_states_cache] as seen through [process_state_update] *)

Lemma process_state_update_untouched now batch sm si fn :
  incoming now batch si fn = None →
  cached (_device_states_cache (process_state_update now batch sm).2) si fn =
  cached (_device_states_cache sm) si fn.
Proof.
  intros Hnone. destruct (decide (batch = [])) as [->|Hne]; [done |].
  destruct (process_state_update_nonempty now batch sm Hne) as [_ ->].
  destruct (has_changes _); [| done].
  rewrite update_states_cache_cached by apply organize_well_formed.
  case_decide; [| done]. unfold incoming in Hnone. by rewrite Hnone.
Qed.

(** Entries the batch does not mention are never touched. *)
Lemma process_state_update_frame now batch sm si fn :
  incoming now batch si fn = None →
  cached (_device_states_cache (process_state_update now batch sm).2) si fn =
  cached (_device_states_cache sm) si fn.
Proof. apply process_state_update_untouched. Qed.

(** Every pair the batch brings for a changed device is written, with the
    incoming state. *)
Lemma process_state_update_overwrites now batch sm si fn s changes :
  (process_state_update now batch sm).1 = (true, Some changes) →
  si ∈ changed_devices changes →
  incoming now batch si fn = Some s →
  cached (_device_states_cache (process_state_update now batch sm).2) si fn = Some s.
Proof.
  intros Hres Hsi Hinc. destruct (decide (batch = [])) as [->|Hne]; [done |].
  destruct (process_state_update_nonempty now batch sm Hne) as [Hfst ->].
  rewrite Hfst in Hres. injection Hres as -> <-.
  rewrite update_states_cache_cached by apply organize_well_formed.
  rewrite decide_True by done. unfold incoming in Hinc. by rewrite Hinc.
Qed.

Lemma process_state_update_frame_witness :
  cached (_device_states_cache
            (process_state_update 4
               [{| raw_st := Some 10101%Z; raw_si := Some 5%Z; raw_fn := Some 2%Z;
                   raw_fv := Some 7%Z |}]
               (process_state_update 1 [scenario_entry] init).2).2) 5 1 =
  cached (_device_states_cache (process_state_update 1 [scenario_entry] init).2) 5 1.
Proof. apply process_state_update_frame. reflexivity. Defined.

Lemma process_state_update_overwrites_witness :
  cached (_device_states_cache
            (process_state_update 4
               [{| raw_st := Some 10101%Z; raw_si := Some 5%Z; raw_fn := Some 2%Z;
                   raw_fv := Some 7%Z |}]
               (process_state_update 1 [scenario_entry] init).2).2) 5 2 =
  Some {| fv := Some 7%Z; st := Some 10101%Z; timestamp := 4 |}.
Proof.
  eapply process_state_update_overwrites; [reflexivity | | reflexivity].
  simpl. set_solver.
Defined.

(** The example of the spec: with [fn = 1] cached for device 5, a batch
    that brings only [fn = 2] leaves the entry of [fn = 1] readable and as
    it was. *)
Lemma merge_not_replace now1 now2 fv2 :
  get_device_state
    (process_state_update now2
       [{| raw_st := Some 10101%Z; raw_si := Some 5%Z; raw_fn := Some 2%Z;
           raw_fv := fv2 |}]
       (process_state_update now1 [scenario_entry] init).2).2 5 1 =
  Some (Some {| fv := Some 1%Z; st := Some 10101%Z; timestamp := now1 |}).
Proof.
  unfold get_device_state.
  pose proof (process_state_update_untouched now2
    [{| raw_st := Some 10101%Z; raw_si := Some 5%Z; raw_fn := Some 2%Z;
        raw_fv := fv2 |}]
    (process_state_update now1 [scenario_entry] init).2 5 1 eq_refl) as Hframe.
  unfold cached in Hframe.
  destruct (_device_states_cache _ !! 5%Z) as [row|] eqn:Hrow.
  - simpl in Hframe. by rewrite Hframe.
  - exfalso. revert Hrow.
    destruct (process_state_update_nonempty now2
      [{| raw_st := Some 10101%Z; raw_si := Some 5%Z; raw_fn := Some 2%Z;
          raw_fv := fv2 |}]
      (process_state_update now1 [scenario_entry] init).2) as [_ ->]; [done |].
    destruct (has_changes _); [| done].
    rewrite update_states_cache_lookup. by case_decide.
Qed.

(** C7 fails on the code at this input. Device 5 is cached with
    [fn = 1 -> 1] and [fn = 2 -> 3] at time 0; the batch at time 10 repeats
    [fn = 1 -> 1] and changes [fn = 2] to 4. Only [(5, 2)] is reported as
    changed and nothing as new, yet the entry of [(5, 1)] is rewritten
    too: its timestamp moves from 0 to 10. *)
Lemma update_states_cache_rewrites_unchanged :
  ∃ sm batch,
    sm = (process_state_update 0
            [scenario_entry;
             {| raw_st := Some 10101%Z; raw_si := Some 5%Z; raw_fn := Some 2%Z;
                raw_fv := Some 3%Z |}] init).2 ∧
    batch = [scenario_entry;
             {| raw_st := Some 10101%Z; raw_si := Some 5%Z; raw_fn := Some 2%Z;
                raw_fv := Some 4%Z |}] ∧
    changed_functions <$> (process_state_update 10 batch sm).1.2 =
      Some {[5%Z := {[2%Z := (Some 3%Z, Some 4%Z)]}]} ∧
    new_functions <$> (process_state_update 10 batch sm).1.2 = Some ∅ ∧
    cached (_device_states_cache sm) 5 1 =
      Some {| fv := Some 1%Z; st := Some 10101%Z; timestamp := 0 |} ∧
    cached (_device_states_cache (process_state_update 10 batch sm).2) 5 1 =
      Some {| fv := Some 1%Z; st := Some 10101%Z; timestamp := 10 |}.
Proof. do 2 eexists. split_and!; reflexivity. Qed.

End state_manager_facts.
(** ** polling_bus.py *)

Module polling_bus_facts.
Import polling_bus.

Local Open Scope Z_scope.

Lemma calculate_keeps_end now bus :
  short_polling_end_time (_calculate_next_poll_time now bus) = short_polling_end_time bus.
Proof.
  unfold _calculate_next_poll_time.
  destruct (current_mode bus); [done |]. by case_decide.
Qed.

Lemma calculate_keeps_config now bus :
  config (_calculate_next_poll_time now bus) = config bus.
Proof.
  unfold _calculate_next_poll_time.
  destruct (current_mode bus); [done |]. by case_decide.
Qed.

Lemma calculate_short_before_end now bus :
  current_mode bus = short → now < short_polling_end_time bus →
  current_mode (_calculate_next_poll_time now bus) = short ∧
  next_poll_time (_calculate_next_poll_time now bus) =
    now + short_polling_interval (config bus).
Proof.
  intros Hmode Hlt. unfold _calculate_next_poll_time. rewrite Hmode.
  case_decide; [lia | done].
Qed.

Lemma calculate_after_end now bus :
  short_polling_end_time bus ≤ now →
  current_mode (_calculate_next_poll_time now bus) = long ∧
  next_poll_time (_calculate_next_poll_time now bus) =
    now + long_polling_interval (config bus).
Proof.
  intros Hle. unfold _calculate_next_poll_time.
  destruct (current_mode bus) eqn:Hmode; [done |].
  case_decide; [done | lia].
Qed.

Lemma loop_head_keeps_schedule now bus :
  current_mode (loop_head now bus) = current_mode bus ∧
  next_poll_time (loop_head now bus) = next_poll_time bus ∧
  short_polling_end_time (loop_head now bus) = short_polling_end_time bus.
Proof.
  unfold loop_head, after_sleep.
  destruct (is_running bus); [| done].
  case_decide; [done |]. done.
Qed.

Lemma ticks_stay_short times bus :
  current_mode bus = short →
  Forall (λ t, t < short_polling_end_time bus) times →
  current_mode (ticks times bus) = short ∧
  short_polling_end_time (ticks times bus) = short_polling_end_time bus ∧
  config (ticks times bus) = config bus.
Proof.
  unfold ticks. revert bus.
  induction times as [|t rest IH]; intros bus Hmode Hall; [done |].
  apply Forall_cons in Hall as [Ht Hrest]. cbn [foldl].
  destruct (calculate_short_before_end t bus Hmode Ht) as [Hmode' _].
  destruct (IH (_calculate_next_poll_time t bus)) as (-> & -> & ->);
    [done | by rewrite calculate_keeps_end |].
  by rewrite calculate_keeps_end, calculate_keeps_config.
Qed.

(** C8. When the query of a tick returns, the loop itself recomputes the
    schedule with [_calculate_next_poll_time]: in short mode, before the
    end of the burst, the mode stays short and the next poll is due at
    [now + S]; from the end of the burst on, the mode is long and the next
    poll is due at [now + L]. So after a trigger at [t0], any run of ticks
    before [t0 + duration] keeps the mode short and the first tick at or
    after [t0 + duration] brings it back to long. *)
Theorem calculate_next_poll_time_spec now bus :
  (polling_task bus = Querying →
   ∃ bus', resume now bus = Some bus' ∧
           current_mode bus' = current_mode (_calculate_next_poll_time now bus) ∧
           next_poll_time bus' = next_poll_time (_calculate_next_poll_time now bus)) ∧
  (current_mode bus = short → now < short_polling_end_time bus →
   current_mode (_calculate_next_poll_time now bus) = short ∧
   next_poll_time (_calculate_next_poll_time now bus) =
     now + short_polling_interval (config bus)) ∧
  (short_polling_end_time bus ≤ now →
   current_mode (_calculate_next_poll_time now bus) = long ∧
   next_poll_time (_calculate_next_poll_time now bus) =
     now + long_polling_interval (config bus)) ∧
  (∀ t0 times,
     Forall (λ t, t < t0 + short_polling_duration (config bus)) times →
     t0 + short_polling_duration (config bus) ≤ now →
     current_mode (ticks times (trigger_short_polling t0 bus)) = short ∧
     current_mode (_calculate_next_poll_time now
                     (ticks times (trigger_short_polling t0 bus))) = long ∧
     next_poll_time (_calculate_next_poll_time now
                       (ticks times (trigger_short_polling t0 bus))) =
       now + long_polling_interval (config bus)).
Proof.
  split_and!.
  - intros Htask. unfold resume. rewrite Htask. eexists. split; [done |].
    by destruct (loop_head_keeps_schedule now (_calculate_next_poll_time now bus))
      as (-> & -> & _).
  - apply calculate_short_before_end.
  - apply calculate_after_end.
  - intros t0 times Hall Hnow.
    destruct (ticks_stay_short times (trigger_short_polling t0 bus))
      as (Hmode & Hend & Hcfg); [done | done |].
    split; [done |].
    destruct (calculate_after_end now (ticks times (trigger_short_polling t0 bus)))
      as [-> ->]; [by rewrite Hend |].
    by rewrite Hcfg.
Qed.

Lemma calculate_next_poll_time_spec_witness :
  current_mode (_calculate_next_poll_time 5000
                  (ticks [1000; 2000; 3000; 4000]
                     (trigger_short_polling 0 (new scenario_config)))) = long ∧
  next_poll_time (_calculate_next_poll_time 5000
                    (ticks [1000; 2000; 3000; 4000]
                       (trigger_short_polling 0 (new scenario_config)))) = 20000 ∧
  current_mode (_calculate_next_poll_time 1000
                  (trigger_short_polling 0 (new scenario_config))) = short.
Proof.
  destruct (calculate_next_poll_time_spec 5000 (new scenario_config))
    as (_ & _ & _ & Hdecay).
  destruct (Hdecay 0 [1000; 2000; 3000; 4000]) as (_ & Hmode & Hnext).
  - repeat constructor.
  - simpl. lia.
  - split; [exact Hmode |]. split; [exact Hnext |].
    destruct (calculate_next_poll_time_spec 1000
                (trigger_short_polling 0 (new scenario_config)))
      as (_ & Hshort & _).
    apply Hshort; [reflexivity | simpl; lia].
Defined.

(** *** [trigger_short_polling] against a sleeping loop *)

Lemma trigger_short_polling_fields now bus :
  current_mode (trigger_short_polling now bus) = short ∧
  short_polling_end_time (trigger_short_polling now bus) =
    now + short_polling_duration (config bus) ∧
  next_poll_time (trigger_short_polling now bus) =
    now + short_polling_interval (config bus) ∧
  polling_task (trigger_short_polling now bus) = polling_task bus.
Proof. done. Qed.

(** A loop that went to sleep until [wake_at] is not run before [wake_at],
    whatever [trigger_short_polling] wrote in between: its first poll
    after the trigger is the one of the old wake-up time. *)
Lemma trigger_does_not_wake wake_at t bus :
  polling_task bus = Sleeping wake_at → is_running bus = true →
  (∀ now, now < wake_at → resume now (trigger_short_polling t bus) = None) ∧
  (∀ now, wake_at ≤ now →
     polls <$> resume now (trigger_short_polling t bus) =
     Some (polls bus ++ [(now, short)])).
Proof.
  intros Htask Hrun. split; intros now Hnow; unfold resume; simpl; rewrite Htask.
  - case_decide; [lia | done].
  - case_decide; [| lia]. unfold after_sleep. simpl. by rewrite Hrun.
Qed.

Lemma trigger_does_not_wake_witness :
  resume 3000 (trigger_short_polling 2000
                 (set_task (Sleeping 15000) (start 0 (new scenario_config)))) = None.
Proof.
  destruct (trigger_does_not_wake 15000 2000
              (set_task (Sleeping 15000) (start 0 (new scenario_config)))
              eq_refl eq_refl) as [Hearly _].
  apply Hearly. lia.
Defined.

(** C1 fails on the code at this input. With [L] = 15 s, [S] = 1 s and a
    burst of 5 s: the bus is started at 0 and its loop goes to sleep until
    15 s; [trigger_short_polling] at 2 s sets the mode to short, the end
    of the burst to 7 s and [next_poll_time] to 3 s, but the sleeping loop
    is left alone: it cannot run at 3 s, nor at any time before 15 s, and
    its next poll happens at 15 s. *)
Lemma trigger_leaves_loop_asleep :
  ∃ bus,
    resume 0 (start 0 (new scenario_config)) = Some bus ∧
    polling_task bus = Sleeping 15000 ∧
    current_mode bus = long ∧
    current_mode (trigger_short_polling 2000 bus) = short ∧
    short_polling_end_time (trigger_short_polling 2000 bus) = 7000 ∧
    next_poll_time (trigger_short_polling 2000 bus) = 3000 ∧
    resume 3000 (trigger_short_polling 2000 bus) = None ∧
    resume 14999 (trigger_short_polling 2000 bus) = None ∧
    polls <$> resume 15000 (trigger_short_polling 2000 bus) = Some [(15000, short)].
Proof. eexists. split_and!; reflexivity. Qed.

End polling_bus_facts.

(** ** throttled_action_bus.py *)

Module throttled_action_bus_facts.
Import throttled_action_bus.

Lemma submit_action_cases now device_id st si fn fv entity_id bus :
  (_is_running bus = false ∧
   submit_action now device_id st si fn fv entity_id bus = (inl BusNotRunning, bus)) ∨
  (_is_running bus = true ∧
   ∃ existing, _occupied_devices bus !! entity_id = Some existing ∧
     submit_action now device_id st si fn fv entity_id bus =
       (inl (DeviceOccupied existing), bus)) ∨
  (_is_running bus = true ∧ _occupied_devices bus !! entity_id = None ∧
   (submit_action now device_id st si fn fv entity_id bus).1 =
     inr (make_action_id now) ∧
   _action_queue (submit_action now device_id st si fn fv entity_id bus).2 =
     _action_queue bus ++ [pending_action now device_id st si fn fv entity_id] ∧
   _occupied_devices (submit_action now device_id st si fn fv entity_id bus).2 =
     <[entity_id := make_action_id now]> (_occupied_devices bus) ∧
   _executing_action (submit_action now device_id st si fn fv entity_id bus).2 =
     _executing_action bus ∧
   processor (submit_action now device_id st si fn fv entity_id bus).2 = processor bus ∧
   _is_running (submit_action now device_id st si fn fv entity_id bus).2 = true).
Proof.
  unfold submit_action. destruct (_is_running bus) eqn:Hrun; simpl; [| by left].
  right. destruct (_occupied_devices bus !! entity_id) as [existing|] eqn:Hocc.
  - left. eauto.
  - right. by split_and!.
Qed.

(** *** Invariants of every reachable bus *)

Lemma new_consistent : consistent new.
Proof. by split_and!. Qed.

Lemma apply_event_consistent event bus bus' :
  consistent bus → apply_event event bus = Some bus' → consistent bus'.
Proof.
  intros (Hstopped & Hids & Hflow) Hstep.
  destruct event as [| |now device_id st si fn fv entity_id| |trigger|now outcome|];
    simpl in Hstep.
  - injection Hstep as <-. by split_and!.
  - injection Hstep as <-. split_and!; simpl; [done | constructor |].
    destruct (processor bus); [done | done |].
    (* a flow in progress survives a stop *)
    exact Hflow.
  - injection Hstep as <-.
    destruct (submit_action_cases now device_id st si fn fv entity_id bus)
      as [[_ ->]|[(_ & existing & _ & ->)|(_ & _ & _ & Hq & _ & He & Hp & Hr)]];
      [by split_and! | by split_and! |].
    split_and!.
    + by rewrite Hr.
    + rewrite Hq. apply Forall_app. split; [done |]. by repeat constructor.
    + rewrite Hp, He. exact Hflow.
  - unfold acquire in Hstep.
    destruct (processor bus) eqn:Hp; [| done | done].
    destruct (waiting_tasks bus); [done |].
    injection Hstep as <-. by split_and!.
  - destruct (processor bus) eqn:Hp; [done | | done].
    injection Hstep as <-. unfold process_next.
    destruct (_action_queue bus) as [|action rest] eqn:Hq; [by split_and! |].
    destruct (_is_running bus) eqn:Hr; simpl.
    + apply Forall_cons in Hids as [Hid Hrest]. by split_and!.
    + by destruct Hstopped.
  - destruct (processor bus) as [| |action] eqn:Hp; [done | done |].
    injection Hstep as <-. split_and!; simpl; [| done | done].
    intros Hr. destruct (Hstopped Hr) as [-> ->]. by rewrite delete_empty.
  - injection Hstep as <-. by split_and!.
Qed.

Lemma run_consistent events bus bus' :
  consistent bus → run events bus = Some bus' → consistent bus'.
Proof.
  revert bus. induction events as [|event rest IH]; intros bus Hc Hrun; simpl in Hrun.
  - by injection Hrun as <-.
  - destruct (apply_event event bus) as [bus1|] eqn:Hstep; [| done].
    simpl in Hrun. eapply IH; [| done]. by eapply apply_event_consistent.
Qed.

(** *** Invariants of a bus that was never stopped *)

Lemma new_exclusive : exclusive new.
Proof.
  split_and!; simpl; [apply NoDup_nil_2 | | done].
  intros target. rewrite lookup_empty. split; [by intros ?%elem_of_nil | by intros []].
Qed.

Lemma apply_event_exclusive event bus bus' :
  event ≠ Stop → exclusive bus → apply_event event bus = Some bus' → exclusive bus'.
Proof.
  intros Hev (Hnd & Hocc & Hflow) Hstep. unfold live_targets in *.
  destruct event as [| |now device_id st si fn fv target| |trigger|now outcome|];
    simpl in Hstep.
  - injection Hstep as <-. by split_and!.
  - done.
  - injection Hstep as <-.
    destruct (submit_action_cases now device_id st si fn fv target bus)
      as [[_ ->]|[(_ & existing & _ & ->)|(_ & Hnone & _ & Hq & Ho & He & Hp & _)]];
      [by split_and! | by split_and! |].
    assert (target ∉ (entity_id <$> _action_queue bus) ++
              match _executing_action bus with
              | Some action => [entity_id action]
              | None => []
              end) as Hfresh.
    { intros Hin%Hocc. rewrite Hnone in Hin. by destruct Hin. }
    unfold exclusive, live_targets. rewrite Hq, Ho, He, Hp, fmap_app. simpl.
    split_and!; [| | done].
    + rewrite <- (assoc_L (++)). apply NoDup_app in Hnd as (Hq1 & Hq2 & Hq3).
      rewrite elem_of_app in Hfresh.
      apply NoDup_app. split_and!; [done | |].
      * intros x Hx [->%list_elem_of_singleton|Hx']%elem_of_app; [tauto | by eapply Hq2].
      * apply NoDup_cons. split; [tauto | done].
    + intros x. rewrite lookup_insert_is_Some, <- Hocc, !elem_of_app,
        list_elem_of_singleton.
      destruct (decide (target = x)) as [->|Hne]; [tauto |].
      split; [intros [[?|?]|?]; auto; congruence | intros [?|[_ [?|?]]]; auto; congruence].
  - unfold acquire in Hstep.
    destruct (processor bus) eqn:Hp; [| done | done].
    destruct (waiting_tasks bus); [done |].
    injection Hstep as <-. by split_and!.
  - destruct (processor bus) eqn:Hp; [done | | done].
    injection Hstep as <-. unfold process_next.
    destruct (_action_queue bus) as [|action rest] eqn:Hq;
      [unfold exclusive, live_targets; simpl; by split_and! |].
    destruct (_is_running bus) eqn:Hr.
    + rewrite Hflow in Hnd, Hocc. rewrite app_nil_r in Hnd, Hocc.
      unfold exclusive, live_targets. simpl. split_and!; [| | done].
      * rewrite fmap_cons in Hnd. apply NoDup_cons in Hnd as [Hhead Hrest].
        apply NoDup_app. split_and!; [done | | apply NoDup_singleton].
        intros x Hx ->%list_elem_of_singleton. done.
      * intros x. rewrite <- Hocc, fmap_cons, elem_of_app, !elem_of_cons, elem_of_nil.
        tauto.
    + unfold exclusive, live_targets. simpl. by split_and!.
  - destruct (processor bus) as [| |action] eqn:Hp; [done | done |].
    injection Hstep as <-. rewrite Hflow in Hnd, Hocc.
    apply NoDup_app in Hnd as (Hq1 & Hq2 & _).
    unfold exclusive, live_targets. simpl. rewrite app_nil_r.
    split_and!; [done | | done].
    intros x. rewrite lookup_delete_is_Some, <- Hocc, elem_of_app,
      list_elem_of_singleton.
    split; [| intros [Hne [?|?]]; [done | congruence]].
    intros Hx. split; [| by left]. intros <-. by eapply Hq2, list_elem_of_singleton.
  - injection Hstep as <-. by split_and!.
Qed.

Lemma run_exclusive events bus bus' :
  Stop ∉ events → exclusive bus → run events bus = Some bus' → exclusive bus'.
Proof.
  revert bus. induction events as [|event rest IH]; intros bus Hns Hx Hrun;
    simpl in Hrun.
  - by injection Hrun as <-.
  - apply not_elem_of_cons in Hns as [Hev Hrest].
    destruct (apply_event event bus) as [bus1|] eqn:Hstep; [| done].
    simpl in Hrun. eapply IH; [done | | done].
    by eapply apply_event_exclusive.
Qed.

(** *** Mutual exclusion *)

Lemma make_action_id_inj now now' :
  make_action_id now = make_action_id now' → now = now'.
Proof.
  unfold make_action_id. intros Heq.
  apply (inj pretty), (inj (String.app "action_")). exact Heq.
Qed.

(** What does hold of mutual exclusion. On every bus reached from a new
    one, a submission for a target that has an entry in the occupancy map
    raises the occupancy error and leaves the bus as it was; as long as
    the bus has not been stopped, the targets with an entry are exactly
    those with an action that is queued or executing. When the flow of
    the executing action ends, the entry of its target is deleted, and on
    a running bus a new submission for that target is accepted: it
    returns the id made from the clock, other than the old id once the
    clock has moved, records it in the map and appends the action to the
    queue. *)
Lemma submit_action_mutual_exclusion events bus target :
  run events new = Some bus →
  (∀ now device_id st si fn fv,
     is_Some (_occupied_devices bus !! target) →
     ∃ existing,
       submit_action now device_id st si fn fv target bus =
       (inl (DeviceOccupied existing), bus)) ∧
  (Stop ∉ events →
   (target ∈ live_targets bus ↔ is_Some (_occupied_devices bus !! target))) ∧
  (∀ action t outcome,
     processor bus = InFlow action → entity_id action = target →
     _is_running bus = true →
     _occupied_devices (finish_flow t outcome action bus) !! target = None ∧
     ∀ now device_id st si fn fv,
       (submit_action now device_id st si fn fv target
          (finish_flow t outcome action bus)).1 = inr (make_action_id now) ∧
       _occupied_devices
         (submit_action now device_id st si fn fv target
            (finish_flow t outcome action bus)).2 !! target =
         Some (make_action_id now) ∧
       _action_queue
         (submit_action now device_id st si fn fv target
            (finish_flow t outcome action bus)).2 =
         _action_queue bus ++ [pending_action now device_id st si fn fv target] ∧
       (now ≠ timestamp action → make_action_id now ≠ action_id action)).
Proof.
  intros Hrun.
  pose proof (run_consistent _ _ _ new_consistent Hrun) as (Hstopped & Hids & Hflow).
  split_and!.
  - intros now device_id st si fn fv [existing Hocc]. exists existing.
    destruct (submit_action_cases now device_id st si fn fv target bus)
      as [[Hr _]|[(_ & existing' & Hocc' & ->)|(_ & Hnone & _)]].
    + destruct (Hstopped Hr) as [Hempty _]. by rewrite Hempty in Hocc.
    + congruence.
    + congruence.
  - intros Hns. by destruct (run_exclusive _ _ _ Hns new_exclusive Hrun) as (_ & Hocc & _).
  - intros action t outcome Hp <- Hr. rewrite Hp in Hflow. destruct Hflow as [_ Hid].
    assert (_occupied_devices (finish_flow t outcome action bus) !! entity_id action
            = None) as Hfree by apply lookup_delete_eq.
    split; [done |]. intros now device_id st si fn fv.
    destruct (submit_action_cases now device_id st si fn fv (entity_id action)
                (finish_flow t outcome action bus))
      as [[Hr' _]|[(_ & existing' & Hocc' & _)|(_ & _ & Hres & Hq & Ho & _)]];
      [simpl in Hr'; congruence | congruence |].
    split_and!; [done | by rewrite Ho, lookup_insert_eq | done |].
    rewrite Hid. intros Hne Heq%make_action_id_inj. done.
Qed.

Lemma submit_action_mutual_exclusion_witness :
  (∃ existing,
     submit_action 1001 7 10101 5 1 0 "light.hall" scenario_bus =
     (inl (DeviceOccupied existing), scenario_bus)) ∧
  (submit_action 1300 7 10101 5 1 0 "light.hall"
     (finish_flow 1250 (Returned true) scenario_action scenario_bus)).1 =
    inr (make_action_id 1300).
Proof.
  destruct (submit_action_mutual_exclusion scenario_events scenario_bus
              "light.hall" eq_refl) as (Hbusy & Hlive & Hdone).
  split.
  - apply Hbusy, Hlive; [| left].
    unfold scenario_events. rewrite !not_elem_of_cons.
    split_and!; try discriminate. apply not_elem_of_nil.
  - destruct (Hdone scenario_action 1250%Z (Returned true) eq_refl eq_refl eq_refl)
      as [_ Hagain].
    by destruct (Hagain 1300 7 10101 5 1 0)%Z as (Hid & _).
Defined.

(** C3 fails on the code at this input. The bus is started, an action
    for ["light.hall"] is submitted at 1000 ms and the processing task
    takes it into its flow. While the flow awaits, [stop] and [start] are
    called. [stop] cancels no task -- [_processor_task], which it tests,
    is never assigned -- and empties the occupancy map. So the target
    still has an executing action, [is_device_occupied] answers false for
    it, and a second submission for it at 1100 ms does not fail: it
    returns an action id and is queued, and the bus then holds two live
    actions for the one target, one executing and one queued. *)
Theorem submit_action_accepts_executing_target :
  run (scenario_events ++ [Stop; Start]) new = Some (start (stop scenario_bus)) ∧
  _is_running (start (stop scenario_bus)) = true ∧
  _executing_action (start (stop scenario_bus)) = Some scenario_action ∧
  status scenario_action = EXECUTING ∧
  entity_id scenario_action = "light.hall" ∧
  "light.hall" ∈ live_targets (start (stop scenario_bus)) ∧
  is_device_occupied (start (stop scenario_bus)) "light.hall" = false ∧
  (submit_action 1100 7 10101 5 1 0 "light.hall" (start (stop scenario_bus))).1 =
    inr "action_1100" ∧
  _action_queue
    (submit_action 1100 7 10101 5 1 0 "light.hall" (start (stop scenario_bus))).2 =
    [pending_action 1100 7 10101 5 1 0 "light.hall"] ∧
  live_targets
    (submit_action 1100 7 10101 5 1 0 "light.hall" (start (stop scenario_bus))).2 =
    ["light.hall"; "light.hall"].
Proof. split_and!; try reflexivity. by left. Qed.

End throttled_action_bus_facts.

(** ** mqtt_gateway.py *)

Module mqtt_gateway_facts.
Import mqtt_gateway.

Lemma normalize_None payload_data :
  _normalize_state_data payload_data = None ↔
  ∃ key, key ∈ required ∧ get key payload_data = None.
Proof.
  unfold _normalize_state_data, required. split.
  - destruct (get "st" payload_data) eqn:Hst;
      [| intros _; exists "st"; split; [repeat constructor | done]].
    destruct (get "si" payload_data) eqn:Hsi;
      [| intros _; exists "si"; split; [repeat constructor | done]].
    destruct (get "fn" payload_data) eqn:Hfn;
      [| intros _; exists "fn"; split; [repeat constructor | done]].
    destruct (get "fv" payload_data) eqn:Hfv;
      [done | intros _; exists "fv"; split; [repeat constructor | done]].
  - intros (key & Hin & Hnone).
    repeat (apply elem_of_cons in Hin as [->|Hin];
            [rewrite Hnone; by repeat case_match |]).
    by apply elem_of_nil in Hin.
Qed.

Lemma normalize_Some payload_data state_data :
  _normalize_state_data payload_data = Some state_data ↔
  get "st" payload_data = Some (st state_data) ∧
  get "si" payload_data = Some (si state_data) ∧
  get "fn" payload_data = Some (fn state_data) ∧
  get "fv" payload_data = Some (fv state_data).
Proof.
  unfold _normalize_state_data. split.
  - repeat case_match; try done. by intros [= <-].
  - intros (-> & -> & -> & ->). by destruct state_data.
Qed.

Lemma push_push_of payload_data : push_of payload_data (push payload_data).
Proof. eexists. split; reflexivity. Qed.

Lemma handle_message_push now payload_data payload gw :
  push_of payload_data payload →
  _handle_message now payload gw =
  match _normalize_state_data payload_data with
  | Some state_data =>
      {| state_callback := state_callback gw;
         stats := {| messages_received := S (messages_received (stats gw));
                     messages_parsed := S (messages_parsed (stats gw));
                     parse_errors := parse_errors (stats gw);
                     last_message_time := Some now |};
         forwarded := if state_callback gw then forwarded gw ++ [[state_data]]
                      else forwarded gw |}
  | None =>
      {| state_callback := state_callback gw;
         stats := {| messages_received := S (messages_received (stats gw));
                     messages_parsed := messages_parsed (stats gw);
                     parse_errors := parse_errors (stats gw);
                     last_message_time := Some now |};
         forwarded := forwarded gw |}
  end.
Proof.
  intros (members & -> & Hpayload).
  unfold _handle_message, handle_parsed, contains_payload.
  rewrite Hpayload. rewrite bool_decide_eq_true_2 by eauto.
  by destruct (_normalize_state_data payload_data).
Qed.

(** C4 (as amended). A push message whose payload lacks one of [st],
    [si], [fn], [fv] is dropped: the callback is not called and the
    message is not counted as parsed -- nor as a parse error, a counter
    that moves only when the text does not decode or the handler raises.
    A payload with all four fields is counted as parsed and handed to the
    configured callback as a batch of exactly one entry, made of those
    four values. *)
Theorem handle_message_required_fields now payload_data payload gw :
  push_of payload_data payload →
  ((∃ key, key ∈ required ∧ get key payload_data = None) →
   forwarded (_handle_message now payload gw) = forwarded gw ∧
   parse_errors (stats (_handle_message now payload gw)) = parse_errors (stats gw) ∧
   messages_parsed (stats (_handle_message now payload gw)) =
     messages_parsed (stats gw)) ∧
  (∀ v_st v_si v_fn v_fv,
     get "st" payload_data = Some v_st → get "si" payload_data = Some v_si →
     get "fn" payload_data = Some v_fn → get "fv" payload_data = Some v_fv →
     state_callback gw = true →
     forwarded (_handle_message now payload gw) =
       forwarded gw ++ [[ {| st := v_st; si := v_si; fn := v_fn; fv := v_fv |} ]] ∧
     messages_parsed (stats (_handle_message now payload gw)) =
       S (messages_parsed (stats gw)) ∧
     parse_errors (stats (_handle_message now payload gw)) =
       parse_errors (stats gw)) ∧
  parse_errors (stats (_handle_message now Malformed gw)) = S (parse_errors (stats gw)).
Proof.
  intros Hpush. split_and!.
  - intros Hmissing%normalize_None.
    rewrite (handle_message_push now payload_data), Hmissing; done.
  - intros v_st v_si v_fn v_fv Hst Hsi Hfn Hfv Hcb.
    rewrite (handle_message_push now payload_data) by done.
    assert (_normalize_state_data payload_data =
            Some {| st := v_st; si := v_si; fn := v_fn; fv := v_fv |}) as ->
      by by apply normalize_Some.
    simpl. by rewrite Hcb.
  - done.
Qed.

Lemma handle_message_required_fields_witness :
  forwarded (_handle_message 3 (push [("st", JNumber 10101); ("si", JNumber 5);
                                      ("fn", JNumber 1); ("fv", JNumber 0)])
               (new true)) =
    [[ {| st := JNumber 10101; si := JNumber 5; fn := JNumber 1; fv := JNumber 0 |} ]] ∧
  forwarded (_handle_message 3 (push [("st", JNumber 10101); ("si", JNumber 5);
                                      ("fn", JNumber 1)])
               (new true)) = [].
Proof.
  split.
  - destruct (handle_message_required_fields 3
                [("st", JNumber 10101); ("si", JNumber 5);
                 ("fn", JNumber 1); ("fv", JNumber 0)] _ (new true)
                (push_push_of _))
      as (_ & Hvalid & _).
    by destruct (Hvalid (JNumber 10101) (JNumber 5) (JNumber 1) (JNumber 0)
                   eq_refl eq_refl eq_refl eq_refl eq_refl) as (-> & _).
  - destruct (handle_message_required_fields 3
                [("st", JNumber 10101); ("si", JNumber 5); ("fn", JNumber 1)]
                _ (new true) (push_push_of _))
      as (Hmissing & _).
    destruct Hmissing as (-> & _); [| done].
    exists "fv". split; [unfold required; repeat constructor | reflexivity].
Defined.

(** C4, as stated, fails: a push message without [st] is dropped, and
    [parse_errors] stays at 0. *)
Lemma handle_message_counterexample :
  get "st" [("si", JNumber 5); ("fn", JNumber 1); ("fv", JNumber 1)] = None ∧
  forwarded (_handle_message 3 (push [("si", JNumber 5); ("fn", JNumber 1);
                                      ("fv", JNumber 1)]) (new true)) = [] ∧
  parse_errors (stats (_handle_message 3 (push [("si", JNumber 5); ("fn", JNumber 1);
                                                ("fv", JNumber 1)]) (new true))) = 0.
Proof. split_and!; reflexivity. Qed.

End mqtt_gateway_facts.

(** ** state_sync_router.py *)

Module state_sync_router_facts.
Import state_sync_router.

Lemma inactive_not_using r :
  mode_active r = false → using_polling r = false ∧ using_mqtt r = false.
Proof.
  unfold mode_active, get_current_mode, using_polling, using_mqtt.
  destruct (current_mode r); intros ->; simpl; split; try done;
    apply andb_false_r.
Qed.

Lemma inactive_handlers_drop now states r :
  mode_active r = false →
  handle_mqtt_states now states r = r ∧
  handle_polling_states now states r = r ∧
  handle_fallback_states now states r = r.
Proof.
  intros [Hp Hm]%inactive_not_using.
  unfold handle_mqtt_states, handle_polling_states, handle_fallback_states.
  by rewrite Hp, Hm.
Qed.

Lemma stop_inactive r : mode_active (stop r) = false.
Proof. unfold mode_active, get_current_mode. simpl. by destruct (current_mode r). Qed.

(** Between two mode choices nothing wakes the router up: a call that does
    not choose a mode keeps an inactive router inactive, and leaves the
    state manager and the trace of notifications as they were. *)
Lemma apply_call_inactive r call :
  mode_active r = false → ¬ chooses_mode call →
  mode_active (apply_call r call) = false ∧
  state_manager (apply_call r call) = state_manager r ∧
  updates (apply_call r call) = updates r.
Proof.
  intros Hr Hcall.
  destruct (inactive_not_using r Hr) as [Hp Hm].
  destruct call; simpl in Hcall; try done; simpl.
  - unfold run_scheduled_restart, _restart_fallback_task, _start_fallback_task,
      _stop_fallback_task.
    unfold mode_active, get_current_mode in *.
    repeat (case_decide || case_match); simpl in *; first [done | congruence].
  - by destruct (inactive_handlers_drop now states r Hr) as (-> & _ & _).
  - by destruct (inactive_handlers_drop now states r Hr) as (_ & -> & _).
  - by destruct (inactive_handlers_drop now states r Hr) as (_ & _ & ->).
  - unfold fallback_round. rewrite Hm. simpl. by destruct (fallback_task r).
  - split; [apply stop_inactive | done].
Qed.

Lemma calls_inactive calls r :
  mode_active r = false → Forall (λ call, ¬ chooses_mode call) calls →
  mode_active (foldl apply_call r calls) = false ∧
  state_manager (foldl apply_call r calls) = state_manager r ∧
  updates (foldl apply_call r calls) = updates r.
Proof.
  revert r. induction calls as [|call rest IH]; intros r Hr Hall; [done |].
  apply Forall_cons in Hall as [Hcall Hrest]. cbn [foldl].
  destruct (apply_call_inactive r call Hr Hcall) as (Hr' & <- & <-).
  by apply IH.
Qed.

(** C6. While the mode is [mqtt], [handle_polling_states] returns the
    router as it was: the same state manager (cache, listeners' trace),
    the same notifications, the same counters. While the mode is
    [polling], so do [handle_mqtt_states] and [handle_fallback_states]. *)
Theorem handlers_gated_by_mode now states r :
  (current_mode r = mqtt → handle_polling_states now states r = r) ∧
  (current_mode r = polling →
   handle_mqtt_states now states r = r ∧ handle_fallback_states now states r = r).
Proof.
  unfold handle_polling_states, handle_mqtt_states, handle_fallback_states,
    using_polling, using_mqtt.
  split; intros ->; done.
Qed.

Lemma handlers_gated_by_mode_witness :
  handle_polling_states 5 [state_manager.scenario_entry]
    (use_mqtt_mode 1 None
       (new state_manager.init (polling_bus.new polling_bus.scenario_config) true)) =
  use_mqtt_mode 1 None
    (new state_manager.init (polling_bus.new polling_bus.scenario_config) true) ∧
  handle_mqtt_states 5 [state_manager.scenario_entry]
    (use_polling_mode 2
       (use_mqtt_mode 1 None
          (new state_manager.init (polling_bus.new polling_bus.scenario_config) true))) =
  use_polling_mode 2
    (use_mqtt_mode 1 None
       (new state_manager.init (polling_bus.new polling_bus.scenario_config) true)).
Proof.
  split.
  - by apply (handlers_gated_by_mode 5 [state_manager.scenario_entry]).
  - by apply (handlers_gated_by_mode 5 [state_manager.scenario_entry]
                (use_polling_mode 2 _)).
Defined.

(** C10. A new router reports the mode [polling] with [polling_active]
    off, and a stopped router has both flags off: in either state the
    flag of the reported mode is off. Whenever that is so, [using_polling]
    and [using_mqtt] are false and the three handlers return the router
    as it was; and no sequence of calls without [use_mqtt_mode] and
    [use_polling_mode] changes that, or touches the state manager or the
    notifications. *)
Theorem inactive_until_mode_chosen :
  (∀ sm bus callback,
     get_current_mode (new sm bus callback) = polling ∧
     mode_active (new sm bus callback) = false) ∧
  (∀ r, mqtt_active (stop r) = false ∧ polling_active (stop r) = false ∧
        get_current_mode (stop r) = get_current_mode r ∧
        mode_active (stop r) = false) ∧
  (∀ r, mode_active r = false →
     using_polling r = false ∧ using_mqtt r = false ∧
     ∀ now states,
       handle_mqtt_states now states r = r ∧
       handle_polling_states now states r = r ∧
       handle_fallback_states now states r = r) ∧
  (∀ r calls,
     mode_active r = false → Forall (λ call, ¬ chooses_mode call) calls →
     mode_active (foldl apply_call r calls) = false ∧
     state_manager (foldl apply_call r calls) = state_manager r ∧
     updates (foldl apply_call r calls) = updates r).
Proof.
  split_and!.
  - done.
  - intros r. split_and!; [done | done | done | apply stop_inactive].
  - intros r Hr. destruct (inactive_not_using r Hr) as [-> ->].
    split_and!; [done | done |]. intros now states.
    by apply inactive_handlers_drop.
  - intros r calls. apply calls_inactive.
Qed.

Lemma inactive_until_mode_chosen_witness :
  handle_polling_states 5 [state_manager.scenario_entry]
    (new state_manager.init (polling_bus.new polling_bus.scenario_config) true) =
  new state_manager.init (polling_bus.new polling_bus.scenario_config) true ∧
  state_manager
    (foldl apply_call
       (stop (use_mqtt_mode 1 None
                (new state_manager.init
                     (polling_bus.new polling_bus.scenario_config) true)))
       [HandleMqttStates 5 [state_manager.scenario_entry];
        ConfigureFallback 60000;
        HandleFallbackStates 6 [state_manager.scenario_entry]]) =
  state_manager.init.
Proof.
  destruct inactive_until_mode_chosen as (_ & _ & Hdrop & Hcalls).
  split.
  - destruct (Hdrop (new state_manager.init
                         (polling_bus.new polling_bus.scenario_config) true) eq_refl)
      as (_ & _ & Hhandlers).
    by destruct (Hhandlers 5%Z [state_manager.scenario_entry]) as (_ & -> & _).
  - destruct (Hcalls
                (stop (use_mqtt_mode 1 None
                         (new state_manager.init
                              (polling_bus.new polling_bus.scenario_config) true)))
                [HandleMqttStates 5 [state_manager.scenario_entry];
                 ConfigureFallback 60000;
                 HandleFallbackStates 6 [state_manager.scenario_entry]])
      as (_ & -> & _); [reflexivity | | reflexivity].
    repeat constructor; simpl; tauto.
Defined.

(** On a new router [use_polling_mode] finds the mode already [polling]
    and returns at once: the router stays inactive. A round through
    [use_mqtt_mode] is what makes [use_polling_mode] start the bus. *)
Lemma use_polling_mode_on_new sm bus callback now :
  use_polling_mode now (new sm bus callback) = new sm bus callback ∧
  using_polling (use_polling_mode now (new sm bus callback)) = false ∧
  using_polling (use_polling_mode now (use_mqtt_mode now None (new sm bus callback)))
    = true.
Proof. done. Qed.

End state_sync_router_facts.

(** ** state_manager.py: further properties *)

Module state_manager_more.
Import state_manager state_manager_facts.

(** *** [_organize_states_data] *)

Lemma organize_snoc now batch e :
  _organize_states_data now (batch ++ [e]) =
  organize_state now (_organize_states_data now batch) e.
Proof. unfold _organize_states_data. by rewrite foldl_app. Qed.

Lemma incoming_snoc now batch e si fn :
  raw_si e = Some si → raw_fn e = Some fn →
  incoming now (batch ++ [e]) si fn = Some (state_of now e) ∧
  ∀ si' fn', (si', fn') ≠ (si, fn) →
    incoming now (batch ++ [e]) si' fn' = incoming now batch si' fn'.
Proof.
  intros Hsi Hfn. unfold incoming. rewrite organize_snoc.
  unfold organize_state. rewrite Hsi, Hfn. split.
  - rewrite od_get_set_eq. simpl. by rewrite od_get_set_eq.
  - intros si' fn' Hne. destruct (decide (si = si')) as [<-|Hsi'].
    + rewrite od_get_set_eq. simpl.
      rewrite od_get_set_ne by congruence.
      by destruct (od_get si (_organize_states_data now batch)).
    + by rewrite od_get_set_ne.
Qed.

(** In a batch the last entry for a pair [(si, fn)] is the one that
    counts, and an entry without [si] or without [fn] counts for nothing:
    appending an entry that lacks one of them leaves the organised batch as
    it was; appending one that has both makes its own state the incoming
    state of its pair and leaves the incoming state of every other pair
    alone. *)
Theorem organize_last_entry_wins now batch e :
  (usable e = false →
   _organize_states_data now (batch ++ [e]) = _organize_states_data now batch) ∧
  (∀ si fn, raw_si e = Some si → raw_fn e = Some fn →
     incoming now (batch ++ [e]) si fn = Some (state_of now e) ∧
     ∀ si' fn', (si', fn') ≠ (si, fn) →
       incoming now (batch ++ [e]) si' fn' = incoming now batch si' fn').
Proof.
  split.
  - intros Hunusable. rewrite organize_snoc. unfold organize_state.
    destruct (raw_si e) as [si|] eqn:Hsi; [| done].
    destruct (raw_fn e) as [fn|] eqn:Hfn; [| done].
    unfold usable in Hunusable. rewrite Hsi, Hfn in Hunusable.
    apply bool_decide_eq_false in Hunusable. exfalso. apply Hunusable. eauto.
  - intros si fn. apply incoming_snoc.
Qed.

Lemma organize_last_entry_wins_witness :
  incoming 3 ([scenario_entry] ++
              [{| raw_st := Some 10101%Z; raw_si := Some 5%Z; raw_fn := Some 1%Z;
                  raw_fv := Some 0%Z |}]) 5 1 =
  Some {| fv := Some 0%Z; st := Some 10101%Z; timestamp := 3 |} ∧
  _organize_states_data 3
    ([scenario_entry] ++
     [{| raw_st := Some 10101%Z; raw_si := None; raw_fn := Some 1%Z;
         raw_fv := Some 0%Z |}]) =
  _organize_states_data 3 [scenario_entry].
Proof.
  split.
  - destruct (organize_last_entry_wins 3 [scenario_entry]
                {| raw_st := Some 10101%Z; raw_si := Some 5%Z; raw_fn := Some 1%Z;
                   raw_fv := Some 0%Z |}) as [_ Hlast].
    by destruct (Hlast 5%Z 1%Z eq_refl eq_refl) as [-> _].
  - destruct (organize_last_entry_wins 3 [scenario_entry]
                {| raw_st := Some 10101%Z; raw_si := None; raw_fn := Some 1%Z;
                   raw_fv := Some 0%Z |}) as [Hskip _].
    by apply Hskip.
Defined.

(** *** [_compare_states]: which devices are reported *)

Lemma compare_device_new_devices cache changes dev :
  new_devices (compare_device cache changes dev) =
  if decide (cache !! dev.1 = None) then {[dev.1]} ∪ new_devices changes
  else new_devices changes.
Proof.
  unfold compare_device. destruct (foldl _ _ _) as [[device_changed dfc] dnf].
  destruct device_changed; simpl; by case_bool_decide; case_decide.
Qed.

Lemma compare_device_maps cache changes dev si :
  (is_Some (changed_functions (compare_device cache changes dev) !! si) →
   is_Some (changed_functions changes !! si) ∨
   (si = dev.1 ∧ si ∈ changed_devices (compare_device cache changes dev))) ∧
  (is_Some (new_functions (compare_device cache changes dev) !! si) →
   is_Some (new_functions changes !! si) ∨
   (si = dev.1 ∧ si ∈ changed_devices (compare_device cache changes dev))).
Proof.
  unfold compare_device. destruct (foldl _ _ _) as [[device_changed dfc] dnf].
  destruct device_changed; simpl; [| by split; left].
  split; case_decide; try (by left);
    rewrite lookup_insert_is_Some; (intros [->|[_ ?]]; [right | by left]);
    (split; [done | apply elem_of_union_l, elem_of_singleton; done]).
Qed.

Lemma compare_device_changed_mono cache changes dev si :
  si ∈ changed_devices changes → si ∈ changed_devices (compare_device cache changes dev).
Proof.
  destruct (compare_device_spec cache changes dev) as [(_ & _ & ->)|(_ & _ & ->)];
    [done | apply elem_of_union_r].
Qed.

Lemma compare_foldl_devices cache devs changes :
  new_devices changes ⊆ changed_devices changes →
  dom (changed_functions changes) ⊆ changed_devices changes →
  dom (new_functions changes) ⊆ changed_devices changes →
  new_devices (foldl (compare_device cache) changes devs) ⊆
    changed_devices (foldl (compare_device cache) changes devs) ∧
  dom (changed_functions (foldl (compare_device cache) changes devs)) ⊆
    changed_devices (foldl (compare_device cache) changes devs) ∧
  dom (new_functions (foldl (compare_device cache) changes devs)) ⊆
    changed_devices (foldl (compare_device cache) changes devs) ∧
  (∀ si, si ∈ new_devices (foldl (compare_device cache) changes devs) ↔
         si ∈ new_devices changes ∨ (si ∈ od_keys devs ∧ cache !! si = None)) ∧
  (∀ si, si ∈ changed_devices (foldl (compare_device cache) changes devs) →
         si ∈ changed_devices changes ∨ si ∈ od_keys devs).
Proof.
  revert changes. unfold od_keys.
  induction devs as [|dev rest IH]; intros changes Hnew Hcf Hnf; cbn [foldl].
  - split_and!; [done | done | done | | by left].
    intros si. rewrite fmap_nil, elem_of_nil. tauto.
  - destruct (IH (compare_device cache changes dev)) as (H1 & H2 & H3 & H4 & H5).
    + rewrite compare_device_new_devices. intros si.
      case_decide as Hcache.
      * intros [->%elem_of_singleton|Hsi]%elem_of_union.
        -- destruct (compare_device_spec cache changes dev)
             as [([Hsome _] & _)|(_ & _ & ->)];
             [rewrite Hcache in Hsome; by destruct Hsome |].
           apply elem_of_union_l, elem_of_singleton. done.
        -- by apply compare_device_changed_mono, Hnew.
      * intros Hsi. by apply compare_device_changed_mono, Hnew.
    + intros si Hsi%elem_of_dom.
      destruct (compare_device_maps cache changes dev si) as [Hm _].
      destruct (Hm Hsi) as [Hold|[_ ?]]; [| done].
      by apply compare_device_changed_mono, Hcf, elem_of_dom.
    + intros si Hsi%elem_of_dom.
      destruct (compare_device_maps cache changes dev si) as [_ Hm].
      destruct (Hm Hsi) as [Hold|[_ ?]]; [| done].
      by apply compare_device_changed_mono, Hnf, elem_of_dom.
    + split_and!; [done | done | done | |].
      * intros si. rewrite H4, compare_device_new_devices, fmap_cons, elem_of_cons.
        case_decide as Hcache.
        -- rewrite elem_of_union, elem_of_singleton.
           split; [intros [[->|?]|[? ?]]; auto | intros [?|[[->|?] ?]]; auto].
        -- split; [intros [?|[? ?]]; auto | intros [?|[[->|?] ?]]; auto; congruence].
      * intros si [Hsi|Hsi]%H5; [| right; rewrite fmap_cons; by right].
        destruct (compare_device_spec cache changes dev)
          as [(_ & _ & Heq)|(_ & _ & Heq)]; rewrite Heq in Hsi; [by left |].
        apply elem_of_union in Hsi as [->%elem_of_singleton|?]; [right | by left].
        rewrite fmap_cons. left.
Qed.

(** Every device reported as new is also reported as changed, and is a
    device of the batch that the cache did not know; every device reported
    as changed is a device of the batch; and [changed_functions] and
    [new_functions] have entries for changed devices only. *)
Theorem compare_states_devices cache new_states :
  new_devices (_compare_states cache new_states) ⊆
    changed_devices (_compare_states cache new_states) ∧
  (∀ si, si ∈ new_devices (_compare_states cache new_states) ↔
         si ∈ od_keys new_states ∧ cache !! si = None) ∧
  (∀ si, si ∈ changed_devices (_compare_states cache new_states) →
         si ∈ od_keys new_states) ∧
  dom (changed_functions (_compare_states cache new_states)) ⊆
    changed_devices (_compare_states cache new_states) ∧
  dom (new_functions (_compare_states cache new_states)) ⊆
    changed_devices (_compare_states cache new_states).
Proof.
  destruct (compare_foldl_devices cache new_states no_changes)
    as (H1 & H2 & H3 & H4 & H5); [done | done | done |].
  fold (_compare_states cache new_states) in *.
  split_and!; [done | | | done | done].
  - intros si. rewrite H4. simpl. rewrite elem_of_empty. tauto.
  - intros si [Hsi|Hsi]%H5; [by apply elem_of_empty in Hsi | done].
Qed.

(** *** [_compare_states]: what the change-set holds *)

Lemma compare_functions_untouched cache si functions acc :
  (foldl (compare_function cache si) acc functions).1.1 = false →
  (foldl (compare_function cache si) acc functions).1.2 = acc.1.2 ∧
  (foldl (compare_function cache si) acc functions).2 = acc.2.
Proof.
  revert acc. induction functions as [|[k s] rest IH]; intros [[dc dfc] dnf];
    [done |].
  cbn [foldl]. intros Hunchanged.
  pose proof Hunchanged as Hacc.
  apply compare_function_unchanged in Hacc as [Hacc _].
  destruct (IH _ Hunchanged) as [-> ->].
  unfold compare_function in *. simpl in *.
  destruct (cached cache si k) as [o|]; [| done].
  by case_decide.
Qed.

Lemma compare_functions_contents cache si functions acc :
  NoDup (od_keys functions) →
  (∀ fn, (foldl (compare_function cache si) acc functions).1.2 !! fn =
     match od_get fn functions, cached cache si fn with
     | Some s, Some o =>
         if decide (fv o ≠ fv s) then Some (fv o, fv s) else acc.1.2 !! fn
     | _, _ => acc.1.2 !! fn
     end) ∧
  (∀ fn, fn ∈ (foldl (compare_function cache si) acc functions).2 ↔
         fn ∈ acc.2 ∨ (is_Some (od_get fn functions) ∧ cached cache si fn = None)).
Proof.
  unfold od_keys. revert acc.
  induction functions as [|[k s] rest IH]; intros [[dc dfc] dnf] Hnd.
  - simpl. split; [by intros fn |].
    intros fn. split; [by left | intros [?|[[? [=]] _]]; done].
  - rewrite fmap_cons in Hnd. apply NoDup_cons in Hnd as [Hk Hrest].
    assert (od_get k rest = None) as Hnone by (by apply od_get_None).
    cbn [foldl].
    destruct (IH (compare_function cache si (dc, dfc, dnf) (k, s)) Hrest)
      as (Hmap & Hlist).
    split.
    + intros fn. rewrite Hmap. cbn [od_get]. unfold compare_function. simpl.
      destruct (decide (fn = k)) as [->|Hne].
      * rewrite Hnone. destruct (cached cache si k) as [o|]; [| done].
        case_decide; simpl; [by rewrite lookup_insert_eq | done].
      * destruct (od_get fn rest) as [s'|] eqn:Hfn.
        -- destruct (cached cache si fn) as [o'|]; simpl.
           ++ case_decide; [done |].
              destruct (cached cache si k) as [o|]; [| done].
              case_decide; simpl; [by rewrite lookup_insert_ne | done].
           ++ destruct (cached cache si k) as [o|]; [| done].
              case_decide; simpl; [by rewrite lookup_insert_ne | done].
        -- destruct (cached cache si k) as [o|]; [| done].
           case_decide; simpl; [by rewrite lookup_insert_ne | done].
    + intros fn. rewrite Hlist. cbn [od_get]. unfold compare_function. simpl.
      destruct (decide (fn = k)) as [->|Hne].
      * rewrite Hnone. destruct (cached cache si k) as [o|] eqn:Hc; simpl.
        -- case_decide; simpl;
             (split; [intros [?|[[? [=]] _]]; by left | intros [?|[_ [=]]]; by left]).
        -- rewrite elem_of_app, list_elem_of_singleton.
           split; [intros [[?|?]|[[? [=]] _]]; [by left | right; eauto] |].
           intros [?|_]; left; [by left | by right].
      * destruct (cached cache si k) as [o|] eqn:Hc; simpl.
        -- by case_decide.
        -- rewrite elem_of_app, list_elem_of_singleton.
           split; [intros [[?|?]|?]; [by left | done | by right] |].
           intros [?|?]; [left; by left | by right].
Qed.

Lemma compare_device_functions cache changes dev :
  changed_functions (compare_device cache changes dev) =
    (if decide (function_changes cache dev = ∅) then changed_functions changes
     else <[dev.1 := function_changes cache dev]> (changed_functions changes)) ∧
  new_functions (compare_device cache changes dev) =
    (if decide (added_functions cache dev = []) then new_functions changes
     else <[dev.1 := added_functions cache dev]> (new_functions changes)).
Proof.
  unfold compare_device, function_changes, added_functions.
  pose proof (compare_functions_untouched cache dev.1 dev.2
                (bool_decide (cache !! dev.1 = None), ∅, [])) as Hsame.
  destruct (foldl _ _ _) as [[device_changed dfc] dnf]. simpl in *.
  destruct device_changed; simpl; [done |].
  destruct (Hsame eq_refl) as [-> ->]. by rewrite !decide_True.
Qed.

Lemma compare_foldl_functions cache devs changes si :
  NoDup (od_keys devs) →
  changed_functions (foldl (compare_device cache) changes devs) !! si =
    match od_get si devs with
    | Some functions =>
        if decide (function_changes cache (si, functions) = ∅)
        then changed_functions changes !! si
        else Some (function_changes cache (si, functions))
    | None => changed_functions changes !! si
    end ∧
  new_functions (foldl (compare_device cache) changes devs) !! si =
    match od_get si devs with
    | Some functions =>
        if decide (added_functions cache (si, functions) = [])
        then new_functions changes !! si
        else Some (added_functions cache (si, functions))
    | None => new_functions changes !! si
    end.
Proof.
  unfold od_keys. revert changes.
  induction devs as [|[k functions] rest IH]; intros changes Hnd; [done |].
  rewrite fmap_cons in Hnd. apply NoDup_cons in Hnd as [Hk Hrest].
  assert (od_get k rest = None) as Hnone by (by apply od_get_None).
  cbn [foldl od_get].
  destruct (IH (compare_device cache changes (k, functions)) Hrest) as [-> ->].
  destruct (compare_device_functions cache changes (k, functions)) as [-> ->].
  simpl. destruct (decide (si = k)) as [->|Hne].
  - rewrite Hnone. split; case_decide; try done; by rewrite lookup_insert_eq.
  - assert ((if decide (function_changes cache (k, functions) = ∅)
             then changed_functions changes
             else <[k := function_changes cache (k, functions)]>
                    (changed_functions changes)) !! si =
            changed_functions changes !! si) as ->
      by (case_decide; [done | by rewrite lookup_insert_ne]).
    assert ((if decide (added_functions cache (k, functions) = [])
             then new_functions changes
             else <[k := added_functions cache (k, functions)]>
                    (new_functions changes)) !! si =
            new_functions changes !! si) as ->
      by (case_decide; [done | by rewrite lookup_insert_ne]).
    done.
Qed.

Lemma compare_states_contents now batch cache :
  (∀ si fn old new,
     changed_functions (_compare_states cache (_organize_states_data now batch)) !! si
       ≫= (.!! fn) = Some (old, new) ↔
     ∃ o s, cached cache si fn = Some o ∧
            incoming now batch si fn = Some s ∧
            fv o = old ∧ fv s = new ∧ old ≠ new) ∧
  (∀ si fn,
     fn ∈ default [] (new_functions (_compare_states cache
                                      (_organize_states_data now batch)) !! si) ↔
     is_Some (incoming now batch si fn) ∧
     cached cache si fn = None).
Proof.
  destruct (organize_well_formed now batch) as [Hkeys Hrows].
  rewrite Forall_forall in Hrows. unfold _compare_states, incoming.
  split.
  - intros si fn old new.
    destruct (compare_foldl_functions cache
                (_organize_states_data now batch) no_changes si Hkeys) as [-> _].
    simpl. rewrite lookup_empty.
    destruct (od_get si (_organize_states_data now batch)) as [functions|] eqn:Hdev;
      simpl; [| split; [done | by intros (? & ? & _ & [=] & _)]].
    destruct (Hrows _ (od_get_Some_elem _ _ _ Hdev)) as [Hfns _]. simpl in Hfns.
    destruct (compare_functions_contents cache si functions
                (bool_decide (cache !! si = None), ∅, []) Hfns)
      as [Hmap _].
    assert ((if decide (function_changes cache (si, functions) = ∅)
             then None
             else Some (function_changes cache (si, functions)))
            ≫= (.!! fn) =
            function_changes cache (si, functions) !! fn) as ->.
    { case_decide as Hempty; [| done]. by rewrite Hempty, lookup_empty. }
    unfold function_changes. simpl. rewrite Hmap. simpl. rewrite lookup_empty.
    destruct (od_get fn functions) as [s|];
      [| split; [done | by intros (? & ? & _ & [=] & _)]].
    destruct (cached cache si fn) as [o|];
      [| split; [done | by intros (? & ? & [=] & _)]].
    case_decide as Hdiff.
    + split; [intros [= <- <-]; by exists o, s |].
      by intros (? & ? & [= <-] & [= <-] & <- & <- & _).
    + split; [done |].
      intros (? & ? & [= <-] & [= <-] & <- & <- & Hne'). by destruct Hdiff.
  - intros si fn.
    destruct (compare_foldl_functions cache
                (_organize_states_data now batch) no_changes si Hkeys) as [_ ->].
    simpl. rewrite lookup_empty.
    destruct (od_get si (_organize_states_data now batch)) as [functions|] eqn:Hdev;
      simpl; [| rewrite elem_of_nil; split; [done | by intros [[? [=]] _]]].
    destruct (Hrows _ (od_get_Some_elem _ _ _ Hdev)) as [Hfns _]. simpl in Hfns.
    destruct (compare_functions_contents cache si functions
                (bool_decide (cache !! si = None), ∅, []) Hfns)
      as [_ Hlist].
    assert (default [] (if decide (added_functions cache
                                     (si, functions) = [])
                        then None
                        else Some (added_functions cache
                                     (si, functions))) =
            added_functions cache (si, functions)) as ->.
    { by case_decide as Hempty; [rewrite Hempty |]. }
    unfold added_functions. simpl. rewrite Hlist. simpl. rewrite elem_of_nil. tauto.
Qed.


(** The change-set is the difference between the batch and the cache,
    pair by pair. When [process_state_update] returns the change-set
    [changes]: [changed_functions] holds [(old, new)] for [(si, fn)]
    exactly when the cache held [fn] of [si] with [fv = old], the batch
    brings it with [fv = new], and the two differ; [new_functions] lists
    [fn] for [si] exactly when the batch brings the pair and the cache
    did not hold it. *)
Theorem change_set_contents now batch sm changes :
  (process_state_update now batch sm).1.2 = Some changes →
  (∀ si fn old new,
     changed_functions changes !! si ≫= (.!! fn) = Some (old, new) ↔
     ∃ o s, cached (_device_states_cache sm) si fn = Some o ∧
            incoming now batch si fn = Some s ∧
            fv o = old ∧ fv s = new ∧ old ≠ new) ∧
  (∀ si fn,
     fn ∈ default [] (new_functions changes !! si) ↔
     is_Some (incoming now batch si fn) ∧
     cached (_device_states_cache sm) si fn = None).
Proof.
  intros Hres. destruct (decide (batch = [])) as [->|Hne]; [done |].
  destruct (process_state_update_nonempty now batch sm Hne) as [Hfst _].
  rewrite Hfst in Hres. injection Hres as <-.
  apply compare_states_contents.
Qed.

Lemma change_set_contents_witness :
  ∃ changes,
    (process_state_update 4
       [{| raw_st := Some 10101%Z; raw_si := Some 5%Z; raw_fn := Some 1%Z;
           raw_fv := Some 0%Z |}]
       (process_state_update 1 [scenario_entry] init).2).1.2 = Some changes ∧
    changed_functions changes !! 5%Z ≫= (.!! 1%Z) = Some (Some 1%Z, Some 0%Z).
Proof.
  eexists. split; [reflexivity |].
  eapply (change_set_contents 4
    [{| raw_st := Some 10101%Z; raw_si := Some 5%Z; raw_fn := Some 1%Z;
        raw_fv := Some 0%Z |}]
    (process_state_update 1 [scenario_entry] init).2); [reflexivity |].
  by eexists _, _.
Defined.

(** *** Who is told, and when *)

Lemma process_state_update_delivered now batch sm :
  delivered (process_state_update now batch sm).2 =
  delivered sm ++
  match (process_state_update now batch sm).1 with
  | (true, Some changes) =>
      (λ listener,
         (listener,
          {| n_changes := changes;
             n_updated_devices :=
               omap (find_device (_devices_cache sm)) (elements (changed_devices changes));
             n_timestamp := now |})) <$> _state_listeners sm
  | _ => []
  end.
Proof.
  unfold process_state_update. destruct batch as [|e rest]; [by rewrite app_nil_r |].
  destruct (has_changes _); simpl; [done | by rewrite app_nil_r].
Qed.

Lemma process_state_update_silent now batch sm :
  (process_state_update now batch sm).1.1 = false →
  delivered (process_state_update now batch sm).2 = delivered sm ∧
  _device_states_cache (process_state_update now batch sm).2 = _device_states_cache sm ∧
  _devices_cache (process_state_update now batch sm).2 = _devices_cache sm ∧
  _state_listeners (process_state_update now batch sm).2 = _state_listeners sm ∧
  devices_changed (_stats (process_state_update now batch sm).2) =
    devices_changed (_stats sm) ∧
  functions_changed (_stats (process_state_update now batch sm).2) =
    functions_changed (_stats sm) ∧
  total_updates (_stats (process_state_update now batch sm).2) =
    match batch with
    | [] => total_updates (_stats sm)
    | _ :: _ => S (total_updates (_stats sm))
    end ∧
  last_update_time (_stats (process_state_update now batch sm).2) =
    match batch with
    | [] => last_update_time (_stats sm)
    | _ :: _ => Some now
    end.
Proof.
  unfold process_state_update. destruct batch as [|e rest]; [done |].
  by destruct (has_changes _).
Qed.

(** [process_state_update] calls the listeners only when it reports a
    change, and then each registered listener exactly once, in
    registration order, with the change-set it returns, the time of the
    call and, as updated devices, the registered devices -- named by
    [deviceId] and [si] -- whose [si] is among the changed devices (for
    each [si] the one registered first); it never adds or removes a
    listener. *)
Theorem process_state_update_notifies now batch sm :
  _state_listeners (process_state_update now batch sm).2 = _state_listeners sm ∧
  ∃ calls,
    delivered (process_state_update now batch sm).2 = delivered sm ++ calls ∧
    match (process_state_update now batch sm).1 with
    | (true, Some changes) =>
        calls.*1 = _state_listeners sm ∧
        Forall (λ call,
                  n_changes call.2 = changes ∧ n_timestamp call.2 = now ∧
                  ∀ device,
                    device ∈ n_updated_devices call.2 ↔
                    ∃ si, si ∈ changed_devices changes ∧
                          find_device (_devices_cache sm) si = Some device) calls
    | _ => calls = []
    end.
Proof.
  split;
    [unfold process_state_update; destruct batch as [|e rest]; try done;
     by destruct (has_changes _) |].
  eexists. split; [apply process_state_update_delivered |].
  destruct (process_state_update now batch sm).1 as [[] [changes|]]; try done.
  split.
  - rewrite <- list_fmap_compose. apply list_fmap_id.
  - apply Forall_fmap, Forall_forall. intros listener _. simpl.
    split_and!; try done. intros device.
    rewrite list_elem_of_omap. by setoid_rewrite elem_of_elements.
Qed.

(** *** An optimistic echo and the poll that follows it *)

Lemma incoming_singleton now e si fn :
  raw_si e = Some si → raw_fn e = Some fn →
  ∀ si' fn', incoming now [e] si' fn' =
             if decide ((si', fn') = (si, fn)) then Some (state_of now e) else None.
Proof.
  intros Hsi Hfn si' fn'.
  destruct (incoming_snoc now [] e si fn Hsi Hfn) as [Hhit Hmiss].
  case_decide as Heq.
  - injection Heq as -> ->. exact Hhit.
  - exact (Hmiss si' fn' Heq).
Qed.

(** After [force_update_device(si, fn, v)], a batch that brings
    [(si, fn)] with the same value reports no change and calls no
    listener: the echo is not reported a second time. A batch that brings
    another value [v'] reports the change [(v, v')] for that pair, and
    the device is not reported as new. *)
Theorem force_update_then_batch now1 now2 si fn v v' st' sm :
  (v' = v →
   (process_state_update now2
      [{| raw_st := st'; raw_si := Some si; raw_fn := Some fn; raw_fv := v' |}]
      (force_update_device now1 si fn v sm)).1.1 = false ∧
   delivered
     (process_state_update now2
        [{| raw_st := st'; raw_si := Some si; raw_fn := Some fn; raw_fv := v' |}]
        (force_update_device now1 si fn v sm)).2 =
   delivered (force_update_device now1 si fn v sm)) ∧
  (v' ≠ v →
   ∃ changes,
     (process_state_update now2
        [{| raw_st := st'; raw_si := Some si; raw_fn := Some fn; raw_fv := v' |}]
        (force_update_device now1 si fn v sm)).1 = (true, Some changes) ∧
     changed_functions changes !! si ≫= (.!! fn) = Some (v, v') ∧
     new_devices changes = ∅).
Proof.
  set (e := {| raw_st := st'; raw_si := Some si; raw_fn := Some fn; raw_fv := v' |}).
  set (sm1 := force_update_device now1 si fn v sm).
  assert (cached (_device_states_cache sm1) si fn =
          Some {| fv := v; st := Some 10101%Z; timestamp := now1 |}) as Hcached.
  { unfold sm1. rewrite force_update_device_cache. unfold cached.
    rewrite lookup_insert_eq. simpl. apply lookup_insert_eq. }
  pose proof (incoming_singleton now2 e si fn eq_refl eq_refl) as Hinc.
  split.
  - intros ->.
    assert ((process_state_update now2 [e] sm1).1.1 = false) as Hflag.
    { apply not_true_is_false. intros (si' & fn' & s & Hs & Hdiff)%process_state_update_flag.
      rewrite Hinc in Hs. case_decide as Heq; [| done].
      injection Heq as -> ->. injection Hs as <-.
      rewrite Hcached in Hdiff. by apply Hdiff. }
    split; [done |].
    rewrite process_state_update_delivered.
    destruct (process_state_update now2 [e] sm1).1 as [[] ?]; [done |].
    by rewrite app_nil_r.
  - intros Hne.
    destruct (process_state_update_nonempty now2 [e] sm1) as [Hfst _]; [done |].
    assert ((process_state_update now2 [e] sm1).1.1 = true) as Hflag.
    { apply process_state_update_flag. exists si, fn, (state_of now2 e).
      rewrite Hinc, decide_True by done. split; [done |].
      rewrite Hcached. simpl. congruence. }
    rewrite Hfst in Hflag |- *. simpl in Hflag. rewrite Hflag.
    eexists. split; [done |]. split.
    + apply compare_states_contents. eexists _, _.
      split; [exact Hcached |]. rewrite Hinc, decide_True by done.
      split; [done |]. simpl. split_and!; [done | done | congruence].
    + apply set_eq. intros si'. rewrite elem_of_empty.
      destruct (compare_foldl_devices (_device_states_cache sm1)
                  (_organize_states_data now2 [e]) no_changes)
        as (_ & _ & _ & Hnew & _); [done | done | done |].
      unfold _compare_states. rewrite Hnew. simpl. rewrite elem_of_empty.
      split; [| done]. intros [[]|[Hkey Hnone]].
      unfold od_keys in Hkey. simpl in Hkey.
      apply list_elem_of_singleton in Hkey as ->.
      unfold cached in Hcached. by rewrite Hnone in Hcached.
Qed.

Lemma force_update_then_batch_witness :
  (process_state_update 8
     [{| raw_st := Some 10101%Z; raw_si := Some 5%Z; raw_fn := Some 1%Z;
         raw_fv := Some 0%Z |}]
     (force_update_device 7 5 1 (Some 0%Z) init)).1.1 = false.
Proof.
  destruct (force_update_then_batch 7 8 5 1 (Some 0%Z) (Some 0%Z) (Some 10101%Z) init)
    as [Hsame _].
  by destruct (Hsame eq_refl) as [-> _].
Defined.

(** *** [update_devices_info] and the device that is reported *)

Lemma od_set_absent {K V} `{EqDecision K} (k : K) (v : V) d :
  od_get k d = None → od_set k v d = d ++ [(k, v)].
Proof.
  induction d as [|[k' v'] d IH]; simpl; [done |].
  case_decide; [done |]. intros Hnone. by rewrite IH.
Qed.

Lemma od_set_length {K V} `{EqDecision K} (k : K) (v : V) d :
  length (od_set k v d) =
  match od_get k d with Some _ => length d | None => S (length d) end.
Proof.
  induction d as [|[k' v'] d IH]; simpl; [done |].
  case_decide; simpl; [done |]. rewrite IH. by destruct (od_get k d).
Qed.

Lemma update_devices_info_snoc devices d sm :
  _devices_cache (update_devices_info (devices ++ [d]) sm) =
  match d.1 with
  | Some id =>
      if decide (id = 0%Z) then _devices_cache (update_devices_info devices sm)
      else od_set id {| deviceId := id; device_si := d.2 |}
             (_devices_cache (update_devices_info devices sm))
  | None => _devices_cache (update_devices_info devices sm)
  end.
Proof. unfold update_devices_info. simpl. by rewrite foldl_app. Qed.

Lemma update_devices_info_NoDup devices sm :
  NoDup (od_keys (_devices_cache sm)) →
  NoDup (od_keys (_devices_cache (update_devices_info devices sm))).
Proof.
  intros Hnd. induction devices as [|d devices IH] using rev_ind; [done |].
  rewrite update_devices_info_snoc. destruct d.1 as [id|]; [| done].
  case_decide; [done |]. by apply od_set_NoDup.
Qed.

(** [update_devices_info] keeps one record per [deviceId]: a dict whose
    [deviceId] is missing or 0 is skipped, a dict whose [deviceId] is
    already known replaces the record of that id, and the last dict given
    for an id is the one found afterwards. [cached_devices] is the number
    of records, and the state cache is not touched. *)
Theorem update_devices_info_spec devices sm :
  NoDup (od_keys (_devices_cache sm)) →
  NoDup (od_keys (_devices_cache (update_devices_info devices sm))) ∧
  cached_devices (_stats (update_devices_info devices sm)) =
    length (_devices_cache (update_devices_info devices sm)) ∧
  _device_states_cache (update_devices_info devices sm) = _device_states_cache sm ∧
  (∀ d, registrable d = false →
     _devices_cache (update_devices_info (devices ++ [d]) sm) =
     _devices_cache (update_devices_info devices sm)) ∧
  (∀ id si, id ≠ 0%Z →
     od_get id (_devices_cache (update_devices_info (devices ++ [(Some id, si)]) sm)) =
       Some {| deviceId := id; device_si := si |} ∧
     length (_devices_cache (update_devices_info (devices ++ [(Some id, si)]) sm)) =
       match od_get id (_devices_cache (update_devices_info devices sm)) with
       | Some _ => length (_devices_cache (update_devices_info devices sm))
       | None => S (length (_devices_cache (update_devices_info devices sm)))
       end).
Proof.
  intros Hnd. split_and!; [by apply update_devices_info_NoDup | done | done | |].
  - intros [[id|] si] Hreg; rewrite update_devices_info_snoc; simpl; [| done].
    unfold registrable in Hreg. simpl in Hreg.
    apply bool_decide_eq_false in Hreg. case_decide; [done |]. by destruct Hreg.
  - intros id si Hid. rewrite update_devices_info_snoc. simpl.
    rewrite decide_False by done. split; [apply od_get_set_eq | apply od_set_length].
Qed.

Lemma update_devices_info_spec_witness :
  od_get 3%Z (_devices_cache
                (update_devices_info ([(Some 3%Z, Some 5%Z)] ++ [(Some 3%Z, Some 6%Z)])
                   init)) =
  Some {| deviceId := 3; device_si := Some 6%Z |}.
Proof.
  destruct (update_devices_info_spec [(Some 3%Z, Some 5%Z)] init (NoDup_nil_2 (A:=Z)))
    as (_ & _ & _ & _ & Hlast).
  by destruct (Hlast 3%Z (Some 6%Z)) as [-> _].
Defined.

Lemma find_device_app devices more si :
  is_Some (find_device devices si) →
  find_device (devices ++ more) si = find_device devices si.
Proof.
  unfold find_device. induction devices as [|[id d] devices IH]; simpl.
  - by intros [? [=]].
  - case_decide; [done |]. intros Hsome.
    destruct (list_find _ devices) as [[i x]|] eqn:Hfind; simpl in *;
      [| by destruct Hsome as [? [=]]].
    assert (is_Some (Some (i, x) ≫= λ r : nat * (Z * DeviceInfo), Some r.2.2))
      as Hs by (simpl; eauto).
    specialize (IH Hs).
    destruct (list_find _ (devices ++ more)) as [[j y]|]; simpl in *; [done | done].
Qed.

(** When a device record with a given [si] is registered, registering
    another device under a new [deviceId] never changes which record
    [force_update_device] and [process_state_update] report for that
    [si]: the first one registered stays the one that is found. *)
Theorem find_device_first_registered devices id d si :
  od_get id devices = None → is_Some (find_device devices si) →
  find_device (od_set id d devices) si = find_device devices si.
Proof.
  intros Hnew Hsome. rewrite od_set_absent by done. by apply find_device_app.
Qed.

Lemma find_device_first_registered_witness :
  find_device (od_set 4%Z {| deviceId := 4; device_si := Some 5%Z |}
                 [(3%Z, {| deviceId := 3; device_si := Some 5%Z |})]) 5 =
  Some {| deviceId := 3; device_si := Some 5%Z |}.
Proof.
  rewrite find_device_first_registered; [reflexivity | reflexivity | by eexists].
Defined.

(** *** [clear_cache] *)

(** [clear_cache] forgets every cached state and every device record,
    keeps the listeners, the trace of calls and [last_update_time]; after
    it, every device a batch brings is reported as new as well as changed,
    and a forced update is stored without any listener being called. *)
Theorem clear_cache_spec sm :
  (∀ si fn, get_device_state (clear_cache sm) si fn = None) ∧
  _state_listeners (clear_cache sm) = _state_listeners sm ∧
  delivered (clear_cache sm) = delivered sm ∧
  last_update_time (_stats (clear_cache sm)) = last_update_time (_stats sm) ∧
  (∀ now batch changes,
     (process_state_update now batch (clear_cache sm)).1.2 = Some changes →
     new_devices changes = changed_devices changes ∧
     ∀ si, si ∈ new_devices changes ↔ si ∈ od_keys (_organize_states_data now batch)) ∧
  (∀ now si fn v,
     delivered (force_update_device now si fn v (clear_cache sm)) = delivered sm).
Proof.
  split_and!; try done.
  intros now batch changes Hres.
  destruct (decide (batch = [])) as [->|Hne]; [done |].
  destruct (process_state_update_nonempty now batch (clear_cache sm) Hne) as [Hfst _].
  rewrite Hfst in Hres. injection Hres as <-. simpl.
  destruct (compare_foldl_devices ∅ (_organize_states_data now batch) no_changes)
    as (Hsub & _ & _ & Hnew & Hchanged); [done | done | done |].
  fold (_compare_states ∅ (_organize_states_data now batch)) in *.
  assert (∀ si, si ∈ new_devices (_compare_states ∅ (_organize_states_data now batch)) ↔
                si ∈ od_keys (_organize_states_data now batch)) as Hiff.
  { intros si. rewrite Hnew. simpl. rewrite elem_of_empty, lookup_empty. tauto. }
  split; [| done].
  apply set_eq. intros si. split; [apply Hsub |].
  intros [Hsi|Hsi]%Hchanged; [by apply elem_of_empty in Hsi | by apply Hiff].
Qed.

Lemma clear_cache_spec_witness :
  ∃ changes,
    (process_state_update 9 [scenario_entry]
       (clear_cache (process_state_update 1 [scenario_entry] init).2)).1.2 =
      Some changes ∧
    new_devices changes = changed_devices changes.
Proof.
  eexists. split; [reflexivity |].
  destruct (clear_cache_spec (process_state_update 1 [scenario_entry] init).2)
    as (_ & _ & _ & _ & Hnew & _).
  by destruct (Hnew 9%Z [scenario_entry] _ eq_refl) as [-> _].
Defined.

(** *** Listeners *)

Lemma remove_first_absent listener listeners :
  listener ∉ listeners → remove_first listener listeners = listeners.
Proof.
  induction listeners as [|l rest IH]; [done |].
  intros [Hne Hrest]%not_elem_of_cons. simpl.
  rewrite decide_False by done. by rewrite IH.
Qed.

Lemma remove_first_app listener before after :
  listener ∉ before →
  remove_first listener (before ++ listener :: after) = before ++ after.
Proof.
  induction before as [|l rest IH]; simpl.
  - intros _. by rewrite decide_True.
  - intros [Hne Hrest]%not_elem_of_cons. rewrite decide_False by done.
    by rewrite IH.
Qed.

(** [remove_state_listener] takes away one registration of the listener,
    the earliest, and nothing else: removing a listener that is not
    registered changes nothing; the listeners before and after the
    earliest registration keep their order; adding a listener and removing
    it again gives back the list of listeners when the listener was not
    registered before -- and when it was, it is the older registration
    that goes, so the listener is still registered. The caches and the
    record of calls are never touched. *)
Theorem remove_state_listener_spec listener sm :
  (listener ∉ _state_listeners sm →
   _state_listeners (remove_state_listener listener sm) = _state_listeners sm) ∧
  (∀ before after,
     _state_listeners sm = before ++ listener :: after → listener ∉ before →
     _state_listeners (remove_state_listener listener sm) = before ++ after) ∧
  (listener ∉ _state_listeners sm →
   _state_listeners (remove_state_listener listener (add_state_listener listener sm)) =
   _state_listeners sm) ∧
  (listener ∈ _state_listeners sm →
   listener ∈
     _state_listeners (remove_state_listener listener (add_state_listener listener sm))) ∧
  _device_states_cache (remove_state_listener listener sm) = _device_states_cache sm ∧
  _devices_cache (remove_state_listener listener sm) = _devices_cache sm ∧
  delivered (remove_state_listener listener sm) = delivered sm.
Proof.
  split_and!; try done.
  - apply remove_first_absent.
  - intros before after Heq Hfresh. simpl. rewrite Heq.
    by apply remove_first_app.
  - intros Hfresh. simpl. rewrite remove_first_app by done. apply app_nil_r.
  - intros Hin. simpl.
    induction (_state_listeners sm) as [|l rest IH]; [by apply elem_of_nil in Hin |].
    simpl. case_decide as Hl; [apply elem_of_app; right; by left |].
    right. apply IH. by apply elem_of_cons in Hin as [->|?].
Qed.

Lemma remove_state_listener_spec_witness :
  _state_listeners
    (remove_state_listener 0
       (add_state_listener 0 (add_state_listener 1 (add_state_listener 0 init)))) =
  [1; 0].
Proof.
  destruct (remove_state_listener_spec 0
              (add_state_listener 0 (add_state_listener 1 (add_state_listener 0 init))))
    as (_ & Hfirst & _).
  by apply (Hfirst [] [1; 0]); [| apply not_elem_of_nil].
Defined.

End state_manager_more.

(** ** polling_bus.py: the loop over whole runs *)

Module polling_bus_more.
Import polling_bus polling_bus_facts.

Local Open Scope Z_scope.

(** *** The counters and the trace *)

Lemma execute_poll_accounted now bus : accounted bus → accounted (_execute_poll now bus).
Proof.
  intros (Hlong & Hshort & Hlast). unfold accounted, polls_in. simpl.
  rewrite !filter_app, !length_app, last_snoc. simpl.
  rewrite !filter_cons, !filter_nil. simpl.
  destruct (current_mode bus); repeat case_decide; simpl; try done;
    unfold polls_in in *; split_and!; try done; lia.
Qed.

Lemma calculate_polls now bus :
  stats (_calculate_next_poll_time now bus) = stats bus ∨
  stats (_calculate_next_poll_time now bus) = count_switch (stats bus).
Proof.
  unfold _calculate_next_poll_time. destruct (current_mode bus); [by left |].
  case_decide; [by right | by left].
Qed.

Lemma calculate_accounted now bus :
  accounted bus → accounted (_calculate_next_poll_time now bus).
Proof.
  unfold accounted, _calculate_next_poll_time.
  destruct (current_mode bus); [done |]. by case_decide.
Qed.

Lemma after_sleep_accounted now bus : accounted bus → accounted (after_sleep now bus).
Proof.
  intros Hacc. unfold after_sleep. destruct (is_running bus); [| done].
  by apply execute_poll_accounted.
Qed.

Lemma loop_head_accounted now bus : accounted bus → accounted (loop_head now bus).
Proof.
  intros Hacc. unfold loop_head. destruct (is_running bus); [| done].
  case_decide; [done |]. by apply after_sleep_accounted.
Qed.

Lemma apply_op_accounted bus op : accounted bus → accounted (apply_op bus op).
Proof.
  intros Hacc. destruct op as [now| |now|now|now|now]; simpl.
  - unfold start. by destruct (is_running bus).
  - done.
  - unfold accounted. simpl. by case_decide.
  - unfold extend_short_polling. case_decide; [| done].
    unfold accounted. simpl. by case_decide.
  - unfold set_short_polling_mode, extend_short_polling.
    repeat case_decide; try done; unfold accounted; simpl; by case_decide.
  - unfold resume. destruct (polling_task bus); simpl; try done.
    + by apply loop_head_accounted.
    + case_decide; simpl; [by apply after_sleep_accounted | done].
    + by apply loop_head_accounted, calculate_accounted.
Qed.

(** In every run of a bus -- started, stopped, triggered and extended at
    will, its loop running whenever it can -- the counters of [stats]
    agree with the calls of the query callback: [long_polling_count] and
    [short_polling_count] are the numbers of polls made in each mode, and
    [last_poll_time] is the time of the last poll. *)
Theorem poll_accounting cfg ops :
  long_polling_count (stats (foldl apply_op (new cfg) ops)) =
    length (polls_in long (polls (foldl apply_op (new cfg) ops))) ∧
  short_polling_count (stats (foldl apply_op (new cfg) ops)) =
    length (polls_in short (polls (foldl apply_op (new cfg) ops))) ∧
  last_poll_time (stats (foldl apply_op (new cfg) ops)) =
    fst <$> last (polls (foldl apply_op (new cfg) ops)).
Proof.
  change (accounted (foldl apply_op (new cfg) ops)).
  assert (accounted (new cfg)) as Hnew by done.
  revert Hnew. generalize (new cfg).
  induction ops as [|op ops IH]; intros bus Hacc; [done |].
  cbn [foldl]. by apply IH, apply_op_accounted.
Qed.

(** *** After [stop] *)

Lemma stop_halted bus : halted (stop bus).
Proof. split; [done |]. simpl. destruct (polling_task bus); auto. Qed.

Lemma apply_op_halted bus op :
  halted bus → ¬ is_start op →
  halted (apply_op bus op) ∧ polls (apply_op bus op) = polls bus.
Proof.
  intros [Hrun Htask] Hop. destruct op as [now| |now|now|now|now]; simpl in *.
  - done.
  - split; [apply stop_halted | done].
  - done.
  - unfold extend_short_polling. by case_decide.
  - unfold set_short_polling_mode, extend_short_polling, halted.
    destruct (current_mode bus) eqn:Hmode; repeat case_decide; simpl; try done.
  - unfold resume, halted.
    destruct Htask as [Htask|Htask]; rewrite Htask; simpl; rewrite Htask; auto.
Qed.

Lemma run_halted ops bus :
  halted bus → Forall (λ op, ¬ is_start op) ops →
  halted (foldl apply_op bus ops) ∧ polls (foldl apply_op bus ops) = polls bus.
Proof.
  revert bus. induction ops as [|op ops IH]; intros bus Hhalted Hops; [done |].
  apply Forall_cons in Hops as [Hop Hops]. cbn [foldl].
  destruct (apply_op_halted bus op Hhalted Hop) as [Hhalted' <-].
  by apply IH.
Qed.

(** After [stop] the query callback is not called again until [start]:
    whatever the bus was doing, in every run without [start] that follows
    the stop -- triggers, extensions, further stops, turns offered to the
    loop at any time -- no poll is made, the bus stays stopped and its
    task never runs. The same holds for a bus that was never started. *)
Theorem no_poll_after_stop bus ops :
  Forall (λ op, ¬ is_start op) ops →
  polls (foldl apply_op (stop bus) ops) = polls bus ∧
  is_running (foldl apply_op (stop bus) ops) = false ∧
  (∀ now, resume now (foldl apply_op (stop bus) ops) = None) ∧
  (∀ cfg, polls (foldl apply_op (new cfg) ops) = []).
Proof.
  intros Hops.
  destruct (run_halted ops (stop bus) (stop_halted bus) Hops) as [[Hrun Htask] Hpolls].
  split_and!; [done | done | |].
  - intros now. unfold resume. by destruct Htask as [->| ->].
  - intros cfg. by destruct (run_halted ops (new cfg)) as [_ ->]; [split; auto | |].
Qed.

Lemma no_poll_after_stop_witness :
  polls (foldl apply_op
           (stop (default (new scenario_config)
                    (resume 0 (start 0 (new scenario_config)))))
           [OpTrigger 2000; OpResume 3000; OpResume 15000; OpStop; OpResume 20000]) = [].
Proof.
  destruct (no_poll_after_stop
              (default (new scenario_config) (resume 0 (start 0 (new scenario_config))))
              [OpTrigger 2000; OpResume 3000; OpResume 15000; OpStop; OpResume 20000])
    as [-> _]; [| reflexivity].
  repeat constructor; simpl; tauto.
Defined.

(** *** The period of the loop *)

(** When the query of a poll returns at [now] on a running bus, the loop
    recomputes [next_poll_time] and goes round. If the new time is later
    than [now], the loop sleeps until exactly then: it cannot run earlier,
    and when it runs it polls, in the mode the bus has at that moment. If
    the interval that applies is zero or negative, the loop does not sleep
    at all: it polls again at once, at the same clock reading. *)
Theorem loop_period now bus :
  is_running bus = true → polling_task bus = Querying →
  ∃ bus',
    resume now bus = Some bus' ∧
    next_poll_time bus' = next_poll_time (_calculate_next_poll_time now bus) ∧
    (now < next_poll_time bus' →
     polling_task bus' = Sleeping (next_poll_time bus') ∧
     polls bus' = polls bus ∧
     (∀ t, t < next_poll_time bus' → resume t bus' = None) ∧
     (∀ t, next_poll_time bus' ≤ t →
        polls <$> resume t bus' = Some (polls bus ++ [(t, current_mode bus')]))) ∧
    (next_poll_time bus' ≤ now →
     polling_task bus' = Querying ∧
     polls bus' = polls bus ++ [(now, current_mode bus')]).
Proof.
  intros Hrun Htask. unfold resume at 1. rewrite Htask. eexists. split; [done |].
  set (bus1 := _calculate_next_poll_time now bus).
  assert (is_running bus1 = true) as Hrun1.
  { unfold bus1, _calculate_next_poll_time.
    destruct (current_mode bus); [done |]. by case_decide. }
  assert (polls bus1 = polls bus) as Hpolls1.
  { unfold bus1, _calculate_next_poll_time.
    destruct (current_mode bus); [done |]. by case_decide. }
  destruct (loop_head_keeps_schedule now bus1) as (Hmode & Hnext & _).
  split; [done |]. rewrite Hnext.
  unfold loop_head in *. rewrite Hrun1 in *. split.
  - intros Hlater. rewrite decide_True in * by lia. simpl.
    replace (now + (next_poll_time bus1 - now)) with (next_poll_time bus1) by lia.
    split_and!; [done | done | |].
    + intros t Ht. unfold resume. simpl. by rewrite decide_False by lia.
    + intros t Ht. unfold resume. simpl. rewrite decide_True by lia.
      unfold after_sleep. simpl. rewrite Hrun1. simpl. by rewrite Hpolls1.
  - intros Hdue. rewrite decide_False in * by lia.
    unfold after_sleep in *. rewrite Hrun1 in *. simpl. by rewrite Hpolls1.
Qed.

Lemma loop_period_witness :
  ∃ bus',
    resume 15100 (_execute_poll 15000 (start 0 (new scenario_config))) = Some bus' ∧
    polling_task bus' = Sleeping 30100.
Proof.
  destruct (loop_period 15100 (_execute_poll 15000 (start 0 (new scenario_config)))
              eq_refl eq_refl) as (bus' & Hres & Hnext & Hsleep & _).
  exists bus'. split; [exact Hres |].
  assert (next_poll_time bus' = 30100) as Heq by (rewrite Hnext; reflexivity).
  rewrite Heq in Hsleep. by destruct Hsleep as [-> _]; [lia |].
Defined.

(** *** The one entry point for a burst *)

(** [set_short_polling_mode], the call other components use, does what
    [extend_short_polling] does, whatever the mode. Afterwards the mode is
    short and the burst ends [short_polling_duration] from now. In long
    mode the next poll is set [short_polling_interval] from now and one
    mode switch is counted; in short mode [next_poll_time] and the
    counters are left alone, so a run of operations during a burst never
    postpones the poll that is due. Neither case touches the task. *)
Theorem set_short_polling_mode_spec now bus :
  set_short_polling_mode now bus = extend_short_polling now bus ∧
  current_mode (set_short_polling_mode now bus) = short ∧
  short_polling_end_time (set_short_polling_mode now bus) =
    now + short_polling_duration (config bus) ∧
  last_operation_time (set_short_polling_mode now bus) = now ∧
  next_poll_time (set_short_polling_mode now bus) =
    (if decide (current_mode bus = short) then next_poll_time bus
     else now + short_polling_interval (config bus)) ∧
  mode_switches (stats (set_short_polling_mode now bus)) =
    (if decide (current_mode bus = short) then mode_switches (stats bus)
     else S (mode_switches (stats bus))) ∧
  polling_task (set_short_polling_mode now bus) = polling_task bus ∧
  polls (set_short_polling_mode now bus) = polls bus.
Proof.
  unfold set_short_polling_mode, extend_short_polling.
  destruct (current_mode bus) eqn:Hmode; repeat case_decide; try done;
    unfold trigger_short_polling; simpl; rewrite ?Hmode;
    repeat case_decide; by split_and!.
Qed.

End polling_bus_more.

(** ** throttled_action_bus.py: whole runs of the bus *)

Module throttled_action_bus_more.
Import throttled_action_bus throttled_action_bus_facts.

(** *** Every action is counted once *)

Lemma with_status_app s actions more :
  length (with_status s (actions ++ more)) =
  length (with_status s actions) + length (with_status s more).
Proof. unfold with_status. by rewrite filter_app, length_app. Qed.

Lemma with_status_cancel s queue :
  length (with_status s (cancel <$> queue)) =
  if decide (s = CANCELLED) then length queue else 0.
Proof.
  unfold with_status. induction queue as [|action rest IH]; [by case_decide |].
  rewrite fmap_cons, filter_cons. simpl.
  destruct (decide (CANCELLED = s)) as [<-|Hne].
  - simpl. rewrite IH. by rewrite decide_True.
  - rewrite IH. by rewrite !decide_False.
Qed.

Lemma with_status_settle s outcome action :
  length (with_status s [settle outcome action]) =
  if decide (s = match outcome with Returned true => COMPLETED | _ => FAILED end)
  then 1 else 0.
Proof.
  unfold with_status. rewrite filter_cons, filter_nil. simpl.
  repeat case_decide; simpl; congruence.
Qed.

Lemma new_accounted : accounted new.
Proof. by split_and!. Qed.

Lemma apply_event_accounted event bus bus' :
  event ≠ ClearStats → accounted bus → apply_event event bus = Some bus' →
  accounted bus'.
Proof.
  intros Hev (Htotal & Hok & Hfailed & Hcancelled & Hdone & Hmax & Hmax') Hstep.
  destruct event as [| |now device_id st si fn fv target| |trigger|now outcome|];
    simpl in Hstep.
  - injection Hstep as <-. by split_and!.
  - injection Hstep as <-. unfold accounted, in_flow in *. simpl.
    rewrite !with_status_app, !with_status_cancel, length_app, length_fmap. simpl.
    split_and!; lia.
  - injection Hstep as <-. unfold submit_action.
    destruct (_is_running bus); simpl; [| by split_and!].
    destruct (_occupied_devices bus !! target); simpl; [by split_and! |].
    unfold accounted, in_flow in *. simpl. rewrite length_app. simpl.
    case_decide; split_and!; lia.
  - unfold acquire in Hstep.
    destruct (processor bus) eqn:Hp; [| done | done].
    destruct (waiting_tasks bus); [done |].
    injection Hstep as <-. unfold accounted, in_flow in *. simpl.
    rewrite Hp in Htotal. by split_and!.
  - destruct (processor bus) eqn:Hp; [done | | done].
    injection Hstep as <-. unfold process_next, accounted, in_flow in *.
    rewrite Hp in Htotal.
    destruct (_action_queue bus) as [|action rest]; simpl in *; [by split_and! |].
    destruct (_is_running bus); simpl; split_and!; lia.
  - destruct (processor bus) as [| |action] eqn:Hp; [done | done |].
    injection Hstep as <-. unfold accounted, in_flow in *. simpl.
    rewrite Hp in Htotal.
    rewrite !with_status_app, !with_status_settle, length_app. simpl.
    destruct outcome as [[]|]; simpl; split_and!; lia.
  - done.
Qed.

Lemma run_accounted events bus bus' :
  ClearStats ∉ events → accounted bus → run events bus = Some bus' → accounted bus'.
Proof.
  revert bus. induction events as [|event rest IH]; intros bus Hnc Hacc Hrun;
    simpl in Hrun.
  - by injection Hrun as <-.
  - apply not_elem_of_cons in Hnc as [Hev Hrest].
    destruct (apply_event event bus) as [bus1|] eqn:Hstep; [| done].
    simpl in Hrun. eapply IH; [done | | done]. by eapply apply_event_accounted.
Qed.

Lemma new_not_overcounted : not_overcounted new.
Proof. unfold not_overcounted. simpl. by split_and!. Qed.

Lemma apply_event_not_overcounted event bus bus' :
  not_overcounted bus → apply_event event bus = Some bus' → not_overcounted bus'.
Proof.
  intros (Htotal & Hok & Hfailed & Hcancelled) Hstep.
  destruct event as [| |now device_id st si fn fv target| |trigger|now outcome|];
    simpl in Hstep.
  - injection Hstep as <-. by split_and!.
  - injection Hstep as <-. unfold not_overcounted, in_flow in *. simpl.
    rewrite !with_status_app, !with_status_cancel. simpl.
    split_and!; lia.
  - injection Hstep as <-. unfold submit_action.
    destruct (_is_running bus); simpl; [| by split_and!].
    destruct (_occupied_devices bus !! target); simpl; [by split_and! |].
    unfold not_overcounted, in_flow in *. simpl. rewrite length_app. simpl.
    split_and!; lia.
  - unfold acquire in Hstep.
    destruct (processor bus) eqn:Hp; [| done | done].
    destruct (waiting_tasks bus); [done |].
    injection Hstep as <-. unfold not_overcounted, in_flow in *. simpl.
    rewrite Hp in Htotal. by split_and!.
  - destruct (processor bus) eqn:Hp; [done | | done].
    injection Hstep as <-. unfold process_next, not_overcounted, in_flow in *.
    rewrite Hp in Htotal.
    destruct (_action_queue bus) as [|action rest]; simpl in *; [by split_and! |].
    destruct (_is_running bus); simpl; split_and!; lia.
  - destruct (processor bus) as [| |action] eqn:Hp; [done | done |].
    injection Hstep as <-. unfold not_overcounted, in_flow in *. simpl.
    rewrite Hp in Htotal.
    rewrite !with_status_app, !with_status_settle. simpl.
    destruct outcome as [[]|]; simpl; split_and!; lia.
  - injection Hstep as <-. unfold not_overcounted. simpl. split_and!; lia.
Qed.

Lemma run_not_overcounted events bus bus' :
  not_overcounted bus → run events bus = Some bus' → not_overcounted bus'.
Proof.
  revert bus. induction events as [|event rest IH]; intros bus Hacc Hrun;
    simpl in Hrun.
  - by injection Hrun as <-.
  - destruct (apply_event event bus) as [bus1|] eqn:Hstep; [| done].
    simpl in Hrun. eapply IH; [| done]. by eapply apply_event_not_overcounted.
Qed.

(** On every bus reached from a new one without [clear_stats], whatever
    was started, stopped, submitted and executed: every action ever
    accepted is either still queued, or executing, or has left the bus
    exactly once, as completed, failed or cancelled, and the counters say
    so. [total_actions] is the sum of the three outcome counters, the
    queue length and the action in its flow; each outcome counter is the
    number of actions that left with that status; [queue_max_length] is
    at least the current queue length and at most [total_actions].
    [clear_stats] sets the counters to zero whatever is queued or
    executing, so after it these equalities are lost; what holds on every
    reachable bus, cleared or not, is that no counter counts more than
    there is. *)
Theorem statistics_account_for_every_action events bus :
  run events new = Some bus →
  (total_actions (_stats bus) ≤
     successful_actions (_stats bus) + failed_actions (_stats bus) +
     cancelled_actions (_stats bus) + length (_action_queue bus) + in_flow bus ∧
   successful_actions (_stats bus) ≤ length (with_status COMPLETED (finished bus)) ∧
   failed_actions (_stats bus) ≤ length (with_status FAILED (finished bus)) ∧
   cancelled_actions (_stats bus) ≤ length (with_status CANCELLED (finished bus))) ∧
  (ClearStats ∉ events →
   total_actions (_stats bus) =
     successful_actions (_stats bus) + failed_actions (_stats bus) +
     cancelled_actions (_stats bus) + length (_action_queue bus) + in_flow bus ∧
   successful_actions (_stats bus) = length (with_status COMPLETED (finished bus)) ∧
   failed_actions (_stats bus) = length (with_status FAILED (finished bus)) ∧
   cancelled_actions (_stats bus) = length (with_status CANCELLED (finished bus)) ∧
   length (finished bus) =
     successful_actions (_stats bus) + failed_actions (_stats bus) +
     cancelled_actions (_stats bus) ∧
   length (_action_queue bus) ≤ queue_max_length (_stats bus) ∧
   queue_max_length (_stats bus) ≤ total_actions (_stats bus)).
Proof.
  intros Hrun. split.
  - exact (run_not_overcounted events new bus new_not_overcounted Hrun).
  - intros Hnc. exact (run_accounted events new bus Hnc new_accounted Hrun).
Qed.

Lemma statistics_account_for_every_action_witness :
  total_actions (_stats scenario_bus) = 1 ∧ in_flow scenario_bus = 1.
Proof.
  destruct (statistics_account_for_every_action scenario_events scenario_bus eq_refl)
    as (_ & Hexact).
  destruct Hexact as (Htotal & _).
  - unfold scenario_events. rewrite !not_elem_of_cons.
    split_and!; try discriminate. apply not_elem_of_nil.
  - split; [| reflexivity]. rewrite Htotal. reflexivity.
Defined.

(** *** No queued action is left without a task *)

Lemma apply_event_attended event bus bus' :
  consistent bus → attended bus → apply_event event bus = Some bus' → attended bus'.
Proof.
  intros (Hstopped & _ & _) Hatt Hstep. unfold attended in *.
  destruct event as [| |now device_id st si fn fv target| |trigger|now outcome|];
    simpl in Hstep.
  - by injection Hstep as <-.
  - by injection Hstep as <-.
  - injection Hstep as <-. unfold submit_action.
    destruct (_is_running bus); simpl; [| done].
    destruct (_occupied_devices bus !! target); simpl; [done |].
    intros _. rewrite length_app. simpl. case_decide as Hlen; [right; lia |].
    destruct (_action_queue bus) as [|action rest]; [done |].
    destruct Hatt as [?|?]; [done | by left | by right].
  - unfold acquire in Hstep.
    destruct (processor bus) eqn:Hp; [| done | done].
    destruct (waiting_tasks bus); [done |].
    injection Hstep as <-. simpl. by left.
  - destruct (processor bus) eqn:Hp; [done | | done].
    injection Hstep as <-. unfold process_next.
    destruct (_action_queue bus) as [|action rest] eqn:Hq; [done |].
    destruct (_is_running bus) eqn:Hr; simpl; [by left |].
    by destruct (Hstopped eq_refl).
  - destruct (processor bus) as [| |action] eqn:Hp; [done | done |].
    injection Hstep as <-. simpl. by left.
  - by injection Hstep as <-.
Qed.

Lemma run_attended events bus bus' :
  consistent bus → attended bus → run events bus = Some bus' → attended bus'.
Proof.
  revert bus. induction events as [|event rest IH]; intros bus Hc Hatt Hrun;
    simpl in Hrun.
  - by injection Hrun as <-.
  - destruct (apply_event event bus) as [bus1|] eqn:Hstep; [| done].
    simpl in Hrun. eapply IH; [| | done].
    + by eapply apply_event_consistent.
    + by eapply apply_event_attended.
Qed.

(** On every bus reached from a new one, a queued action is never left
    behind: while the queue is not empty the bus is running and a
    [_process_queue] task holds the lock or waits for it, so a step of
    the processing side -- taking the lock, the loop test, or the end of
    the current flow -- can always happen. This holds although a task is
    created only by the submission that makes the queue length 1. *)
Theorem queued_action_has_a_task events bus :
  run events new = Some bus → _action_queue bus ≠ [] →
  _is_running bus = true ∧
  (processor bus ≠ Idle ∨ 0 < waiting_tasks bus) ∧
  (is_Some (apply_event Acquire bus) ∨
   (∀ trigger, is_Some (apply_event (Loop trigger) bus)) ∨
   (∀ now outcome, is_Some (apply_event (Finish now outcome) bus))).
Proof.
  intros Hrun Hq.
  pose proof (run_consistent _ _ _ new_consistent Hrun) as Hc.
  assert (attended new) as Hnew by (unfold attended; simpl; congruence).
  pose proof (run_attended _ _ _ new_consistent Hnew Hrun Hq) as Hatt.
  destruct Hc as (Hstopped & _ & _).
  split_and!; [| done |].
  - destruct (_is_running bus); [done |]. by destruct (Hstopped eq_refl).
  - simpl. unfold acquire.
    destruct (processor bus) eqn:Hp; [| right; left; eauto | right; right; eauto].
    left. destruct Hatt as [?|Hw]; [done |].
    destruct (waiting_tasks bus); [lia | eauto].
Qed.

Lemma queued_action_has_a_task_witness :
  ∃ bus,
    run [Start; Submit 1000 7 10101 5 1 1 "light.hall"] new = Some bus ∧
    0 < waiting_tasks bus.
Proof.
  eexists. split; [reflexivity |].
  destruct (queued_action_has_a_task
              [Start; Submit 1000 7 10101 5 1 1 "light.hall"] _ eq_refl)
    as (_ & [Hp|Hw] & _); [done | by destruct Hp | exact Hw].
Defined.

(** *** The queue is served in order *)

Lemma foldl_delete_lookup (queue : list DeviceAction) (occupied : gmap string string)
    target :
  foldl (λ m action, delete (entity_id action) m) occupied queue !! target =
  if decide (target ∈ entity_id <$> queue) then None else occupied !! target.
Proof.
  revert occupied. induction queue as [|action rest IH]; intros occupied.
  - by rewrite decide_False by apply not_elem_of_nil.
  - cbn [foldl]. rewrite IH, fmap_cons.
    destruct (decide (target = entity_id action)) as [->|Hne].
    + rewrite lookup_delete_eq. rewrite (decide_True (P := _ ∈ _ :: _)) by left.
      by case_decide.
    + rewrite lookup_delete_ne by done.
      destruct (decide (target ∈ entity_id <$> rest)) as [Hin|Hout].
      * by rewrite decide_True by by right.
      * rewrite decide_False; [done |]. by intros [?|?]%elem_of_cons.
Qed.

Lemma drain steps trigger bus :
  processor bus = AtLoop → _is_running bus = true → _executing_action bus = None →
  length steps = length (_action_queue bus) →
  ∃ bus',
    run (flow_events steps ++ [Loop trigger]) bus = Some bus' ∧
    _action_queue bus' = [] ∧ processor bus' = Idle ∧ _executing_action bus' = None ∧
    _is_running bus' = true ∧
    finished bus' =
      finished bus ++
      zip_with (λ step action, settle step.2 (set_status EXECUTING action))
               steps (_action_queue bus) ∧
    _occupied_devices bus' =
      foldl (λ m action, delete (entity_id action) m) (_occupied_devices bus)
            (_action_queue bus) ∧
    burst_requests bus' =
      burst_requests bus + length (filter (λ step, step.1.1 = true) steps).
Proof.
  revert bus. induction steps as [|[[b t] o] steps IH]; intros bus Hp Hr He Hlen.
  - destruct (_action_queue bus) as [|??] eqn:Hq; [| done].
    eexists. simpl. rewrite Hp. split; [done |]. unfold process_next. rewrite Hq.
    simpl. rewrite app_nil_r. split_and!; try done; lia.
  - destruct (_action_queue bus) as [|action rest] eqn:Hq; [done |].
    injection Hlen as Hlen.
    set (bus2 := finish_flow t o (set_status EXECUTING action) (process_next b bus)).
    assert (_action_queue bus2 = rest) as Hq2.
    { unfold bus2, process_next. rewrite Hq, Hr. done. }
    destruct (IH bus2) as (bus' & Hrun & Hqueue & Hproc & Hexec & Hrun' & Hfin & Hocc & Hburst).
    { done. }
    { unfold bus2, process_next. by rewrite Hq, Hr. }
    { done. }
    { by rewrite Hq2. }
    exists bus'. split_and!; try done.
    + change (flow_events ((b, t, o) :: steps)) with
        ([Loop b; Finish t o] ++ flow_events steps).
      rewrite <- (assoc_L (++)). simpl. rewrite Hp. simpl.
      assert (processor (process_next b bus) = InFlow (set_status EXECUTING action))
        as -> by (unfold process_next; by rewrite Hq, Hr).
      simpl. exact Hrun.
    + rewrite Hfin, Hq2. unfold bus2, process_next. rewrite Hq, Hr. simpl.
      by rewrite <- (assoc_L (++)).
    + rewrite Hocc, Hq2. unfold bus2, process_next. rewrite Hq, Hr. done.
    + rewrite Hburst. unfold bus2, process_next. rewrite Hq, Hr. simpl.
      rewrite filter_cons. destruct b; simpl; lia.
Qed.

(** From the head of its loop on a running bus, the task that holds the
    lock serves the whole queue, oldest action first, one flow at a time:
    when every flow has ended -- by a success, a refusal or an exception,
    it makes no difference -- the queue is empty, the lock is free, the
    actions have left in the order they were queued, each with the status
    of its own outcome, the target of each is free again and no other
    target's occupancy was touched. *)
Theorem queue_served_in_order steps trigger bus :
  processor bus = AtLoop → _is_running bus = true → _executing_action bus = None →
  length steps = length (_action_queue bus) →
  ∃ bus',
    run (flow_events steps ++ [Loop trigger]) bus = Some bus' ∧
    _action_queue bus' = [] ∧ processor bus' = Idle ∧ _executing_action bus' = None ∧
    finished bus' =
      finished bus ++
      zip_with (λ step action, settle step.2 (set_status EXECUTING action))
               steps (_action_queue bus) ∧
    (∀ action, action ∈ _action_queue bus →
       is_device_occupied bus' (entity_id action) = false) ∧
    (∀ target, target ∉ entity_id <$> _action_queue bus →
       _occupied_devices bus' !! target = _occupied_devices bus !! target) ∧
    burst_requests bus' =
      burst_requests bus + length (filter (λ step, step.1.1 = true) steps).
Proof.
  intros Hp Hr He Hlen.
  destruct (drain steps trigger bus Hp Hr He Hlen)
    as (bus' & Hrun & Hqueue & Hproc & Hexec & _ & Hfin & Hocc & Hburst).
  exists bus'. split_and!; try done.
  - intros action Hin. unfold is_device_occupied.
    rewrite Hocc, foldl_delete_lookup, decide_True.
    + apply bool_decide_eq_false_2. by intros [? [=]].
    + apply list_elem_of_fmap. eauto.
  - intros target Hfresh. by rewrite Hocc, foldl_delete_lookup, decide_False.
Qed.

Lemma queue_served_in_order_witness :
  ∃ bus',
    run (flow_events [(true, 1250%Z, Returned true); (false, 1500%Z, Raised "timeout")]
         ++ [Loop true])
      (default new (run [Start; Submit 1000 7 10101 5 1 1 "light.hall";
                         Submit 1001 8 10101 6 1 0 "light.desk"; Acquire] new)) =
      Some bus' ∧
    status <$> finished bus' = [COMPLETED; FAILED].
Proof.
  destruct (queue_served_in_order
              [(true, 1250%Z, Returned true); (false, 1500%Z, Raised "timeout")] true
              (default new (run [Start; Submit 1000 7 10101 5 1 1 "light.hall";
                                 Submit 1001 8 10101 6 1 0 "light.desk"; Acquire] new))
              eq_refl eq_refl eq_refl eq_refl)
    as (bus' & Hrun & _ & _ & _ & Hfin & _).
  exists bus'. split; [exact Hrun |]. rewrite Hfin. reflexivity.
Defined.

(** *** [stop] while an action is executing *)

(** [stop] empties the occupancy map but ends no flow in progress. So
    whenever the bus is stopped and started again while an action is in
    its flow, the target of that action is free at once: a submission for
    it is accepted and queued although the old action still executes.
    When the old flow then ends, it deletes the occupancy entry of the
    target -- the entry of the new action -- and the task goes on to the
    new action without a break; so while the new action executes, the map
    has no entry for its target and one more submission for it is
    accepted: the target then has two live actions, one executing and one
    queued. *)
Theorem stop_frees_executing_target
    now now' device_id st si fn fv t outcome trigger action bus :
  processor bus = InFlow action →
  is_device_occupied (start (stop bus)) (entity_id action) = false ∧
  ∃ queued,
    submit_action now device_id st si fn fv (entity_id action) (start (stop bus)) =
      (inr (make_action_id now), queued) ∧
    processor queued = InFlow action ∧
    _action_queue queued =
      [pending_action now device_id st si fn fv (entity_id action)] ∧
    _executing_action (complete_flow t outcome trigger action queued) =
      Some (set_status EXECUTING
              (pending_action now device_id st si fn fv (entity_id action))) ∧
    _action_queue (complete_flow t outcome trigger action queued) = [] ∧
    is_device_occupied (complete_flow t outcome trigger action queued)
      (entity_id action) = false ∧
    (submit_action now' device_id st si fn fv (entity_id action)
       (complete_flow t outcome trigger action queued)).1 = inr (make_action_id now') ∧
    live_targets
      (submit_action now' device_id st si fn fv (entity_id action)
         (complete_flow t outcome trigger action queued)).2 =
      [entity_id action; entity_id action].
Proof.
  intros Hp. split; [done |].
  unfold submit_action at 1. simpl. rewrite lookup_empty.
  eexists. split; [done |]. simpl.
  split_and!; [done | done | done | done | | |].
  - unfold is_device_occupied. simpl. rewrite lookup_delete_eq.
    apply bool_decide_eq_false_2. by intros [? [=]].
  - unfold submit_action. simpl. by rewrite lookup_delete_eq.
  - unfold submit_action. simpl. by rewrite lookup_delete_eq.
Qed.

Lemma stop_frees_executing_target_witness :
  processor scenario_bus = InFlow scenario_action ∧
  is_device_occupied (start (stop scenario_bus)) "light.hall" = false.
Proof.
  split; [reflexivity |].
  by destruct (stop_frees_executing_target 1100 1400 7 10101 5 1 0 1250 (Returned true)
                 true scenario_action scenario_bus eq_refl) as [Hfree _].
Defined.

(** *** [get_device_action_status] *)

Lemma new_tracked : tracked new.
Proof. split; [by intros ? ?%elem_of_nil | done]. Qed.

Lemma apply_event_tracked event bus bus' :
  event ≠ Stop → exclusive bus → tracked bus → apply_event event bus = Some bus' →
  tracked bus'.
Proof.
  intros Hev (Hnd & _ & Hflow) [Hqueue Hexec] Hstep. unfold live_targets in Hnd.
  destruct event as [| |now device_id st si fn fv target| |trigger|now outcome|];
    simpl in Hstep.
  - by injection Hstep as <-.
  - done.
  - injection Hstep as <-.
    destruct (submit_action_cases now device_id st si fn fv target bus)
      as [[_ ->]|[(_ & existing & _ & ->)|(_ & Hnone & _ & Hq & Ho & He & _)]];
      [done | done |].
    split.
    + intros action. rewrite Hq, Ho.
      intros [Hin| ->%list_elem_of_singleton]%elem_of_app.
      * rewrite lookup_insert_ne; [by apply Hqueue |].
        intros ->. specialize (Hqueue action Hin). congruence.
      * simpl. by rewrite lookup_insert_eq.
    + intros action. rewrite He, Ho. intros Hin.
      rewrite lookup_insert_ne; [by apply Hexec |].
      intros ->. specialize (Hexec action Hin). congruence.
  - unfold acquire in Hstep.
    destruct (processor bus) eqn:Hp; [| done | done].
    destruct (waiting_tasks bus); [done |].
    by injection Hstep as <-.
  - destruct (processor bus) eqn:Hp; [done | | done].
    injection Hstep as <-. unfold process_next.
    destruct (_action_queue bus) as [|action rest] eqn:Hq; [done |].
    destruct (_is_running bus) eqn:Hr; [| by split].
    split; simpl.
    + intros action' Hin. apply Hqueue. by right.
    + intros action' [= <-]. simpl. apply Hqueue. by left.
  - destruct (processor bus) as [| |action] eqn:Hp; [done | done |].
    injection Hstep as <-. rewrite Hflow in Hnd.
    apply NoDup_app in Hnd as (_ & Hfresh & _).
    split; simpl; [| done].
    intros action' Hin. rewrite lookup_delete_ne; [by apply Hqueue |].
    intros Heq. apply (Hfresh (entity_id action')).
    + apply list_elem_of_fmap. eauto.
    + rewrite Heq. by left.
  - by injection Hstep as <-.
Qed.

Lemma run_tracked events bus bus' :
  Stop ∉ events → exclusive bus → tracked bus → run events bus = Some bus' →
  tracked bus'.
Proof.
  revert bus. induction events as [|event rest IH]; intros bus Hns Hx Ht Hrun;
    simpl in Hrun.
  - by injection Hrun as <-.
  - apply not_elem_of_cons in Hns as [Hev Hrest].
    destruct (apply_event event bus) as [bus1|] eqn:Hstep; [| done].
    simpl in Hrun. eapply IH; [done | | | done].
    + by eapply apply_event_exclusive.
    + by eapply apply_event_tracked.
Qed.

Lemma pending_found (queue : list DeviceAction) action :
  action ∈ queue →
  existsb (λ queued, bool_decide (action_id queued = action_id action)) queue = true.
Proof.
  intros Hin. apply existsb_exists. exists action.
  split; [by apply list_elem_of_In | by apply bool_decide_eq_true_2].
Qed.

(** On a bus that was never stopped, [get_device_action_status] answers
    [None] exactly for the targets without a queued or executing action,
    and never ["unknown"]. For the target of the executing action it
    answers ["executing"]. For the target of a queued action it answers
    ["pending"] when the executing action, if any, has another id -- and
    ["executing"] when it has the same id, which is what happens when the
    two were submitted within the same millisecond. *)
Theorem get_device_action_status_spec events bus target :
  run events new = Some bus → Stop ∉ events →
  (get_device_action_status bus target = None ↔ target ∉ live_targets bus) ∧
  get_device_action_status bus target ≠ Some "unknown" ∧
  (∀ action,
     _executing_action bus = Some action → entity_id action = target →
     get_device_action_status bus target = Some "executing") ∧
  (∀ action,
     action ∈ _action_queue bus → entity_id action = target →
     get_device_action_status bus target =
     Some (if is_executing bus (action_id action) then "executing" else "pending")).
Proof.
  intros Hrun Hns.
  pose proof (run_exclusive _ _ _ Hns new_exclusive Hrun) as Hx.
  pose proof (run_tracked _ _ _ Hns new_exclusive new_tracked Hrun) as [Hqueue Hexec].
  destruct Hx as (_ & Hocc & _).
  assert (∀ action, action ∈ _action_queue bus → entity_id action = target →
            get_device_action_status bus target =
            Some (if is_executing bus (action_id action)
                  then "executing" else "pending")) as Hpending.
  { intros action Hin <-. unfold get_device_action_status.
    rewrite (Hqueue action Hin).
    destruct (is_executing bus (action_id action)); [done |].
    by rewrite pending_found. }
  assert (∀ action, _executing_action bus = Some action → entity_id action = target →
            get_device_action_status bus target = Some "executing") as Hexecuting.
  { intros action Hin <-. unfold get_device_action_status.
    rewrite (Hexec action Hin). unfold is_executing. rewrite Hin.
    by rewrite bool_decide_eq_true_2. }
  split_and!; [| | done | done].
  - rewrite Hocc. unfold get_device_action_status.
    destruct (_occupied_devices bus !! target) as [id|].
    + split; [by repeat case_match | intros []; eauto].
    + split; [by intros _ [? [=]] | done].
  - destruct (_occupied_devices bus !! target) as [id|] eqn:Hid;
      [| unfold get_device_action_status; by rewrite Hid].
    assert (target ∈ live_targets bus) as Hlive by (apply Hocc; eauto).
    unfold live_targets in Hlive.
    apply elem_of_app in Hlive as [(action & -> & Hin)%list_elem_of_fmap|Hlive].
    + rewrite (Hpending action Hin eq_refl). by destruct (is_executing _ _).
    + destruct (_executing_action bus) as [action|] eqn:He;
        [| by apply elem_of_nil in Hlive].
      apply list_elem_of_singleton in Hlive as ->.
      by rewrite (Hexecuting action eq_refl eq_refl).
Qed.

Lemma get_device_action_status_spec_witness :
  ∃ bus,
    run [Start; Submit 1000 7 10101 5 1 1 "light.hall";
         Submit 1000 8 10101 6 1 0 "light.desk"; Acquire; Loop true] new = Some bus ∧
    get_device_action_status bus "light.desk" = Some "executing" ∧
    get_device_action_status bus "light.door" = None.
Proof.
  eexists. split; [reflexivity |].
  match goal with
  | |- get_device_action_status ?bus _ = _ ∧ _ =>
      destruct (get_device_action_status_spec
                  [Start; Submit 1000 7 10101 5 1 1 "light.hall";
                   Submit 1000 8 10101 6 1 0 "light.desk"; Acquire; Loop true]
                  bus "light.desk" eq_refl) as (_ & _ & _ & Hqueued)
  end.
  { rewrite !not_elem_of_cons. split_and!; try discriminate. apply not_elem_of_nil. }
  split; [| reflexivity].
  rewrite (Hqueued (pending_action 1000 8 10101 6 1 0 "light.desk"));
    [reflexivity | by left | reflexivity].
Defined.

End throttled_action_bus_more.

(** ** mqtt_gateway.py: streams of messages, and [configure] *)

Module mqtt_gateway_more.
Import mqtt_gateway mqtt_gateway_facts.

(** *** What one message can do *)

Lemma handle_parsed_cases data gw :
  (∃ payload_data state_data,
     push_of payload_data (Parsed data) ∧
     _normalize_state_data payload_data = Some state_data ∧
     handle_parsed data gw = forward state_data gw) ∨
  handle_parsed data gw = gw ∨
  handle_parsed data gw = count_parse_error gw.
Proof.
  unfold handle_parsed.
  destruct (contains_payload data) as [[]|] eqn:Hcontains; [| by right; left | by right; right].
  destruct data as [| | | | |members]; try (by right; right).
  destruct (od_get "payload" members) as [[| | | | |payload_data]|] eqn:Hget;
    try (by right; left).
  destruct (_normalize_state_data payload_data) as [state_data|] eqn:Hnorm;
    [| by right; left].
  left. exists payload_data, state_data. split_and!; [| done | done].
  by exists members.
Qed.

(** Only a push message whose payload has all four fields reaches the
    state callback or is counted as parsed: if a message moves
    [messages_parsed] or the trace of forwarded batches, then its text is
    a JSON object whose ["payload"] member is an object in which [st],
    [si], [fn] and [fv] are all present and not null, and what is
    forwarded is one batch holding the one entry made of these four. *)
Theorem forwarded_only_valid_push now payload gw :
  messages_parsed (stats (_handle_message now payload gw)) ≠ messages_parsed (stats gw) ∨
  forwarded (_handle_message now payload gw) ≠ forwarded gw →
  ∃ payload_data state_data,
    push_of payload_data payload ∧
    _normalize_state_data payload_data = Some state_data ∧
    (∀ key, key ∈ required → is_Some (get key payload_data)) ∧
    messages_parsed (stats (_handle_message now payload gw)) =
      S (messages_parsed (stats gw)) ∧
    parse_errors (stats (_handle_message now payload gw)) = parse_errors (stats gw) ∧
    forwarded (_handle_message now payload gw) =
      if state_callback gw then forwarded gw ++ [[state_data]] else forwarded gw.
Proof.
  intros Hmoved. unfold _handle_message in *.
  destruct payload as [|data]; [by destruct Hmoved |].
  match type of Hmoved with
  | context [handle_parsed data ?gw1] =>
      destruct (handle_parsed_cases data gw1)
        as [(payload_data & state_data & Hpush & Hnorm & Heq)|[Heq|Heq]];
      rewrite Heq in *
  end; [| by destruct Hmoved | by destruct Hmoved].
  exists payload_data, state_data. split_and!; try done.
  intros key Hkey. destruct (get key payload_data) eqn:Hget; [done |].
  assert (_normalize_state_data payload_data = None) as Hnone
    by (apply normalize_None; eauto).
  congruence.
Qed.

Lemma forwarded_only_valid_push_witness :
  ∃ payload_data,
    push_of payload_data
      (push [("st", JNumber 10101); ("si", JNumber 5); ("fn", JNumber 1);
             ("fv", JNumber 0)]) ∧
    is_Some (get "fv" payload_data).
Proof.
  destruct (forwarded_only_valid_push 3
              (push [("st", JNumber 10101); ("si", JNumber 5); ("fn", JNumber 1);
                     ("fv", JNumber 0)]) (new true))
    as (payload_data & _ & Hpush & _ & Hall & _); [by right |].
  exists payload_data. split; [exact Hpush |].
  apply Hall. unfold required. by repeat constructor.
Defined.

Lemma array_contains_payload items :
  existsb (λ item, match item with
                   | JString s => bool_decide (s = "payload")
                   | _ => false
                   end) items = true ↔ JString "payload" ∈ items.
Proof.
  rewrite existsb_exists. split.
  - intros (item & Hin%list_elem_of_In & Hitem).
    destruct item as [| | |s| |]; try done.
    by apply bool_decide_eq_true in Hitem as ->.
  - intros Hin. exists (JString "payload").
    split; [by apply list_elem_of_In | by apply bool_decide_eq_true_2].
Qed.

(** What counts as a parse error: text that does not decode; a JSON
    null, boolean or number, on which the test ["payload" in data] raises;
    an array that has the string ["payload"] among its items and a string
    that contains it, on which [data["payload"]] raises. Other arrays and
    strings are dropped without a count, and a JSON object is never
    counted as an error, whatever it holds. *)
Theorem parse_errors_spec now gw :
  parse_errors (stats (_handle_message now Malformed gw)) = S (parse_errors (stats gw)) ∧
  (∀ members,
     parse_errors (stats (_handle_message now (Parsed (JObject members)) gw)) =
     parse_errors (stats gw)) ∧
  parse_errors (stats (_handle_message now (Parsed JNull) gw)) =
    S (parse_errors (stats gw)) ∧
  (∀ b, parse_errors (stats (_handle_message now (Parsed (JBool b)) gw)) =
        S (parse_errors (stats gw))) ∧
  (∀ n, parse_errors (stats (_handle_message now (Parsed (JNumber n)) gw)) =
        S (parse_errors (stats gw))) ∧
  (∀ items,
     (JString "payload" ∈ items →
      parse_errors (stats (_handle_message now (Parsed (JArray items)) gw)) =
      S (parse_errors (stats gw))) ∧
     (JString "payload" ∉ items →
      parse_errors (stats (_handle_message now (Parsed (JArray items)) gw)) =
      parse_errors (stats gw))) ∧
  (∀ s,
     parse_errors (stats (_handle_message now (Parsed (JString s)) gw)) =
     if bool_decide (is_Some (String.index 0 "payload" s))
     then S (parse_errors (stats gw)) else parse_errors (stats gw)).
Proof.
  split_and!; try done.
  - intros members. unfold _handle_message, handle_parsed. simpl.
    destruct (bool_decide _); [| done].
    destruct (od_get "payload" members) as [[| | | | |payload_data]|]; try done.
    by destruct (_normalize_state_data payload_data).
  - intros items. unfold _handle_message, handle_parsed. simpl. split.
    + intros Hin%array_contains_payload. by rewrite Hin.
    + intros Hout. destruct (existsb _ items) eqn:Hex; [| done].
      by apply array_contains_payload in Hex.
  - intros s. unfold _handle_message, handle_parsed. simpl.
    by destruct (bool_decide _).
Qed.

(** *** A stream of messages *)

Lemma handle_message_step now payload gw :
  state_callback (_handle_message now payload gw) = state_callback gw ∧
  messages_received (stats (_handle_message now payload gw)) =
    S (messages_received (stats gw)) ∧
  last_message_time (stats (_handle_message now payload gw)) = Some now ∧
  ((messages_parsed (stats (_handle_message now payload gw)) =
      S (messages_parsed (stats gw)) ∧
    parse_errors (stats (_handle_message now payload gw)) = parse_errors (stats gw) ∧
    ∃ state_data,
      forwarded (_handle_message now payload gw) =
      if state_callback gw then forwarded gw ++ [[state_data]] else forwarded gw) ∨
   (messages_parsed (stats (_handle_message now payload gw)) =
      messages_parsed (stats gw) ∧
    parse_errors (stats (_handle_message now payload gw)) ≤
      S (parse_errors (stats gw)) ∧
    parse_errors (stats gw) ≤
      parse_errors (stats (_handle_message now payload gw)) ∧
    forwarded (_handle_message now payload gw) = forwarded gw)).
Proof.
  unfold _handle_message. destruct payload as [|data].
  - split_and!; try done. right. simpl. split_and!; [done | lia | lia | done].
  - match goal with
    | |- context [handle_parsed data ?gw1] =>
        destruct (handle_parsed_cases data gw1)
          as [(payload_data & state_data & _ & _ & ->)|[->| ->]]
    end.
    + split_and!; try done. left. split_and!; try done. by exists state_data.
    + split_and!; try done. right. simpl. split_and!; [done | lia | lia | done].
    + split_and!; try done. right. simpl. split_and!; [done | lia | lia | done].
Qed.

Lemma handle_messages_snoc stream now payload gw :
  handle_messages (stream ++ [(now, payload)]) gw =
  _handle_message now payload (handle_messages stream gw).
Proof. unfold handle_messages. by rewrite foldl_app. Qed.

(** Over any stream of messages, decodable or not, the counters and the
    callback stay in step: [messages_received] grows by the number of
    messages; each message is counted as parsed, or as a parse error, or
    as neither, never as both; the state callback is called once for each
    message counted as parsed, when there is a callback, and never
    otherwise; each call hands over a batch of exactly one entry; and
    [last_message_time] is the arrival time of the last message. *)
Theorem handle_messages_accounting stream gw :
  messages_received (stats (handle_messages stream gw)) =
    messages_received (stats gw) + length stream ∧
  messages_parsed (stats gw) ≤ messages_parsed (stats (handle_messages stream gw)) ∧
  parse_errors (stats gw) ≤ parse_errors (stats (handle_messages stream gw)) ∧
  messages_parsed (stats (handle_messages stream gw)) +
    parse_errors (stats (handle_messages stream gw)) ≤
    messages_parsed (stats gw) + parse_errors (stats gw) + length stream ∧
  (∃ batches,
     forwarded (handle_messages stream gw) = forwarded gw ++ batches ∧
     Forall (λ batch, length batch = 1) batches ∧
     length batches =
       if state_callback gw
       then messages_parsed (stats (handle_messages stream gw)) -
            messages_parsed (stats gw)
       else 0) ∧
  last_message_time (stats (handle_messages stream gw)) =
    from_option Some (last_message_time (stats gw)) (fst <$> last stream).
Proof.
  induction stream as [|[now payload] stream IH] using rev_ind.
  - simpl. split_and!; try lia; [| done].
    exists []. rewrite app_nil_r. split_and!; [done | done |].
    destruct (state_callback gw); simpl; lia.
  - rewrite handle_messages_snoc, length_app, last_snoc. simpl.
    destruct IH as (Hrecv & Hparsed & Herrors & Hsum & (batches & Hfw & Hone & Hlen) & _).
    assert (state_callback (handle_messages stream gw) = state_callback gw) as Hcb.
    { clear. induction stream as [|[now payload] stream IH] using rev_ind; [done |].
      rewrite handle_messages_snoc.
      by destruct (handle_message_step now payload (handle_messages stream gw)) as [-> _]. }
    destruct (handle_message_step now payload (handle_messages stream gw))
      as (_ & Hrecv' & Hlast' &
          [(Hparsed' & Herrors' & state_data & Hfw')|(Hparsed' & Hle & Hge & Hfw')]).
    + rewrite Hrecv', Hparsed', Herrors', Hfw', Hcb, Hfw.
      split_and!; try lia; [| done].
      destruct (state_callback gw).
      * exists (batches ++ [[state_data]]). rewrite (assoc_L (++)).
        split_and!; [done | | rewrite length_app; simpl; lia].
        apply Forall_app. split; [done | by repeat constructor].
      * exists batches. by split_and!.
    + rewrite Hrecv', Hparsed', Hfw', Hfw.
      split_and!; try lia; [| done].
      exists batches. by split_and!.
Qed.

(** *** [configure] *)

Lemma split_no_separator c s : occurs c s = false → split c s = [s].
Proof.
  induction s as [|c' rest IH]; simpl; [done |].
  intros [Hc Hrest]%orb_false_elim. apply bool_decide_eq_false in Hc.
  rewrite decide_False by done. by rewrite IH.
Qed.

Lemma split_at_separator c name rest :
  occurs c name = false →
  split c (name +:+ String c rest) = name :: split c rest.
Proof.
  induction name as [|c' name IH]; simpl.
  - intros _. by rewrite decide_True.
  - intros [Hc Hname]%orb_false_elim. apply bool_decide_eq_false in Hc.
    rewrite decide_False by done. by rewrite IH.
Qed.

Lemma occurs_app c name rest : occurs c (name +:+ String c rest) = true.
Proof.
  induction name as [|c' name IH]; simpl.
  - by rewrite bool_decide_eq_true_2.
  - rewrite IH. apply orb_true_r.
Qed.

Lemma startswith_app c name sep rest :
  sep ≠ c → startswith c (name +:+ String sep rest) = startswith c name.
Proof.
  intros Hsep. destruct name; simpl; [| done]. by apply bool_decide_eq_false_2.
Qed.

(** [configure] splits an address [name:port] in two: for a [name]
    without colon that does not begin with a bracket, and a port text
    without colon, the host becomes [name] and the port is the one given
    as argument if there is one -- even 0 -- and otherwise the number the
    port text reads as, or 1883 when it does not read as a number. Any
    other address is kept whole as the host -- one without colon, one in
    IPv6 brackets (with or without a port), one with more than one colon
    -- and then the port is the one given, or 1883 when none or 0 is
    given. An absent or empty client id is replaced by a generated one. *)
Theorem configure_spec int now device_sn address port username password client_id :
  (∀ name port_text,
     address = name +:+ String ":"%char port_text →
     occurs ":"%char name = false → occurs ":"%char port_text = false →
     startswith "["%char name = false →
     host (configure int now device_sn address port username password client_id)
       = name ∧
     mqtt_gateway.port
       (configure int now device_sn address port username password client_id) =
       match port with
       | Some given => given
       | None => default default_port (int port_text)
       end) ∧
  (occurs ":"%char address = false ∨ startswith "["%char address = true ∨
   2 < length (split ":"%char address) →
   host (configure int now device_sn address port username password client_id)
     = address ∧
   mqtt_gateway.port
     (configure int now device_sn address port username password client_id) =
     port_or_default port) ∧
  mqtt_gateway.client_id
    (configure int now device_sn address port username password client_id) =
    match client_id with
    | Some given =>
        if decide (given = "")
        then "hyqw_adapter_" +:+ device_sn +:+ "_" +:+ pretty now else given
    | None => "hyqw_adapter_" +:+ device_sn +:+ "_" +:+ pretty now
    end.
Proof.
  split_and!; [| | done].
  - intros name port_text -> Hname Htext Hbracket. unfold configure.
    rewrite occurs_app, startswith_app, Hbracket by done. simpl.
    rewrite split_at_separator, split_no_separator by done. done.
  - intros Hwhole. unfold configure.
    destruct (occurs ":"%char address && negb (startswith "["%char address)) eqn:Hsplit;
      [| done].
    apply andb_true_iff in Hsplit as [Hcolon Hbracket].
    destruct Hwhole as [Hnone|[Hyes|Hlong]]; [congruence | |].
    + rewrite Hyes in Hbracket. done.
    + destruct (split ":"%char address) as [|? [|? [|? ?]]]; simpl in *; try done. lia.
Qed.

Lemma configure_spec_witness :
  host (configure (λ _, Some 8883%Z) 1700000000 "FB485" "broker.local:8883" None
          None None None) = "broker.local" ∧
  mqtt_gateway.port
    (configure (λ _, Some 8883%Z) 1700000000 "FB485" "broker.local:8883" None
       None None None) = 8883%Z.
Proof.
  destruct (configure_spec (λ _, Some 8883%Z) 1700000000 "FB485" "broker.local:8883"
              None None None None) as (Hsplit & _).
  by apply (Hsplit "broker.local" "8883").
Defined.

End mqtt_gateway_more.

(** ** state_sync_router.py: whole runs of the router *)

Module state_sync_router_more.
Import state_sync_router state_sync_router_facts.

(** *** Flags, bus and fallback task *)

Lemma accept_states_coherent source now states r :
  coherent r → coherent (accept_states source now states r).
Proof. done. Qed.




(** *** A stopped router and the mode it is in *)

Lemma apply_call_current_mode r call :
  ¬ chooses_mode call → current_mode (apply_call r call) = current_mode r.
Proof.
  intros Hcall. destruct call; simpl in *; try done.
  - unfold run_scheduled_restart, _restart_fallback_task, _start_fallback_task,
      _stop_fallback_task.
    repeat (case_decide || case_match); simpl in *; first [done | congruence].
  - unfold handle_mqtt_states. by destruct (negb _).
  - unfold handle_polling_states. by destruct (negb _).
  - unfold handle_fallback_states. by destruct (negb _).
  - unfold fallback_round, handle_fallback_states.
    repeat (case_decide || case_match); simpl in *; by simplify_eq.
Qed.

Lemma apply_call_keeps_mode r call :
  mode_active r = false → keeps_mode (current_mode r) call →
  mode_active (apply_call r call) = false ∧
  current_mode (apply_call r call) = current_mode r ∧
  state_manager (apply_call r call) = state_manager r ∧
  updates (apply_call r call) = updates r.
Proof.
  intros Hr Hcall.
  assert (¬ chooses_mode call →
          mode_active (apply_call r call) = false ∧
          current_mode (apply_call r call) = current_mode r ∧
          state_manager (apply_call r call) = state_manager r ∧
          updates (apply_call r call) = updates r) as Hother.
  { intros Hother. destruct (apply_call_inactive r call Hr Hother) as (? & ? & ?).
    split_and!; try done. by apply apply_call_current_mode. }
  destruct call; try (apply Hother; simpl; tauto); simpl in *.
  - unfold use_mqtt_mode. by rewrite decide_True.
  - unfold use_polling_mode. by rewrite decide_True.
Qed.

(** A router that is not active -- a new one, or one that was stopped --
    is not brought back by choosing the mode it already reports: [stop]
    leaves [current_mode] as it was, and [use_mqtt_mode] and
    [use_polling_mode] return at once when the mode is theirs. So in any
    run of calls in which every mode choice names the reported mode, the
    router stays inactive, drops every batch, and never touches the state
    manager or the notifications; only choosing the other mode activates
    it. *)
Theorem same_mode_choice_does_not_activate r calls :
  mode_active r = false → Forall (keeps_mode (current_mode r)) calls →
  mode_active (foldl apply_call r calls) = false ∧
  current_mode (foldl apply_call r calls) = current_mode r ∧
  using_mqtt (foldl apply_call r calls) = false ∧
  using_polling (foldl apply_call r calls) = false ∧
  state_manager (foldl apply_call r calls) = state_manager r ∧
  updates (foldl apply_call r calls) = updates r.
Proof.
  intros Hr Hcalls.
  assert (mode_active (foldl apply_call r calls) = false ∧
          current_mode (foldl apply_call r calls) = current_mode r ∧
          state_manager (foldl apply_call r calls) = state_manager r ∧
          updates (foldl apply_call r calls) = updates r) as (Hact & ? & ? & ?).
  { revert r Hr Hcalls. induction calls as [|call calls IH]; intros r Hr Hcalls; [done |].
    apply Forall_cons in Hcalls as [Hcall Hcalls]. cbn [foldl].
    destruct (apply_call_keeps_mode r call Hr Hcall) as (Hr' & Hmode & <- & <-).
    rewrite <- Hmode in *. by apply IH. }
  destruct (inactive_not_using _ Hact) as [? ?]. by split_and!.
Qed.

Lemma same_mode_choice_does_not_activate_witness :
  using_mqtt
    (foldl apply_call
       (stop (use_mqtt_mode 1 None
                (new state_manager.init
                   (polling_bus.new polling_bus.scenario_config) true)))
       [UseMqttMode 5 None; HandleMqttStates 6 [state_manager.scenario_entry]]) = false.
Proof.
  destruct (same_mode_choice_does_not_activate
              (stop (use_mqtt_mode 1 None
                       (new state_manager.init
                          (polling_bus.new polling_bus.scenario_config) true)))
              [UseMqttMode 5 None; HandleMqttStates 6 [state_manager.scenario_entry]])
    as (_ & _ & Husing & _); [reflexivity | | exact Husing].
  repeat constructor.
Defined.

(** *** What reaches [update_callback] *)

Lemma process_state_update_reports now states sm :
  (state_manager.process_state_update now states sm).1.1 = true →
  reports_change (state_manager.process_state_update now states sm).1.2.
Proof.
  intros Hflag. destruct (decide (states = [])) as [->|Hne]; [done |].
  destruct (state_manager_facts.process_state_update_nonempty now states sm Hne)
    as [Hfst _].
  rewrite Hfst in Hflag |- *. simpl in *. eexists. split; [done |].
  split; [done |].
  rewrite state_manager_facts.compare_states_invariant in Hflag.
  by apply bool_decide_eq_true in Hflag.
Qed.

Lemma hands_over_nothing r r' :
  update_callback r' = update_callback r → updates r' = updates r →
  counted_updates (stats r') = counted_updates (stats r) →
  hands_over r r' [].
Proof.
  intros Hcb Hup Hst. split_and!; [done | by rewrite app_nil_r | constructor |].
  intros _. simpl. lia.
Qed.

Lemma accept_states_hands_over source now states r r' :
  update_callback r' = update_callback r → updates r' = updates r →
  counted_updates (stats r') = counted_updates (stats r) →
  ∃ extra, hands_over r (accept_states source now states r') extra.
Proof.
  intros Hcb Hup Hst. unfold accept_states, hands_over. simpl.
  destruct (state_manager.process_state_update now states (state_manager r')).1.1
    eqn:Hflag; simpl.
  - destruct (update_callback r') eqn:Hcb'.
    + eexists [_]. rewrite Hup. split_and!; [done | done | |].
      * apply Forall_singleton. by apply process_state_update_reports.
      * intros _. unfold counted_updates in *. destruct source; simpl; lia.
    + exists []. rewrite Hup, app_nil_r, <- Hcb. split_and!; [done | done | constructor | done].
  - exists []. rewrite Hup, app_nil_r. split_and!; [done | done | constructor |].
    intros _. simpl. lia.
Qed.

Lemma handled_hands_over source now states r r' handled :
  update_callback r' = update_callback r → updates r' = updates r →
  counted_updates (stats r') = counted_updates (stats r) →
  handled = r' ∨ handled = accept_states source now states r' →
  ∃ extra, hands_over r handled extra.
Proof.
  intros Hcb Hup Hst [->| ->].
  - exists []. by apply hands_over_nothing.
  - by apply accept_states_hands_over.
Qed.

Lemma apply_call_hands_over r call :
  ¬ is_reset call → ∃ extra, hands_over r (apply_call r call) extra.
Proof.
  intros Hcall.
  destruct call as [|interval| |enabled|now fetched|now|now states|now states|now states
                    |now fetched| |]; simpl in *; try done;
    try (exists []; by apply hands_over_nothing).
  - exists []. apply hands_over_nothing;
      unfold run_scheduled_restart, _restart_fallback_task, _start_fallback_task,
        _stop_fallback_task;
      repeat (case_decide || case_match); simpl; done.
  - unfold use_mqtt_mode. case_decide; [exists []; by apply hands_over_nothing |].
    unfold count_mode_switch, _perform_immediate_sync, handle_fallback_states.
    match goal with
    | |- context [_start_fallback_task ?r1] =>
        assert (update_callback (_start_fallback_task r1) = update_callback r ∧
                updates (_start_fallback_task r1) = updates r ∧
                stats (_start_fallback_task r1) = stats r) as (Hcb1 & Hup1 & Hst1)
          by (unfold _start_fallback_task;
              repeat (case_decide || case_match); simpl; done);
        generalize dependent (_start_fallback_task r1)
    end.
    intros r1 Hcb1 Hup1 Hst1.
    assert (∃ extra,
              hands_over r
                (if fallback_callback r1
                 then match fetched with
                      | Some (state :: rest) =>
                          if negb (using_mqtt r1) then r1
                          else accept_states FromFallback now (state :: rest) r1
                      | _ => r1
                      end
                 else r1) extra) as (extra & Hcb' & Hup' & Hall' & Hst').
    { apply (handled_hands_over FromFallback now (default [] fetched) r r1);
        [done | done | by rewrite Hst1 |].
      destruct (fallback_callback r1); [| by left].
      destruct fetched as [[|state rest]|]; [by left | | by left].
      destruct (negb (using_mqtt r1)); [by left | by right]. }
    exists extra. by split_and!.
  - unfold use_polling_mode. case_decide; exists []; by apply hands_over_nothing.
  - unfold handle_mqtt_states.
    apply (handled_hands_over FromMqtt now states r r); try done.
    destruct (negb _); auto.
  - unfold handle_polling_states.
    apply (handled_hands_over FromPolling now states r r); try done.
    destruct (negb _); auto.
  - unfold handle_fallback_states.
    apply (handled_hands_over FromFallback now states r r); try done.
    destruct (negb _); auto.
  - unfold fallback_round.
    destruct (fallback_task r); try (exists []; by apply hands_over_nothing).
    destruct (using_mqtt r && fallback_callback r);
      [| exists []; by apply hands_over_nothing].
    assert (∃ extra,
              hands_over r
                match fetched with
                | Some (state :: rest) => handle_fallback_states now (state :: rest) r
                | _ => r
                end extra) as (extra & Hcb' & Hup' & Hall' & Hst').
    { apply (handled_hands_over FromFallback now (default [] fetched) r r);
        [done | done | done |].
      destruct fetched as [[|state rest]|]; [by left | | by left].
      unfold handle_fallback_states. destruct (negb _); auto. }
    exists extra. destruct fetched; by split_and!.
Qed.

Lemma apply_call_reports r call :
  Forall reports_change (updates r) →
  Forall reports_change (updates (apply_call r call)).
Proof.
  intros Hall.
  assert (is_reset call ∨ ¬ is_reset call) as [Hreset|Hother]
    by (destruct call; simpl; tauto).
  - by destruct call.
  - destruct (apply_call_hands_over r call Hother) as (extra & _ & -> & Hextra & _).
    by apply Forall_app.
Qed.

(** [update_callback] is called only with a change-set that reports a
    change: in every run from a new router, whatever the calls, each
    change-set handed over has [has_changes] set and a non-empty
    [changed_devices] -- the empty dictionary an empty batch yields never
    gets there. And in a run in which the statistics are not reset, the
    number of calls of a callback that is set is the sum of
    [mqtt_state_updates], [polling_state_updates] and [fallback_checks]. *)
Theorem updates_report_changes sm bus callback calls :
  Forall reports_change (updates (foldl apply_call (new sm bus callback) calls)) ∧
  (callback = true → Forall (λ call, ¬ is_reset call) calls →
   length (updates (foldl apply_call (new sm bus callback) calls)) =
   counted_updates (stats (foldl apply_call (new sm bus callback) calls))).
Proof.
  split.
  - assert (Forall reports_change (updates (new sm bus callback))) as Hnew
      by constructor.
    revert Hnew. generalize (new sm bus callback).
    induction calls as [|call calls IH]; intros r Hall; [done |].
    cbn [foldl]. by apply IH, apply_call_reports.
  - intros -> Hcalls.
    assert (update_callback (new sm bus true) = true ∧
            length (updates (new sm bus true)) =
            counted_updates (stats (new sm bus true))) as Hnew by done.
    revert Hnew. generalize (new sm bus true).
    induction calls as [|call calls IH]; intros r [Hcb Hlen]; [done |].
    apply Forall_cons in Hcalls as [Hcall Hcalls]. cbn [foldl].
    destruct (apply_call_hands_over r call Hcall) as (extra & Hcb' & Hup & _ & Hst).
    apply IH; [done |]. split; [by rewrite Hcb' |].
    rewrite Hup, length_app, Hst by done. lia.
Qed.

Lemma updates_report_changes_witness :
  length (updates
            (foldl apply_call
               (new state_manager.init (polling_bus.new polling_bus.scenario_config)
                    true)
               [UseMqttMode 1 None;
                HandleMqttStates 2 [state_manager.scenario_entry];
                HandleMqttStates 3 [state_manager.scenario_entry];
                HandleMqttStates 4 []])) = 1.
Proof.
  destruct (updates_report_changes state_manager.init
              (polling_bus.new polling_bus.scenario_config) true
              [UseMqttMode 1 None;
               HandleMqttStates 2 [state_manager.scenario_entry];
               HandleMqttStates 3 [state_manager.scenario_entry];
               HandleMqttStates 4 []]) as [_ Hcount].
  rewrite Hcount; [reflexivity | reflexivity |].
  repeat constructor; simpl; tauto.
Defined.

(** *** The same batch twice *)

Lemma accept_states_again source1 source2 now1 now2 states r :
  processed_silently now2 states
    (accept_states source1 now1 states r)
    (accept_states source2 now2 states (accept_states source1 now1 states r)).
Proof.
  pose proof (state_manager_facts.process_state_update_again now1 now2 states
                (state_manager r)) as Hagain.
  destruct (state_manager_more.process_state_update_silent now2 states _ Hagain)
    as (Hdel & Hcache & Hdev & Hlis & Hdc & Hfc & Htotal & Hlast).
  unfold processed_silently.
  unfold accept_states at 1 3 5 7 9 11 13 15 17 19. simpl.
  change (state_manager (accept_states source1 now1 states r)) with
    (state_manager.process_state_update now1 states (state_manager r)).2.
  rewrite Hagain. simpl. by split_and!.
Qed.

(** A batch that repeats the one just processed is silent, whichever
    source brings it: when MQTT pushes a batch and the fallback check, or
    MQTT again, then brings the same batch, and when polling brings the
    same batch twice, the second call hands nothing to [update_callback],
    moves no counter of the router and calls no listener of the state
    manager; in the state manager the caches and the counters of changes
    stay as they are, and only [total_updates] and [last_update_time]
    move (for a batch that is not empty). *)
Theorem repeated_batch_is_silent now1 now2 states r :
  (using_mqtt r = true →
   processed_silently now2 states
     (handle_mqtt_states now1 states r)
     (handle_fallback_states now2 states (handle_mqtt_states now1 states r)) ∧
   processed_silently now2 states
     (handle_mqtt_states now1 states r)
     (handle_mqtt_states now2 states (handle_mqtt_states now1 states r))) ∧
  (using_polling r = true →
   processed_silently now2 states
     (handle_polling_states now1 states r)
     (handle_polling_states now2 states (handle_polling_states now1 states r))).
Proof.
  assert (∀ source, using_mqtt (accept_states source now1 states r) = using_mqtt r)
    as Hmqtt by done.
  assert (∀ source,
            using_polling (accept_states source now1 states r) = using_polling r)
    as Hpolling by done.
  split; intros Husing.
  - unfold handle_fallback_states, handle_mqtt_states.
    rewrite Husing. cbn [negb]. rewrite Hmqtt, Husing. cbn [negb].
    split; apply accept_states_again.
  - unfold handle_polling_states.
    rewrite Husing. cbn [negb]. rewrite Hpolling, Husing. cbn [negb].
    apply accept_states_again.
Qed.

Lemma repeated_batch_is_silent_witness :
  updates
    (handle_fallback_states 3 [state_manager.scenario_entry]
       (handle_mqtt_states 2 [state_manager.scenario_entry]
          (use_mqtt_mode 1 None
             (new state_manager.init (polling_bus.new polling_bus.scenario_config)
                  true)))) =
  updates
    (handle_mqtt_states 2 [state_manager.scenario_entry]
       (use_mqtt_mode 1 None
          (new state_manager.init (polling_bus.new polling_bus.scenario_config)
               true))).
Proof.
  destruct (repeated_batch_is_silent 2 3 [state_manager.scenario_entry]
              (use_mqtt_mode 1 None
                 (new state_manager.init (polling_bus.new polling_bus.scenario_config)
                      true))) as [Hmqtt _].
  by destruct (Hmqtt eq_refl) as [(-> & _) _].
Defined.

End state_sync_router_more.
